(** * mfcauto: the model state-merge engine ([mfcauto/model.py])

    A shallow embedding of [Model] and of the module-level registry
    [KNOWNMODELS], followed by the properties of the merge engine, the
    best-session selector, the tag merger, the watcher engine and the
    registry.

    Conventions of the embedding.
    - A Python [dict] whose iteration order the code relies on (the payload,
      [knownsessions], [whenmap], [KNOWNMODELS]) is an association list in
      insertion order.  A session row, which the code only reads and writes by
      key, is a [gmap string value]; the tag set is a [gset string].
    - [Model] instances live in a heap and are named by their address, so that
      "the same instance" is equality of addresses.
    - [emit] (inherited from [EventEmitter]) and the watcher callables are
      opaque to this module: a call is recorded in a log of events and has no
      other effect.  Watcher conditions are read-only observers of the model.
    - The enumerations of [mfcauto/constants.py] are parameters, gathered in
      the record [constants]. *)

From Stdlib Require Import ZArith Lia Ascii String DecimalString DecimalZ DecimalPos.
From stdpp Require Import gmap strings list fin_maps.

Local Open Scope Z_scope.

(** ** Python values *)

(** The scalars a decoded payload carries. *)
Inductive atom :=
| ANone
| ABool (b : bool)
| AInt (n : Z)
| AStr (s : string).

(** A value is a scalar or a nested mapping of scalars (the groups ["u"],
    ["m"] and ["s"] of a payload are such mappings). *)
Inductive value :=
| VAtom (a : atom)
| VDict (d : list (string * atom)).

Coercion VAtom : atom >-> value.

Abbreviation VNone := (VAtom ANone).
Abbreviation VInt n := (VAtom (AInt n)).
Abbreviation VBool b := (VAtom (ABool b)).
Abbreviation VStr s := (VAtom (AStr s)).

(** [bool] is a subclass of [int]: [True == 1] and [False == 0]. *)
Definition as_int (a : atom) : option Z :=
  match a with
  | ABool b => Some (Z.b2z b)
  | AInt n => Some n
  | _ => None
  end.

Definition value_int (v : value) : option Z :=
  match v with
  | VAtom a => as_int a
  | VDict _ => None
  end.

(** Python [==] on scalars. *)
Definition atom_eq (a b : atom) : bool :=
  match a, b with
  | ANone, ANone => true
  | AStr s, AStr t => bool_decide (s = t)
  | ANone, _ | _, ANone | AStr _, _ | _, AStr _ => false
  | _, _ => bool_decide (as_int a = as_int b)
  end.

(** [d[k]] / [k in d] for a mapping kept in insertion order. *)
Fixpoint assoc {K V : Type} `{EqDecision K} (k : K) (d : list (K * V)) : option V :=
  match d with
  | [] => None
  | (k', v) :: d' => if decide (k' = k) then Some v else assoc k d'
  end.

Definition opt_atom_eq (x y : option atom) : bool :=
  match x, y with
  | Some a, Some b => atom_eq a b
  | None, None => true
  | _, _ => false
  end.

(** Python [==] on mappings: the same keys, with equal values, in any order. *)
Definition dict_eq (d1 d2 : list (string * atom)) : bool :=
  forallb (fun k => opt_atom_eq (assoc k d1) (assoc k d2)) (d1.*1 ++ d2.*1).

(** Python [==]; [!=] is its negation. *)
Definition py_eq (v w : value) : bool :=
  match v, w with
  | VAtom a, VAtom b => atom_eq a b
  | VDict d1, VDict d2 => dict_eq d1 d2
  | _, _ => false
  end.

Definition py_ne (v w : value) : bool := negb (py_eq v w).

(** Truth value of an object, as [if x:] and [bool(x)] take it. *)
Definition truthy (v : value) : bool :=
  match v with
  | VAtom ANone => false
  | VAtom (ABool b) => b
  | VAtom (AInt n) => negb (n =? 0)
  | VAtom (AStr s) => negb (bool_decide (s = ""%string))
  | VDict d => negb (bool_decide (d = []))
  end.

(** ** Dictionaries in insertion order *)

Section dict.
Context {K V : Type} `{EqDecision K}.

(** [d[k] = v]: an existing key keeps its place. *)
Fixpoint dict_set (k : K) (v : V) (d : list (K * V)) : list (K * V) :=
  match d with
  | [] => [(k, v)]
  | (k', v') :: d' =>
      if decide (k' = k) then (k, v) :: d' else (k', v') :: dict_set k v d'
  end.

(** [d.setdefault(k, v)], the mapping afterwards. *)
Definition dict_setdefault (k : K) (v : V) (d : list (K * V)) : list (K * V) :=
  match assoc k d with
  | Some _ => d
  | None => d ++ [(k, v)]
  end.

(** [del d[k]] for a key that may be absent. *)
Definition dict_del (k : K) (d : list (K * V)) : list (K * V) :=
  filter (fun kv => kv.1 ≠ k) d.

(** In-place update of the object stored under [k]. *)
Fixpoint dict_alter (f : V → V) (k : K) (d : list (K * V)) : list (K * V) :=
  match d with
  | [] => []
  | (k', v') :: d' =>
      if decide (k' = k) then (k', f v') :: d' else (k', v') :: dict_alter f k d'
  end.
End dict.

(** ** Constants of [mfcauto/constants.py] *)

(** [STATE], [FCVIDEO], [FCLEVEL] and [FCOPT] are integer enumerations
    defined outside this module.  [STATE.Offline] and [FCVIDEO.OFFLINE] name
    the same video state; [FCVIDEO_member] tells which integers are values
    of [FCVIDEO]. *)
Record constants := {
  STATE_Offline : Z;
  FCVIDEO_OFFLINE : Z;
  FCVIDEO_member : Z → bool;
  FCLEVEL_MODEL : Z;
  FCOPT_TRUEPVT : Z;
  FCOPT_GUESTMUTE : Z;
  FCOPT_BASICMUTE : Z;
  FCOPT_MODELSW : Z;
  offline_agree : STATE_Offline = FCVIDEO_OFFLINE;
  offline_member : FCVIDEO_member FCVIDEO_OFFLINE = true
}.

(** ** Exceptions *)

Inductive exn :=
| AssertionError
| TypeError
| ValueError
| KeyError
| Unmodelled. (* a session id that is not an integer: outside the embedding *)

Inductive outcome (A : Type) :=
| Ok (a : A)
| Raise (e : exn).
Arguments Ok {A} a.
Arguments Raise {A} e.

(** ** Sessions *)

Abbreviation row := (gmap string value).
Abbreviation sessions := (list (Z * gmap string value)).
Abbreviation payload := (list (string * value)).

Section Sessions.
Variable C : constants.

(** [Model._default_session] *)
Definition _default_session (uid : Z) : row :=
  <["rc" := VInt 0]> (<["vs" := VInt (STATE_Offline C)]>
    (<["uid" := VInt uid]> (<["sid" := VInt 0]> ∅))).

(** [sessionobj.setdefault(k, v)]: the row afterwards and the value read. *)
Definition row_setdefault (k : string) (v : value) (r : row) : row * value :=
  match r !! k with
  | Some x => (r, x)
  | None => (<[k := v]> r, v)
  end.

(** One turn of the loop of [bestsessionid]: the running pair
    [(sessionidtouse, foundmodelsoftware)] and the row, which the two
    [setdefault] calls may complete. *)
Definition best_step (acc : Z * bool) (sessionid : Z) (sessionobj : row)
  : (Z * bool) * row :=
  let '(sessionidtouse, foundmodelsoftware) := acc in
  let '(r1, vs) := row_setdefault "vs" (VInt (STATE_Offline C)) sessionobj in
  if py_eq vs (VInt (STATE_Offline C)) then (acc, r1)
  else
    let '(r2, sw) := row_setdefault "model_sw" (VBool false) r1 in
    if truthy sw then
      if foundmodelsoftware then
        (if sessionid >? sessionidtouse then (sessionid, true) else acc, r2)
      else ((sessionid, true), r2)
    else if negb foundmodelsoftware && (sessionid >? sessionidtouse)
         then ((sessionid, foundmodelsoftware), r2)
         else (acc, r2).

Fixpoint best_loop (acc : Z * bool) (ks : sessions) : (Z * bool) * sessions :=
  match ks with
  | [] => (acc, [])
  | (sessionid, sessionobj) :: ks' =>
      let '(acc1, r) := best_step acc sessionid sessionobj in
      let '(acc2, ks2) := best_loop acc1 ks' in
      (acc2, (sessionid, r) :: ks2)
  end.

(** [Model.bestsessionid]: the id, and [knownsessions] as the property
    leaves it. *)
Definition bestsessionid (ks : sessions) : Z * sessions :=
  let '((sessionidtouse, _), ks') := best_loop (0, false) ks in
  (sessionidtouse, ks').

(** [Model.bestsession]: the row is returned by reference; it is the one
    stored under the returned key in the returned [knownsessions]. *)
Definition bestsession (uid : Z) (ks : sessions) : Z * sessions :=
  let '(best, ks1) := bestsessionid ks in
  (best, dict_setdefault best (_default_session uid) ks1).

(** The row stored under a key. *)
Definition row_at (k : Z) (ks : sessions) : row :=
  default ∅ (assoc k ks).

(** *** [Model.merge], lines 90-122: applying the payload *)

(** An entry [(prop, self, before, after)] of [callbackstack]; [self] is
    the same in all of them and is added when the entry is emitted. *)
Definition stackitem : Type := string * value * value.

Definition is_group_key (key : string) : bool :=
  bool_decide (key = "u") || bool_decide (key = "m") || bool_decide (key = "s").

(** [None if not key in previoussession else previoussession[key]] *)
Definition before_of (pk : Z) (ks : sessions) (key : string) : value :=
  default VNone (row_at pk ks !! key).

(** [currentsession[key] = v] *)
Definition set_key (ck : Z) (key : string) (v : value) (ks : sessions) : sessions :=
  dict_alter (insert key v) ck ks.

(** [bool(flags & mask)] *)
Definition flag (flags mask : Z) : value :=
  VBool (negb (Z.land flags mask =? 0)).

Definition store_flags (ck : Z) (flags : Z) (ks : sessions) : sessions :=
  set_key ck "model_sw" (flag flags (FCOPT_MODELSW C))
    (set_key ck "basics_muted" (flag flags (FCOPT_BASICMUTE C))
       (set_key ck "guests_muted" (flag flags (FCOPT_GUESTMUTE C))
          (set_key ck "truepvt" (flag flags (FCOPT_TRUEPVT C)) ks))).

(** Recording a leaf and writing it: the old value is read from the
    previous session before the current session is written. *)
Definition merge_leaf (pk ck : Z) (key : string) (v : value)
    (st : sessions * list stackitem) : sessions * list stackitem :=
  (set_key ck key v st.1, st.2 ++ [(key, before_of pk st.1 key, v)]).

(** The inner loop over a group ["u"], ["m"] or ["s"]. *)
Fixpoint merge_group (pk ck : Z) (key : string) (kvs : list (string * atom))
    (st : sessions * list stackitem) : sessions * list stackitem * option exn :=
  match kvs with
  | [] => (st, None)
  | (key2, a) :: kvs' =>
      let st1 := merge_leaf pk ck key2 (VAtom a) st in
      if bool_decide (key = "m") && bool_decide (key2 = "flags") then
        match as_int a with
        | Some flags => merge_group pk ck key kvs' (store_flags ck flags st1.1, st1.2)
        | None => (st1, Some TypeError)
        end
      else merge_group pk ck key kvs' st1
  end.

(** The loop over the payload.  Under a group key the value is iterated:
    a mapping gives its entries, the empty string gives nothing, and
    anything else cannot be iterated and indexed by key. *)
Fixpoint merge_fields (pk ck : Z) (p : payload)
    (st : sessions * list stackitem) : sessions * list stackitem * option exn :=
  match p with
  | [] => (st, None)
  | (key, v) :: p' =>
      if is_group_key key then
        match v with
        | VDict kvs =>
            match merge_group pk ck key kvs st with
            | (st1, None) => merge_fields pk ck p' st1
            | r => r
            end
        | VAtom (AStr "") => merge_fields pk ck p' st
        | _ => (st, Some TypeError)
        end
      else merge_fields pk ck p' (merge_leaf pk ck key v st)
  end.

(** Lines 119-122: the keys of the previous session that the current one
    lacks.  Python iterates the difference of two sets of strings in an
    order of its own; here it is the order of [elements]. *)
Definition cleared (pk ck : Z) (ks : sessions) : list stackitem :=
  (λ key, (key, before_of pk ks key, VNone))
    <$> elements (dom (row_at pk ks) ∖ dom (row_at ck ks)).

(** [0 if not "sid" in payload else payload["sid"]], as a key of
    [knownsessions]. *)
Definition payload_sid (p : payload) : outcome Z :=
  match assoc "sid"%string p with
  | None => Ok 0
  | Some (VDict _) => Raise TypeError
  | Some (VAtom a) =>
      match as_int a with
      | Some n => Ok n
      | None => Raise Unmodelled
      end
  end.

(** What lines 90-122 leave behind: [knownsessions], the keys under which
    [previoussession] and [currentsession] are stored, and
    [callbackstack]. *)
Record updated := {
  u_sessions : sessions;
  u_prev : Z;
  u_cur : Z;
  u_stack : list stackitem
}.

Definition merge_update (uid : Z) (p : payload) (ks : sessions)
  : updated * option exn :=
  let '(pk, ks1) := bestsession uid ks in
  match payload_sid p with
  | Raise e => ({| u_sessions := ks1; u_prev := pk; u_cur := 0; u_stack := [] |}, Some e)
  | Ok ck =>
      let ks2 := dict_setdefault ck (_default_session uid) ks1 in
      let '(ks3, stack, e) := merge_fields pk ck p (ks2, []) in
      let u := {| u_sessions := ks3; u_prev := pk; u_cur := ck; u_stack := stack |} in
      match e with
      | Some _ => (u, e)
      | None =>
          match row_at ck ks3 !! "sid", row_at pk ks3 !! "sid" with
          | Some cursid, Some prevsid =>
              if py_ne cursid prevsid
              then ({| u_sessions := ks3; u_prev := pk; u_cur := ck;
                       u_stack := stack ++ cleared pk ck ks3 |}, None)
              else (u, None)
          | _, _ => (u, Some KeyError)
          end
      end
  end.

(** *** Lines 124-125: is the merge visible? *)

Definition merge_visible (ck : Z) (ks : sessions) : bool * sessions * option exn :=
  let '(best, ks1) := bestsessionid ks in
  match row_at ck ks1 !! "sid" with
  | None => (false, ks1, Some KeyError)
  | Some sid =>
      if py_eq (VInt best) sid then (true, ks1, None)
      else
        let '(best', ks2) := bestsessionid ks1 in
        if best' =? 0 then
          match row_at ck ks2 !! "sid" with
          | None => (false, ks2, Some KeyError)
          | Some sid' => (py_ne sid' (VInt 0), ks2, None)
          end
        else (false, ks2, None)
  end.

(** *** Lines 126-127: the cached name *)

Definition update_nm (uid : Z) (nm : value) (ks : sessions) : value * sessions :=
  let '(b1, ks1) := bestsession uid ks in
  match row_at b1 ks1 !! "nm" with
  | None => (nm, ks1)
  | Some _ =>
      let '(b2, ks2) := bestsession uid ks1 in
      if py_ne (default VNone (row_at b2 ks2 !! "nm")) nm then
        let '(b3, ks3) := bestsession uid ks2 in
        (default VNone (row_at b3 ks3 !! "nm"), ks3)
      else (nm, ks2)
  end.

(** *** [Model._purgeoldsessions] *)

(** [FCVIDEO(v)]: the member with that value, or [ValueError]. *)
Definition FCVIDEO (v : value) : outcome Z :=
  match value_int v with
  | Some n => if FCVIDEO_member C n then Ok n else Raise ValueError
  | None => Raise ValueError
  end.

(** The keys are visited in the order of [knownsessions]; Python visits
    the set of keys in an order of its own, which only decides what is
    left behind when [FCVIDEO] raises. *)
Fixpoint purge_loop (keys : list Z) (ks : sessions) : sessions * option exn :=
  match keys with
  | [] => (ks, None)
  | key :: keys' =>
      match row_at key ks !! "vs" with
      | None => purge_loop keys' (dict_del key ks)
      | Some v =>
          match FCVIDEO v with
          | Ok n =>
              if n =? FCVIDEO_OFFLINE C
              then purge_loop keys' (dict_del key ks)
              else purge_loop keys' ks
          | Raise e => (ks, Some e)
          end
      end
  end.

Definition _purgeoldsessions (ks : sessions) : sessions * option exn :=
  purge_loop ks.*1 ks.
End Sessions.

(** ** [int(s)] and [str(n)] *)

(** The builtins [get_model] relies on, for ASCII text: [int] accepts an
    optional sign and decimal digits, with single underscores between digits
    and white space around; [str] prints the shortest decimal numeral. *)
Module PyInt.
Import Ascii.
Local Open Scope char_scope.

(** The white space [int] skips around an ASCII numeral: the space and the
    control characters 9 to 13, and no other character. *)
Definition is_space (c : ascii) : bool :=
  let n := nat_of_ascii c in
  ((9 <=? n) && (n <=? 13) || (n =? 32))%nat.

Definition is_digit (c : ascii) : bool :=
  let n := nat_of_ascii c in ((48 <=? n) && (n <=? 57))%nat.

Fixpoint lstrip (s : list ascii) : list ascii :=
  match s with
  | c :: s' => if is_space c then lstrip s' else s
  | [] => []
  end.

Definition strip (s : list ascii) : list ascii :=
  reverse (lstrip (reverse (lstrip s))).

(** The digits of a numeral, once its underscores are checked and dropped;
    [after_digit] tells whether the previous character was a digit. *)
Fixpoint digits (after_digit : bool) (s : list ascii) : option (list ascii) :=
  match s with
  | [] => if after_digit then Some [] else None
  | c :: s' =>
      if is_digit c then cons c <$> digits true s'
      else if bool_decide (c = "_") && after_digit then digits false s'
      else None
  end.

Definition unsigned (s : list ascii) : option Z :=
  ds ← digits false s;
  Z.of_uint <$> NilEmpty.uint_of_string (string_of_list_ascii ds).

Definition int (s : string) : option Z :=
  match strip (list_ascii_of_string s) with
  | "-" :: s' => Z.opp <$> unsigned s'
  | "+" :: s' => unsigned s'
  | s' => unsigned s'
  end.

Definition str (n : Z) : string := NilZero.string_of_int (Z.to_int n).
End PyInt.

(** ** Models, watchers, events *)

Abbreviation addr := nat.
Abbreviation callback := nat.

(** What a watcher condition may look at. *)
Record snapshot := {
  s_uid : Z;
  s_nm : value;
  s_tags : gset string;
  s_knownsessions : sessions
}.

(** A value of [whenmap]: [{"ontrue": ..., "onfalseaftertrue": ...,
    "matchedset": ...}], together with the condition it is stored under. *)
Record when_entry := {
  condition : snapshot → bool;
  ontrue : callback;
  onfalseaftertrue : callback;
  matchedset : gset Z
}.

(** The attributes [Model.__init__] sets.  [whenmap] is keyed by the
    condition callable; the key here is a number standing for the identity of
    that callable. *)
Record Model := {
  uid : Z;
  nm : value;
  tags : gset string;
  knownsessions : sessions;
  whenmap : list (nat * when_entry)
}.

Definition Model_init (uid : Z) : Model :=
  {| uid := uid; nm := VNone; tags := ∅; knownsessions := []; whenmap := [] |}.

Definition snapshot_of (m : Model) : snapshot :=
  {| s_uid := uid m; s_nm := nm m; s_tags := tags m;
     s_knownsessions := knownsessions m |}.

Definition set_knownsessions (ks : sessions) (m : Model) : Model :=
  {| uid := uid m; nm := nm m; tags := tags m; knownsessions := ks;
     whenmap := whenmap m |}.

Definition set_nm (v : value) (m : Model) : Model :=
  {| uid := uid m; nm := v; tags := tags m; knownsessions := knownsessions m;
     whenmap := whenmap m |}.

Definition set_tags (t : gset string) (m : Model) : Model :=
  {| uid := uid m; nm := nm m; tags := t; knownsessions := knownsessions m;
     whenmap := whenmap m |}.

Definition set_whenmap (wm : list (nat * when_entry)) (m : Model) : Model :=
  {| uid := uid m; nm := nm m; tags := tags m; knownsessions := knownsessions m;
     whenmap := wm |}.

Definition set_matchedset (s : gset Z) (e : when_entry) : when_entry :=
  {| condition := condition e; ontrue := ontrue e;
     onfalseaftertrue := onfalseaftertrue e; matchedset := s |}.

(** An argument passed to a listener or to a watcher callable. *)
Inductive arg :=
| ArgModel (a : addr)
| ArgValue (v : value)
| ArgPayload (p : payload)
| ArgTagset (t : gset string)
| ArgTaglist (l : list string).

Inductive edge := OnTrue | OnFalseAfterTrue.

(** The log: [emitter.emit(name, *args)], and a call of the callable [f]
    that the entry under [key] of [owner.whenmap] holds for [which]. *)
Inductive event :=
| Emit (emitter : addr) (name : string) (args : list arg)
| Call (owner : addr) (key : nat) (which : edge) (f : callback) (args : list arg).

(** The heap of [Model] objects, the module-level [KNOWNMODELS] and the
    class attribute [Model.All]. *)
Record world := {
  heap : list Model;
  KNOWNMODELS : list (Z * addr);
  All : addr
}.

Definition set_heap (h : list Model) (w : world) : world :=
  {| heap := h; KNOWNMODELS := KNOWNMODELS w; All := All w |}.

Definition store (a : addr) (m : Model) (w : world) : world :=
  set_heap (<[a := m]> (heap w)) w.

(** ** The registry *)

(** [uid] as callers give it: an integer or its text. *)
Inductive uid_arg :=
| UInt (n : Z)
| UStr (s : string).

(** [Model.get_model].  With [create], [Model(uid)] is built before
    [setdefault] looks the key up, whether or not it is then used. *)
Definition get_model (uid : uid_arg) (create : bool) (w : world)
  : world * outcome (option addr) :=
  match (match uid with UStr s => PyInt.int s | UInt n => Some n end) with
  | None => (w, Raise ValueError)
  | Some n =>
      if create then
        let a := length (heap w) in
        let h := heap w ++ [Model_init n] in
        match assoc n (KNOWNMODELS w) with
        | Some b => (set_heap h w, Ok (Some b))
        | None =>
            ({| heap := h; KNOWNMODELS := KNOWNMODELS w ++ [(n, a)]; All := All w |},
             Ok (Some a))
        end
      else (w, Ok (assoc n (KNOWNMODELS w)))
  end.

(** [Model.find_models], with the predicate a read-only observer. *)
Definition find_models (func : snapshot → bool) (w : world) : list addr :=
  filter (λ a, Is_true (from_option (λ m, func (snapshot_of m)) false (heap w !! a)))
    (KNOWNMODELS w).*2.

(** The world once the module is loaded: [Model.All = Model.get_model(-500)]. *)
Definition initial_world : world :=
  (get_model (UInt (-500)) true {| heap := []; KNOWNMODELS := []; All := 0%nat |}).1.

(** ** The watcher engine *)

(** [_processor], for the model at [self] as [s] shows it. *)
Definition _processor (self : addr) (s : snapshot) (payload : arg)
    (owner : addr) (key : nat) (actions : when_entry) : when_entry * list event :=
  if condition actions s then
    if bool_decide (s_uid s ∈ matchedset actions) then (actions, [])
    else (set_matchedset (matchedset actions ∪ {[s_uid s]}) actions,
          [Call owner key OnTrue (ontrue actions) [ArgModel self; payload]])
  else
    if bool_decide (s_uid s ∈ matchedset actions)
    then (set_matchedset (matchedset actions ∖ {[s_uid s]}) actions,
          [Call owner key OnFalseAfterTrue (onfalseaftertrue actions)
             [ArgModel self; payload]])
    else (actions, []).

(** [for condition, actions in owner.whenmap.items(): _processor(...)] *)
Fixpoint process_items (self : addr) (s : snapshot) (payload : arg)
    (owner : addr) (wm : list (nat * when_entry))
  : list (nat * when_entry) * list event :=
  match wm with
  | [] => ([], [])
  | (key, actions) :: wm' =>
      let '(actions', ev) := _processor self s payload owner key actions in
      let '(wm'', evs) := process_items self s payload owner wm' in
      ((key, actions') :: wm'', ev ++ evs)
  end.

(** [Model._process_whens]: the watchers of [self], then those of
    [Model.All]. *)
Definition _process_whens (self : addr) (payload : arg) (w : world)
  : world * list event :=
  match heap w !! self with
  | None => (w, [])
  | Some m =>
      if bool_decide (uid m = -500) then (w, [])
      else
        let s := snapshot_of m in
        let '(wm1, ev1) := process_items self s payload self (whenmap m) in
        let w1 := store self (set_whenmap wm1 m) w in
        match heap w1 !! All w with
        | None => (w1, ev1)
        | Some mall =>
            let '(wm2, ev2) :=
              process_items self s payload (All w) (whenmap mall) in
            (store (All w) (set_whenmap wm2 mall) w1, ev1 ++ ev2)
        end
  end.

(** [Model.when] *)
Definition when (self : addr) (key : nat) (cond : snapshot → bool)
    (ontrue onfalseaftertrue : callback) (w : world) : world * list event :=
  match heap w !! self with
  | None => (w, [])
  | Some m =>
      let actions := {| condition := cond; ontrue := ontrue;
                        onfalseaftertrue := onfalseaftertrue;
                        matchedset := ∅ |} in
      _process_whens self (ArgValue VNone)
        (store self (set_whenmap (dict_set key actions (whenmap m)) m) w)
  end.

(** ** [Model.merge_tags] *)

Definition merge_tags (self : addr) (new_tags : list string) (w : world)
  : world * list event :=
  match heap w !! self with
  | None => (w, [])
  | Some m =>
      let previous_tags := tags m in
      let m' := set_tags (tags m ∪ list_to_set new_tags) m in
      let args := [ArgModel self; ArgTagset previous_tags; ArgTagset (tags m')] in
      let '(w', evs) := _process_whens self (ArgTaglist new_tags) (store self m' w) in
      (w', Emit self "tags" args :: Emit (All w) "tags" args :: evs)
  end.

(** ** [Model.merge] and [Model.reset] *)

Section Merge.
Variable C : constants.

(** The second assertion of [merge]; that the payload is a [dict] is its
    type. *)
Definition level_ok (p : payload) : bool :=
  match assoc "lv"%string p with
  | None => true
  | Some v => py_eq v (VInt (FCLEVEL_MODEL C))
  end.

(** Lines 128-131: the property changes, on the model and on [Model.All]. *)
Definition emit_changes (self all : addr) (stack : list stackitem) : list event :=
  flat_map (λ '(prop, before, after),
    if py_ne before after then
      let args := [ArgModel self; ArgValue before; ArgValue after] in
      [Emit self prop args; Emit all prop args]
    else []) stack.

(** Lines 132-133 *)
Definition emit_any (self all : addr) (p : payload) : list event :=
  [Emit self "ANY" [ArgModel self; ArgPayload p];
   Emit all "ANY" [ArgModel self; ArgPayload p]].

(** The last line of [merge], on the model as the heap holds it then. *)
Definition purge_at (self : addr) (w : world) : world * option exn :=
  match heap w !! self with
  | None => (w, None)
  | Some m =>
      let '(ks, e) := _purgeoldsessions C (knownsessions m) in
      (store self (set_knownsessions ks m) w, e)
  end.

(** [merge] up to the call of [_process_whens]: the assertions, the update
    of the sessions, the test of visibility and the emissions.  The last
    component tells whether the merge is visible. *)
Definition merge_apply (self : addr) (p : payload) (w : world)
  : world * list event * option exn * bool :=
  match heap w !! self with
  | None => (w, [], Some Unmodelled, false)
  | Some m =>
      if bool_decide (uid m = -500) then (w, [], Some AssertionError, false)
      else if negb (level_ok p) then (w, [], Some AssertionError, false)
      else
        let '(u, e) := merge_update C (uid m) p (knownsessions m) in
        match e with
        | Some _ =>
            (store self (set_knownsessions (u_sessions u) m) w, [], e, false)
        | None =>
            let '(visible, ks1, e1) := merge_visible C (u_cur u) (u_sessions u) in
            match e1 with
            | Some _ => (store self (set_knownsessions ks1 m) w, [], e1, false)
            | None =>
                if visible then
                  let '(nm', ks2) := update_nm C (uid m) (nm m) ks1 in
                  (store self (set_nm nm' (set_knownsessions ks2 m)) w,
                   emit_changes self (All w) (u_stack u) ++ emit_any self (All w) p,
                   None, true)
                else (store self (set_knownsessions ks1 m) w, [], None, false)
            end
        end
  end.

(** [Model.merge]: on a visible merge the watchers are processed; the
    purge comes last in either case. *)
Definition merge (self : addr) (p : payload) (w : world)
  : world * list event * option exn :=
  let '(w1, evs, e, visible) := merge_apply self p w in
  match e with
  | Some _ => (w1, evs, e)
  | None =>
      let '(w2, calls) :=
        if visible then _process_whens self (ArgPayload p) w1 else (w1, []) in
      let '(w3, e3) := purge_at self w2 in
      (w3, evs ++ calls, e3)
  end.

(** Lines 146-148 of [reset], the keys taken in the order of
    [knownsessions]: every session but the best one goes offline. *)
Fixpoint reset_loop (keys : list Z) (ks : sessions) : sessions * option exn :=
  match keys with
  | [] => (ks, None)
  | key :: keys' =>
      let '(best, ks1) := bestsessionid C ks in
      if bool_decide (key ≠ best) then
        match row_at key ks1 !! "vs" with
        | None => (ks1, Some KeyError)
        | Some vs =>
            if py_ne vs (VInt (FCVIDEO_OFFLINE C))
            then reset_loop keys' (set_key key "vs" (VInt (FCVIDEO_OFFLINE C)) ks1)
            else reset_loop keys' ks1
        end
      else reset_loop keys' ks1
  end.

(** [reset] on a model other than [Model.All]. *)
Definition reset_model (self : addr) (w : world) : world * list event * option exn :=
  match heap w !! self with
  | None => (w, [], Some Unmodelled)
  | Some m =>
      let '(ks1, e) := reset_loop (knownsessions m).*1 (knownsessions m) in
      match e with
      | Some _ => (store self (set_knownsessions ks1 m) w, [], e)
      | None =>
          let '(best, ks2) := bestsessionid C ks1 in
          let blank : payload :=
            [("sid"%string, VInt best); ("uid"%string, VInt (uid m));
             ("vs"%string, VInt (FCVIDEO_OFFLINE C))] in
          merge self blank (store self (set_knownsessions ks2 m) w)
      end
  end.

(** The loop of [reset] on [Model.All]. *)
Fixpoint reset_all (models : list addr) (w : world) : world * list event * option exn :=
  match models with
  | [] => (w, [], None)
  | a :: models' =>
      match heap w !! a with
      | None => (w, [], Some Unmodelled)
      | Some m =>
          if bool_decide (uid m ≠ -500) then
            let '(w1, ev1, e) := reset_model a w in
            match e with
            | Some _ => (w1, ev1, e)
            | None =>
                let '(w2, ev2, e2) := reset_all models' w1 in
                (w2, ev1 ++ ev2, e2)
            end
          else reset_all models' w
      end
  end.

(** [Model.reset] *)
Definition reset (self : addr) (w : world) : world * list event * option exn :=
  match heap w !! self with
  | None => (w, [], Some Unmodelled)
  | Some m =>
      if bool_decide (uid m ≠ -500) then reset_model self w
      else reset_all (KNOWNMODELS w).*2 w
  end.
End Merge.

(** ** A sample of constants and of states, for evaluation *)

(** The values [mfcauto/constants.py] gives the names used here; every
    theorem below holds for any other assignment. *)
Definition mfc : constants :=
  {| STATE_Offline := 127; FCVIDEO_OFFLINE := 127;
     FCVIDEO_member := λ n,
       bool_decide (n ∈ [0; 1; 2; 11; 12; 13; 14; 15; 20; 21; 90; 91; 92; 93; 126; 127]);
     FCLEVEL_MODEL := 4;
     FCOPT_TRUEPVT := 8; FCOPT_GUESTMUTE := 4096; FCOPT_BASICMUTE := 8192;
     FCOPT_MODELSW := 2048;
     offline_agree := eq_refl; offline_member := eq_refl |}.

(** ** Vocabulary of the properties *)

(** A session counts as offline when its video state is missing or equal to
    [STATE.Offline]: this is what [bestsessionid] skips. *)
Definition is_offline (C : constants) (r : row) : bool :=
  match r !! "vs" with
  | None => true
  | Some v => py_eq v (VInt (STATE_Offline C))
  end.

(** The events of a pass of the watcher engine are calls. *)
Definition is_call (e : event) : bool :=
  match e with Call _ _ _ _ _ => true | Emit _ _ _ => false end.

(** The official-software flag as [bestsessionid] reads it. *)
Definition flagged (r : row) : bool :=
  truthy (default (VBool false) (r !! "model_sw")).

(** The row once [bestsessionid] has looked at it: a missing ["vs"] is set
    to [STATE.Offline], and on a session that is not offline a missing
    ["model_sw"] is set to [False]. *)
Definition completed (C : constants) (r : row) : row :=
  let r1 := (row_setdefault "vs" (VInt (STATE_Offline C)) r).1 in
  if is_offline C r then r1
  else (row_setdefault "model_sw" (VBool false) r1).1.

(** The ids of the sessions that are not offline, and of those among them
    that are flagged. *)
Definition live_ids (C : constants) (ks : sessions) : list Z :=
  (filter (λ kr, is_offline C kr.2 = false) ks).*1.

Definition flagged_ids (C : constants) (ks : sessions) : list Z :=
  (filter (λ kr, is_offline C kr.2 = false ∧ flagged kr.2 = true) ks).*1.

Definition is_max_of (x : Z) (l : list Z) : Prop :=
  x ∈ l ∧ ∀ y, y ∈ l → y ≤ x.

(** The pair [(sessionidtouse, foundmodelsoftware)] after one session, in
    terms of [is_offline] and [flagged]. *)
Definition next_acc (C : constants) (acc : Z * bool) (sessionid : Z) (r : row)
  : Z * bool :=
  if is_offline C r then acc
  else if flagged r then
    (if acc.2 then Z.max acc.1 sessionid else sessionid, true)
  else if acc.2 then acc else (Z.max acc.1 sessionid, false).

(** A model registered under uid 7, at address 1, next to [Model.All]. *)
Definition sample_world : world :=
  (get_model (UInt 7) true initial_world).1.

(** Session 1 goes offline. *)
Definition sample_offline : payload :=
  [("sid"%string, VInt 1); ("vs"%string, VInt 127)].

(** A session that is not offline, flagged official-software or not. *)
Definition online_row (C : constants) (official : bool) : row :=
  <["model_sw" := VBool official]> (<["vs" := VInt (STATE_Offline C + 1)]> ∅).

(** The only session has a negative id, is online and is not flagged. *)
Definition negative_session : sessions := [(-5, online_row mfc false)].

(** ** Sequences of calls and what the watchers see of them *)

Inductive op :=
| OpMerge (self : addr) (p : payload)
| OpMergeTags (self : addr) (new_tags : list string).

Definition step (C : constants) (o : op) (w : world)
  : world * list event * option exn :=
  match o with
  | OpMerge self p => merge C self p w
  | OpMergeTags self new_tags =>
      let '(w', evs) := merge_tags self new_tags w in (w', evs, None)
  end.

(** The calls in turn, until one raises. *)
Fixpoint run (C : constants) (ops : list op) (w : world)
  : world * list event * option exn :=
  match ops with
  | [] => (w, [], None)
  | o :: ops' =>
      let '(w1, evs1, e) := step C o w in
      match e with
      | Some _ => (w1, evs1, e)
      | None =>
          let '(w2, evs2, e2) := run C ops' w1 in
          (w2, evs1 ++ evs2, e2)
      end
  end.

(** The model and the state in which a call processes the watchers, when it
    does: a merge does on being visible, a tag merge always does, and
    nothing is processed for [Model.All]. *)
Definition evaluation (C : constants) (o : op) (w : world)
  : option (addr * snapshot) :=
  match o with
  | OpMerge self p =>
      let '(w1, _, e, visible) := merge_apply C self p w in
      match e with
      | Some _ => None
      | None =>
          if visible then (λ m, (self, snapshot_of m)) <$> heap w1 !! self
          else None
      end
  | OpMergeTags self new_tags =>
      match heap w !! self with
      | Some m =>
          if bool_decide (uid m = -500) then None
          else Some (self, snapshot_of (set_tags (tags m ∪ list_to_set new_tags) m))
      | None => None
      end
  end.

Fixpoint evaluations (C : constants) (ops : list op) (w : world)
  : list (addr * snapshot) :=
  match ops with
  | [] => []
  | o :: ops' =>
      option_list (evaluation C o w)
      ++ (let '(w1, _, e) := step C o w in
          match e with
          | Some _ => []
          | None => evaluations C ops' w1
          end)
  end.

(** The evaluation that [when] itself makes on registering a watcher. *)
Definition registration (self : addr) (w : world) : list (addr * snapshot) :=
  match heap w !! self with
  | Some m => if bool_decide (uid m = -500) then [] else [(self, snapshot_of m)]
  | None => []
  end.

(** An evaluation concerns the watcher of [owner] for the models of uid [u]
    when it is made for such a model and [owner] is that model or
    [Model.All]. *)
Definition concerns (w : world) (owner : addr) (u : Z) (x : addr * snapshot) : bool :=
  bool_decide (s_uid x.2 = u ∧ (owner = All w ∨ owner = x.1)).

(** The callbacks due when the condition goes from [prev] to [now]. *)
Definition edge1 (prev now : bool) : list edge :=
  if now && negb prev then [OnTrue]
  else if negb now && prev then [OnFalseAfterTrue]
  else [].

(** The callbacks due along the successive values of a condition. *)
Fixpoint edges (prev : bool) (bs : list bool) : list edge :=
  match bs with
  | [] => []
  | b :: bs' => edge1 prev b ++ edges b bs'
  end.

(** The call, if [e] is one, of a callable of the watcher stored under [key]
    in [owner.whenmap], about a model whose uid is [u]. *)
Definition call_edge (w : world) (owner : addr) (key : nat) (u : Z) (e : event)
  : option edge :=
  match e with
  | Call o k which _ (ArgModel self :: _) =>
      if bool_decide (o = owner ∧ k = key ∧ uid <$> heap w !! self = Some u)
      then Some which else None
  | _ => None
  end.

(** The watcher stored under [key] in the [whenmap] of [owner], a dictionary
    (no key occurs twice). *)
Definition watching (w : world) (owner : addr) (key : nat) (a : when_entry) : Prop :=
  ∃ mo, heap w !! owner = Some mo ∧ NoDup (whenmap mo).*1
        ∧ assoc key (whenmap mo) = Some a.

(** [Model.All] is the model of uid -500. *)
Definition All_ok (w : world) : Prop :=
  ∃ mall, heap w !! All w = Some mall ∧ uid mall = -500.

(** The same objects with the same uids; and with the same watchers too. *)
Definition same_uids (w w' : world) : Prop :=
  ∀ a, uid <$> heap w' !! a = uid <$> heap w !! a.

Definition same_watchers (w w' : world) : Prop :=
  All w' = All w
  ∧ ∀ a, (λ m, (uid m, whenmap m)) <$> heap w' !! a
         = (λ m, (uid m, whenmap m)) <$> heap w !! a.

(** The value a condition has after the successive values [bs], having had
    [prev] before. *)
Definition final_value (prev : bool) (bs : list bool) : bool :=
  default prev (last bs).

(** The values a condition takes at the evaluations that concern the
    watcher of [owner] for uid [u]. *)
Definition sampled (w : world) (owner : addr) (u : Z) (cond : snapshot → bool)
    (evals : list (addr * snapshot)) : list bool :=
  cond <$> (snd <$> List.filter (concerns w owner u) evals).

(** Session 1 comes online. *)
Definition sample_online : payload :=
  [("sid"%string, VInt 1); ("vs"%string, VInt 90)].

(** A condition: session 1 is known and not offline. *)
Definition session1_live (s : snapshot) : bool :=
  match assoc 1 (s_knownsessions s) with
  | Some r => negb (is_offline mfc r)
  | None => false
  end.

(** The facts about a world that a watcher relies on, relative to the world
    [w0] in which uids are looked up. *)
Definition watched (w0 w : world) (owner : addr) (key : nat) (a : when_entry) : Prop :=
  All_ok w ∧ same_uids w0 w ∧ All w = All w0 ∧ watching w owner key a.

(** Session 1 comes online, then goes offline. *)
Definition sample_ops : list op :=
  [OpMerge 1%nat sample_online; OpMerge 1%nat sample_offline].

(** The sample model gets a watcher of [session1_live]. *)
Definition sample_registered : world * list event :=
  when 1%nat 0%nat session1_live 0%nat 1%nat sample_world.

(** The sample model once session 1 is online. *)
Definition sample_online_world : world :=
  (merge mfc 1%nat sample_online sample_world).1.1.

(** ** What a payload writes and records *)

(** The four flags derived from ["flags"], as [(key, value)] in the order
    they are written. *)
Definition derived (C : constants) (flags : Z) : list (string * value) :=
  [("truepvt"%string, flag flags (FCOPT_TRUEPVT C));
   ("guests_muted"%string, flag flags (FCOPT_GUESTMUTE C));
   ("basics_muted"%string, flag flags (FCOPT_BASICMUTE C));
   ("model_sw"%string, flag flags (FCOPT_MODELSW C))].

(** The writes to the current session, in order: the leaves of the payload
    and, after the ["flags"] of group ["m"], the derived flags. *)
Definition group_writes (C : constants) (key : string) (kvs : list (string * atom))
  : list (string * value) :=
  flat_map (λ '(key2, a),
    (key2, VAtom a)
    :: (if bool_decide (key = "m"%string) && bool_decide (key2 = "flags"%string)
        then from_option (derived C) [] (as_int a) else [])) kvs.

Definition writes (C : constants) (p : payload) : list (string * value) :=
  flat_map (λ '(key, v),
    if is_group_key key then
      match v with VDict kvs => group_writes C key kvs | _ => [] end
    else [(key, v)]) p.

(** The property names that the loop over the payload records in
    [callbackstack]: the names of the leaves. *)
Definition leaf_names (p : payload) : list string :=
  flat_map (λ '(key, v),
    if is_group_key key then
      match v with VDict kvs => kvs.*1 | _ => [] end
    else [key]) p.

(** The catch-all: [emit("ANY", model, payload)]. *)
Definition is_any (ev : event) : bool :=
  match ev with
  | Emit _ name [ArgModel _; ArgPayload _] => bool_decide (name = "ANY"%string)
  | _ => false
  end.

(** The names of the property changes that [evs] emits on [em]:
    [em.emit(name, model, before, after)]. *)
Definition emitted_names (em : addr) (evs : list event) : list string :=
  omap (λ ev,
    match ev with
    | Emit e name [ArgModel _; ArgValue _; ArgValue _] =>
        if bool_decide (e = em) then Some name else None
    | _ => None
    end) evs.

(** An entry of [callbackstack] that gives rise to no event. *)
Definition quiet (item : stackitem) : Prop := py_ne item.1.2 item.2 = false.

(** The name of a leaf occurs twice: at top level and in group ["u"]. *)
Definition sample_twice : payload :=
  [("sid"%string, VInt 1); ("vs"%string, VInt 90); ("nm"%string, VStr "A");
   ("u"%string, VDict [("nm"%string, AStr "B")])].

(** A row after a sequence of writes. *)
Definition write_all (ws : list (string * value)) (r : row) : row :=
  foldl (λ r kv, <[kv.1 := kv.2]> r) r ws.

(** Session 1 comes online under the name Alice. *)
Definition sample_alice : payload :=
  [("sid"%string, VInt 1); ("vs"%string, VInt 90); ("nm"%string, VStr "Alice")].

(** ** Vocabulary of the further properties *)

(** What [bestsessionid] returns, in terms of the ids of the sessions that
    are not offline and of the flagged ones among them: the highest flagged
    id when there is one; otherwise the highest id that is not offline, or 0
    when that is higher. *)
Definition best_of (C : constants) (ks : sessions) (x : Z) : Prop :=
  (flagged_ids C ks ≠ [] ∧ is_max_of x (flagged_ids C ks))
  ∨ (flagged_ids C ks = [] ∧ 0 ≤ x
     ∧ (∀ k, k ∈ live_ids C ks → k ≤ x)
     ∧ (x = 0 ∨ x ∈ live_ids C ks)).

(** Two sessions whose video states [_purgeoldsessions] accepts: one
    online, one offline. *)
Definition sample_sessions : sessions :=
  [(3, <["vs" := VInt 90]> (_default_session mfc 7));
   (4, _default_session mfc 7)].

(** What a call on the model at [self] leaves alone: the registry, every
    other object but for the watchers of [Model.All], the data of
    [Model.All], and of the model itself what [kept] shows. *)
Definition changes_only {T} (self : addr) (kept : snapshot → T) (w w' : world)
  : Prop :=
  KNOWNMODELS w' = KNOWNMODELS w ∧ All w' = All w
  ∧ (∀ a : addr, a ≠ self → a ≠ All w → heap w' !! a = heap w !! a)
  ∧ (∀ a : addr, a ≠ self →
       snapshot_of <$> heap w' !! a = snapshot_of <$> heap w !! a)
  ∧ (λ m, kept (snapshot_of m)) <$> heap w' !! self
    = (λ m, kept (snapshot_of m)) <$> heap w !! self.

(** [KNOWNMODELS] is a dictionary, each of its keys names an allocated
    model with that uid, and [Model.All] is the one registered under -500. *)
Definition registry_ok (w : world) : Prop :=
  NoDup (KNOWNMODELS w).*1
  ∧ (∀ n (a : addr), assoc n (KNOWNMODELS w) = Some a →
       uid <$> heap w !! a = Some n)
  ∧ assoc (-500) (KNOWNMODELS w) = Some (All w).

(** The calls of the public interface, and the state each one leaves,
    whether it returns or raises. *)
Inductive call :=
| CallGetModel (u : uid_arg) (create : bool)
| CallMerge (self : addr) (p : payload)
| CallMergeTags (self : addr) (new_tags : list string)
| CallWhen (self : addr) (key : nat) (cond : snapshot → bool) (f g : callback)
| CallReset (self : addr).

Definition after (C : constants) (c : call) (w : world) : world :=
  match c with
  | CallGetModel u create => (get_model u create w).1
  | CallMerge self p => (merge C self p w).1.1
  | CallMergeTags self new_tags => (merge_tags self new_tags w).1
  | CallWhen self key cond f g => (when self key cond f g w).1
  | CallReset self => (reset C self w).1.1
  end.

(** The state after a sequence of calls made once the module is loaded. *)
Definition after_all (C : constants) (cs : list call) : world :=
  foldl (λ w c, after C c w) initial_world cs.

(** ** [Model.in_true_private] *)

(** [STATE.Private] is read by this property only and is a parameter of
    its own.  [and] evaluates [self.bestsession] once for each operand it
    reaches and gives the value of the last operand evaluated. *)
Definition in_true_private (C : constants) (STATE_Private : Z) (uid : Z)
    (ks : sessions) : sessions * outcome value :=
  let '(b1, ks1) := bestsession C uid ks in
  match row_at b1 ks1 !! "vs" with
  | None => (ks1, Raise KeyError)
  | Some vs =>
      if py_eq vs (VInt STATE_Private) then
        let '(b2, ks2) := bestsession C uid ks1 in
        match row_at b2 ks2 !! "truepvt" with
        | None => (ks2, Ok (VBool false))
        | Some _ =>
            let '(b3, ks3) := bestsession C uid ks2 in
            match row_at b3 ks3 !! "truepvt" with
            | None => (ks3, Raise KeyError)
            | Some v => (ks3, Ok v)
            end
        end
      else (ks1, Ok (VBool false))
  end.

(** The best session as [bestsession] returns it. *)
Definition best_row (C : constants) (uid : Z) (ks : sessions) : row :=
  row_at (bestsession C uid ks).1 (bestsession C uid ks).2.

(** A model in a private show, its flags merged. *)
Definition sample_private (flags : Z) : sessions :=
  store_flags mfc 3 flags
    [(3, <["vs" := VInt 12]> (_default_session mfc 7))].

(** ** Vocabulary of [reset] *)

(** The payload [reset] merges. *)
Definition blank (C : constants) (best uid : Z) : payload :=
  [("sid"%string, VInt best); ("uid"%string, VInt uid);
   ("vs"%string, VInt (FCVIDEO_OFFLINE C))].

(** No session counts: each one is offline. *)
Definition all_offline (C : constants) (ks : sessions) : Prop :=
  ∀ k r, assoc k ks = Some r → is_offline C r = true.

(** Two models with a session each, registered next to [Model.All]. *)
Definition sample_two : world :=
  let w1 := (get_model (UInt 8) true sample_world).1 in
  let w2 := (merge mfc 1%nat sample_alice w1).1.1 in
  (merge mfc 2%nat sample_alice w2).1.1.

(** The first of the two models of [sample_two], as the heap holds it. *)
Definition sample_model : Model :=
  default (Model_init 7) (heap sample_two !! 1%nat).

(** ** Which callable a watcher call is of *)

(** The callable a watcher holds for an edge. *)
Definition callable_of (f g : callback) (which : edge) : callback :=
  match which with OnTrue => f | OnFalseAfterTrue => g end.

(** The call, if [e] is one, of a callable of the watcher stored under [key]
    in [owner.whenmap], about a model whose uid is [u]: the edge it is made
    for and the callable that is called. *)
Definition call_made (w : world) (owner : addr) (key : nat) (u : Z) (e : event)
  : option (edge * callback) :=
  match e with
  | Call o k which f (ArgModel self :: _) =>
      if bool_decide (o = owner ∧ k = key ∧ uid <$> heap w !! self = Some u)
      then Some (which, f) else None
  | _ => None
  end.

(** The callables of the entries of a [whenmap], by key. *)
Definition callables (wm : list (nat * when_entry))
  : list (nat * (callback * callback)) :=
  (λ ka, (ka.1, (ontrue ka.2, onfalseaftertrue ka.2))) <$> wm.

(** Every object holds the callables it held. *)
Definition same_callables (w w' : world) : Prop :=
  ∀ x : addr, (λ m, callables (whenmap m)) <$> heap w' !! x
              = (λ m, callables (whenmap m)) <$> heap w !! x.

(** A call is of a callable that the watcher it names holds in [w], and of
    the one held for the edge it names. *)
Definition as_registered (w : world) (e : event) : Prop :=
  match e with
  | Call o k which f _ =>
      ∃ mo fg, heap w !! o = Some mo ∧ (k, fg) ∈ callables (whenmap mo)
               ∧ f = callable_of fg.1 fg.2 which
  | Emit _ _ _ => True
  end.

(** A payload whose group ["u"] is not a mapping. *)
Definition sample_bad_group : payload :=
  [("sid"%string, VInt 1); ("u"%string, VInt 3)].

(** * Properties *)

(** ** [int(str(n))] *)

Module PyIntFacts.
Import Ascii PyInt.
Local Open Scope char_scope.

Lemma digit_not_space c : is_digit c = true → is_space c = false.
Proof.
  unfold is_digit, is_space. generalize (nat_of_ascii c). intros n Hn.
  apply andb_true_iff in Hn as [H1 H2].
  apply Nat.leb_le in H1, H2.
  apply orb_false_iff. split.
  - apply andb_false_iff. right. apply Nat.leb_gt. lia.
  - apply Nat.eqb_neq. lia.
Qed.

Lemma lstrip_id s : Forall (λ c, is_space c = false) s → lstrip s = s.
Proof. destruct 1 as [|c s Hc _]; simpl; [done|]. by rewrite Hc. Qed.

Lemma strip_id s : Forall (λ c, is_space c = false) s → strip s = s.
Proof.
  intros Hs. unfold strip. rewrite (lstrip_id s Hs).
  rewrite lstrip_id.
  - apply reverse_involutive.
  - by apply Forall_reverse.
Qed.

Lemma digits_id b s :
  Forall (λ c, is_digit c = true) s → (b = true ∨ s ≠ []) → digits b s = Some s.
Proof.
  intros Hs. revert b. induction Hs as [|c s Hc Hs IH]; intros b Hb; simpl.
  - destruct Hb as [->|Hb]; [done|congruence].
  - rewrite Hc. rewrite (IH true); [done|by left].
Qed.

Lemma uint_chars_digits d :
  Forall (λ c, is_digit c = true) (list_ascii_of_string (NilEmpty.string_of_uint d)).
Proof. induction d; simpl; constructor; done. Qed.

Lemma uint_chars_nonnil d :
  d ≠ Decimal.Nil → list_ascii_of_string (NilEmpty.string_of_uint d) ≠ [].
Proof. destruct d; simpl; congruence. Qed.

Lemma unsigned_uint d :
  d ≠ Decimal.Nil →
  unsigned (list_ascii_of_string (NilEmpty.string_of_uint d)) = Some (Z.of_uint d).
Proof.
  intros Hd. unfold unsigned.
  rewrite digits_id; [|apply uint_chars_digits|right; by apply uint_chars_nonnil].
  simpl. rewrite string_of_list_ascii_of_string, NilEmpty.usu. done.
Qed.

Lemma int_uint d :
  d ≠ Decimal.Nil →
  int (NilEmpty.string_of_uint d) = Some (Z.of_uint d).
Proof.
  intros Hd. unfold int. rewrite strip_id.
  - pose proof (unsigned_uint d Hd) as Hu.
    pose proof (uint_chars_digits d) as Hall.
    destruct (list_ascii_of_string (NilEmpty.string_of_uint d)) as [|c s] eqn:E.
    + done.
    + apply Forall_cons in Hall as [Hc _].
      destruct (decide (c = "-")) as [->|]; [done|].
      destruct (decide (c = "+")) as [->|]; [done|].
      destruct c as [[] [] [] [] [] [] [] []]; try done.
  - eapply Forall_impl; [apply uint_chars_digits|]. apply digit_not_space.
Qed.

Lemma int_neg_uint d :
  d ≠ Decimal.Nil →
  int (String "-" (NilEmpty.string_of_uint d)) = Some (- Z.of_uint d).
Proof.
  intros Hd. unfold int. rewrite strip_id.
  - simpl. by rewrite unsigned_uint.
  - simpl. constructor; [done|].
    eapply Forall_impl; [apply uint_chars_digits|]. apply digit_not_space.
Qed.

(** [int] reads back what [str] prints. *)
Lemma int_str n : int (str n) = Some n.
Proof.
  unfold str. destruct n as [|p|p]; simpl.
  - reflexivity.
  - pose proof (Unsigned.to_uint_nonnil p) as Hp.
    unfold NilZero.string_of_uint.
    destruct (Pos.to_uint p) eqn:E; try done;
      rewrite <- E; rewrite int_uint by (rewrite E; done);
      f_equal; apply (DecimalZ.of_to (Z.pos p)).
  - pose proof (Unsigned.to_uint_nonnil p) as Hp.
    unfold NilZero.string_of_uint.
    destruct (Pos.to_uint p) eqn:E; try done;
      rewrite <- E; rewrite int_neg_uint by (rewrite E; done);
      f_equal; apply (DecimalZ.of_to (Z.neg p)).
Qed.
End PyIntFacts.

(** ** The registry *)

Section Registry.
Implicit Types (w : world) (n : Z).

Lemma assoc_app_None {K V} `{EqDecision K} (k : K) (d : list (K * V)) (v : V) :
  assoc k d = None → assoc k (d ++ [(k, v)]) = Some v.
Proof.
  induction d as [|[k' v'] d IH]; simpl; intros Hk.
  - by rewrite decide_True.
  - destruct (decide (k' = k)); [done|]. by apply IH.
Qed.

Lemma get_model_create_new n w :
  assoc n (KNOWNMODELS w) = None →
  get_model (UInt n) true w =
    ({| heap := heap w ++ [Model_init n];
        KNOWNMODELS := KNOWNMODELS w ++ [(n, length (heap w))];
        All := All w |}, Ok (Some (length (heap w)))).
Proof. intros Hn. unfold get_model. by rewrite Hn. Qed.

Lemma get_model_create_known n w a :
  assoc n (KNOWNMODELS w) = Some a →
  get_model (UInt n) true w =
    (set_heap (heap w ++ [Model_init n]) w, Ok (Some a)).
Proof. intros Hn. unfold get_model. by rewrite Hn. Qed.

(** After [get_model(n)] the id is registered, under the address
    returned. *)
Lemma get_model_registers n w :
  ∃ a w1, get_model (UInt n) true w = (w1, Ok (Some a))
          ∧ assoc n (KNOWNMODELS w1) = Some a
          ∧ heap w `prefix_of` heap w1.
Proof.
  destruct (assoc n (KNOWNMODELS w)) as [a|] eqn:Hn.
  - exists a, (set_heap (heap w ++ [Model_init n]) w).
    rewrite (get_model_create_known _ _ _ Hn). split_and!; [done|done|].
    by apply prefix_app_r.
  - eexists _, _. rewrite (get_model_create_new _ _ Hn). split_and!; [done| |].
    + simpl. by apply assoc_app_None.
    + simpl. by apply prefix_app_r.
Qed.
End Registry.

(** C9. [get_model(n)] called twice returns the same instance both times;
    the second call leaves [KNOWNMODELS] and every object already allocated
    as they were; and [get_model(n, create=False)] then returns that same
    instance and changes nothing at all. *)
Theorem C9_get_model_identity (n : Z) (w : world) :
  ∃ (a : addr) (w1 w2 : world),
    get_model (UInt n) true w = (w1, Ok (Some a))
    ∧ get_model (UInt n) true w1 = (w2, Ok (Some a))
    ∧ KNOWNMODELS w2 = KNOWNMODELS w1
    ∧ All w2 = All w1
    ∧ heap w1 `prefix_of` heap w2
    ∧ get_model (UInt n) false w2 = (w2, Ok (Some a)).
Proof.
  destruct (get_model_registers n w) as (a & w1 & H1 & Ha & _).
  exists a, w1, (set_heap (heap w1 ++ [Model_init n]) w1).
  split_and!; try done.
  - by apply get_model_create_known.
  - simpl. by apply prefix_app_r.
  - unfold get_model. simpl. by rewrite Ha.
Qed.

(** C10. A decimal string is converted before the lookup: for every integer
    [n], [get_model(str(n))] is [get_model(n)], so that calling one after
    the other returns the very same instance, registered under the integer
    [n]; the keys of the registry are integers by construction, and the call
    adds no key but [n]. *)
Theorem C10_get_model_str (n : Z) (w : world) :
  (∀ create, get_model (UStr (PyInt.str n)) create w = get_model (UInt n) create w)
  ∧ ∃ (a : addr) (w1 w2 : world),
      get_model (UStr (PyInt.str n)) true w = (w1, Ok (Some a))
      ∧ get_model (UInt n) true w1 = (w2, Ok (Some a))
      ∧ assoc n (KNOWNMODELS w1) = Some a
      ∧ KNOWNMODELS w2 = KNOWNMODELS w1
      ∧ (∀ k, k ∈ (KNOWNMODELS w1).*1 → k ∈ (KNOWNMODELS w).*1 ∨ k = n).
Proof.
  assert (Hstr : ∀ create w',
    get_model (UStr (PyInt.str n)) create w' = get_model (UInt n) create w').
  { intros create w'. unfold get_model. by rewrite PyIntFacts.int_str. }
  split; [by intros; apply Hstr|].
  destruct (get_model_registers n w) as (a & w1 & H1 & Ha & _).
  exists a, w1, (set_heap (heap w1 ++ [Model_init n]) w1).
  split_and!; try done.
  - by rewrite Hstr.
  - by apply get_model_create_known.
  - intros k Hk. revert H1. unfold get_model.
    destruct (assoc n (KNOWNMODELS w)) eqn:E; intros [= <- <-]; simpl in *.
    + by left.
    + rewrite fmap_app in Hk. apply elem_of_app in Hk as [Hk|Hk]; [by left|].
      right. simpl in Hk. by apply list_elem_of_singleton in Hk.
Qed.

(** ** The heap *)

Lemma store_lookup_eq (a : addr) (m : Model) (w : world) :
  is_Some (heap w !! a) → heap (store a m w) !! a = Some m.
Proof.
  intros Ha. unfold store. simpl. apply list_lookup_insert_eq.
  by apply lookup_lt_is_Some.
Qed.

Lemma store_lookup_ne (a b : addr) (m : Model) (w : world) :
  a ≠ b → heap (store a m w) !! b = heap w !! b.
Proof. intros Hab. unfold store. simpl. by apply list_lookup_insert_ne. Qed.

(** Writing back an object that differs from the stored one by its watchers
    only keeps every snapshot. *)
Lemma store_snapshot (b : addr) (m m0 : Model) (w : world) :
  heap w !! b = Some m0 → snapshot_of m = snapshot_of m0 →
  ∀ a, snapshot_of <$> heap (store b m w) !! a = snapshot_of <$> heap w !! a.
Proof.
  intros Hb Hs a. destruct (decide (b = a)) as [Heq|Hne].
  - subst a. rewrite store_lookup_eq; [|by rewrite Hb]. rewrite Hb. simpl.
    by rewrite Hs.
  - by rewrite store_lookup_ne.
Qed.

(** ** The watcher engine leaves the data of every model alone *)

Lemma process_whens_frame (self : addr) (payload : arg) (w w' : world) evs :
  _process_whens self payload w = (w', evs) →
  KNOWNMODELS w' = KNOWNMODELS w ∧ All w' = All w
  ∧ ∀ a, snapshot_of <$> heap w' !! a = snapshot_of <$> heap w !! a.
Proof.
  unfold _process_whens. destruct (heap w !! self) as [m|] eqn:Hm.
  2: { by intros [= <- <-]. }
  case_bool_decide; [by intros [= <- <-]|].
  destruct (process_items self (snapshot_of m) payload self (whenmap m))
    as [wm1 ev1].
  pose proof (store_snapshot self (set_whenmap wm1 m) m w Hm eq_refl) as H1.
  destruct (heap (store self (set_whenmap wm1 m) w) !! All w) as [mall|] eqn:Hall.
  2: { by intros [= <- <-]. }
  destruct (process_items self (snapshot_of m) payload (All w) (whenmap mall))
    as [wm2 ev2].
  intros [= <- <-]. split_and!; [done|done|]. intros a.
  rewrite (store_snapshot (All w) (set_whenmap wm2 mall) mall _ Hall eq_refl).
  apply H1.
Qed.

Lemma process_whens_lookup (self : addr) (payload : arg) (w w' : world) evs a m :
  _process_whens self payload w = (w', evs) →
  heap w !! a = Some m →
  ∃ m', heap w' !! a = Some m' ∧ snapshot_of m' = snapshot_of m.
Proof.
  intros Hp Ha. destruct (process_whens_frame _ _ _ _ _ Hp) as (_ & _ & Hs).
  specialize (Hs a). rewrite Ha in Hs. simpl in Hs.
  destruct (heap w' !! a) as [m'|]; [|done]. exists m'. split; [done|].
  simpl in Hs. congruence.
Qed.

Lemma process_items_calls self s payload owner wm :
  Forall (λ e, is_call e = true) (process_items self s payload owner wm).2.
Proof.
  induction wm as [|[key actions] wm IH]; simpl; [constructor|].
  destruct (_processor self s payload owner key actions) as [actions' ev] eqn:E.
  destruct (process_items self s payload owner wm) as [wm' evs]. simpl in *.
  apply Forall_app. split; [|done].
  revert E. unfold _processor.
  repeat case_match; intros [= <- <-]; repeat constructor.
Qed.

Lemma process_whens_calls self payload w :
  Forall (λ e, is_call e = true) (_process_whens self payload w).2.
Proof.
  unfold _process_whens. destruct (heap w !! self) as [m|]; [|constructor].
  case_bool_decide; [constructor|].
  pose proof (process_items_calls self (snapshot_of m) payload self (whenmap m)) as H1.
  destruct (process_items self (snapshot_of m) payload self (whenmap m)) as [wm1 ev1].
  destruct (heap (store self (set_whenmap wm1 m) w) !! All w) as [mall|]; [|done].
  pose proof (process_items_calls self (snapshot_of m) payload (All w) (whenmap mall)) as H2.
  destruct (process_items self (snapshot_of m) payload (All w) (whenmap mall)) as [wm2 ev2].
  simpl in *. apply Forall_app. done.
Qed.

(** ** Tags *)

(** C5. [merge_tags(new_tags)] sets the tag set to its union with
    [new_tags], so that no tag is lost, and emits ["tags"] exactly once on
    the model and once on [Model.All], with the model, the previous tag set
    and the current one; every other event of the call is a watcher call.
    This holds for every list, the empty one included, for which the tag
    set stays as it was. *)
Theorem C5_merge_tags (self : addr) (new_tags : list string) (w : world) (m : Model) :
  heap w !! self = Some m →
  ∃ (w' : world) (m' : Model) (calls : list event),
    let args := [ArgModel self; ArgTagset (tags m);
                 ArgTagset (tags m ∪ list_to_set new_tags)] in
    merge_tags self new_tags w
      = (w', Emit self "tags" args :: Emit (All w) "tags" args :: calls)
    ∧ Forall (λ e, is_call e = true) calls
    ∧ heap w' !! self = Some m'
    ∧ tags m' = tags m ∪ list_to_set new_tags
    ∧ tags m ⊆ tags m'
    ∧ (new_tags = [] → tags m' = tags m).
Proof.
  intros Hm. unfold merge_tags. rewrite Hm.
  set (m1 := set_tags (tags m ∪ list_to_set new_tags) m).
  pose proof (process_whens_calls self (ArgTaglist new_tags) (store self m1 w)) as Hc.
  destruct (_process_whens self (ArgTaglist new_tags) (store self m1 w))
    as [w' evs] eqn:Hp.
  assert (Hs : heap (store self m1 w) !! self = Some m1).
  { apply store_lookup_eq. by rewrite Hm. }
  destruct (process_whens_lookup _ _ _ _ _ _ _ Hp Hs) as (m' & Hm' & Hsnap).
  assert (Ht : tags m' = tags m ∪ list_to_set new_tags).
  { change (s_tags (snapshot_of m') = tags m1). by rewrite Hsnap. }
  exists w', m', evs. simpl. split_and!; try done.
  - rewrite Ht. apply union_subseteq_l.
  - intros ->. rewrite Ht. simpl. apply (right_id_L ∅ (∪)).
Qed.

Lemma C5_merge_tags_witness :
  ∃ w' m' calls,
    merge_tags 0%nat [] initial_world
      = (w', Emit 0%nat "tags" [ArgModel 0%nat; ArgTagset ∅; ArgTagset (∅ ∪ list_to_set [])]
             :: Emit 0%nat "tags" [ArgModel 0%nat; ArgTagset ∅; ArgTagset (∅ ∪ list_to_set [])]
             :: calls)
    ∧ Forall (λ e, is_call e = true) calls
    ∧ heap w' !! 0%nat = Some m'
    ∧ tags m' = ∅ ∪ list_to_set []
    ∧ (∅ : gset string) ⊆ tags m'
    ∧ (@nil string = [] → tags m' = ∅).
Proof.
  exact (C5_merge_tags 0%nat [] initial_world (Model_init (-500)) eq_refl).
Defined.

(** ** Rejected merges *)

(** C6. A merge into the model whose [uid] is -500, which is how [merge]
    recognises [Model.All], and a merge of a payload whose ["lv"] differs
    from [FCLEVEL.MODEL], fail on an assertion: nothing is emitted and the
    world (sessions, tags, name and watchers of every model) is the one the
    call found. *)
Theorem C6_merge_rejects (C : constants) (self : addr) (p : payload)
    (w : world) (m : Model) :
  heap w !! self = Some m →
  uid m = -500
  ∨ (∃ v, assoc "lv"%string p = Some v ∧ py_ne v (VInt (FCLEVEL_MODEL C)) = true) →
  merge C self p w = (w, [], Some AssertionError).
Proof.
  intros Hm Hbad. unfold merge, merge_apply. rewrite Hm.
  case_bool_decide as Huid; [done|].
  destruct Hbad as [Hu|(v & Hv & Hne)]; [done|].
  unfold level_ok. rewrite Hv. unfold py_ne in Hne.
  apply negb_true_iff in Hne. by rewrite Hne.
Qed.

Lemma C6_merge_rejects_witness :
  merge mfc 0%nat [("lv"%string, VInt 2)] initial_world
    = (initial_world, [], Some AssertionError).
Proof.
  apply (C6_merge_rejects mfc 0%nat [("lv"%string, VInt 2)] initial_world
           (Model_init (-500)) eq_refl).
  left. reflexivity.
Defined.

(** ** The purge *)

Section Purge.
Variable C : constants.

Lemma assoc_dict_del {V} (k k' : Z) (ks : list (Z * V)) :
  assoc k (dict_del k' ks) = if decide (k' = k) then None else assoc k ks.
Proof.
  unfold dict_del. induction ks as [|[k0 v0] ks IH]; simpl.
  - by case_decide.
  - rewrite filter_cons. simpl. destruct (decide (k0 ≠ k')) as [Hne|Heq]; simpl.
    + destruct (decide (k0 = k)) as [->|Hk].
      * by rewrite decide_False by done.
      * apply IH.
    + apply dec_stable in Heq. subst k0. rewrite IH.
      destruct (decide (k' = k)); done.
Qed.

Lemma assoc_Some_key {K V} `{EqDecision K} (k : K) (d : list (K * V)) v :
  assoc k d = Some v → k ∈ d.*1.
Proof.
  induction d as [|[k0 v0] d IH]; simpl; [done|].
  destruct (decide (k0 = k)) as [->|]; intros Hk.
  - apply list_elem_of_here.
  - apply list_elem_of_further. by apply IH.
Qed.

(** A video state that [FCVIDEO] accepts and that is not [OFFLINE] is not
    [STATE.Offline] for [==] either. *)
Lemma live_of_FCVIDEO (r : row) v n :
  r !! "vs" = Some v → FCVIDEO C v = Ok n → n ≠ FCVIDEO_OFFLINE C →
  is_offline C r = false.
Proof.
  intros Hv HF Hn. unfold is_offline. rewrite Hv.
  unfold FCVIDEO in HF. destruct v as [a|d]; simpl in *; [|done].
  destruct (as_int a) as [n'|] eqn:Ha; [|done].
  destruct (FCVIDEO_member C n'); [|done]. injection HF as ->.
  rewrite (offline_agree C).
  destruct a; simpl in *; try done; apply bool_decide_eq_false; congruence.
Qed.

Lemma purge_loop_spec keys ks ks' :
  purge_loop C keys ks = (ks', None) →
  ∀ k r, assoc k ks' = Some r →
    assoc k ks = Some r ∧ (k ∈ keys → is_offline C r = false).
Proof.
  revert ks. induction keys as [|key keys IH]; simpl; intros ks Hp k r Hk.
  - injection Hp as <-. split; [done|]. by intros ?%elem_of_nil.
  - assert (Hdel : purge_loop C keys (dict_del key ks) = (ks', None) →
      assoc k ks = Some r ∧ (k ∈ key :: keys → is_offline C r = false)).
    { intros Hp'. destruct (IH _ Hp' k r Hk) as [Hd Hl].
      rewrite assoc_dict_del in Hd. destruct (decide (key = k)); [done|].
      split; [done|]. intros [?|?]%elem_of_cons; [congruence|auto]. }
    destruct (row_at key ks !! "vs") as [v|] eqn:Hv; [|by auto].
    destruct (FCVIDEO C v) as [n|e] eqn:HF; [|done].
    destruct (n =? FCVIDEO_OFFLINE C) eqn:Hn; [by auto|].
    destruct (IH _ Hp k r Hk) as [Hd Hl]. split; [done|].
    intros [->|?]%elem_of_cons; [|auto].
    apply Z.eqb_neq in Hn. unfold row_at in Hv. rewrite Hd in Hv. simpl in Hv.
    by eapply live_of_FCVIDEO.
Qed.

(** What survives [_purgeoldsessions] was there before and is not offline. *)
Lemma purgeoldsessions_spec ks ks' :
  _purgeoldsessions C ks = (ks', None) →
  ∀ k r, assoc k ks' = Some r → assoc k ks = Some r ∧ is_offline C r = false.
Proof.
  intros Hp k r Hk. destruct (purge_loop_spec _ _ _ Hp k r Hk) as [Hd Hl].
  split; [done|]. apply Hl. by eapply assoc_Some_key.
Qed.

Lemma purge_at_spec self w w' :
  purge_at C self w = (w', None) → is_Some (heap w !! self) →
  ∃ m', heap w' !! self = Some m'
        ∧ ∀ k r, assoc k (knownsessions m') = Some r → is_offline C r = false.
Proof.
  unfold purge_at. intros Hp [m Hm]. rewrite Hm in Hp.
  destruct (_purgeoldsessions C (knownsessions m)) as [ks e] eqn:E.
  injection Hp as <- ->. eexists. split.
  - apply store_lookup_eq. by rewrite Hm.
  - simpl. intros k r Hk. by destruct (purgeoldsessions_spec _ _ E k r Hk).
Qed.

(** The object at [self] is still there after [merge_apply]. *)
Lemma merge_apply_allocated self p w w1 evs visible :
  merge_apply C self p w = (w1, evs, None, visible) → is_Some (heap w1 !! self).
Proof.
  unfold merge_apply. destruct (heap w !! self) as [m|] eqn:Hm; [|done].
  assert (Hs : ∀ m', is_Some (heap (store self m' w) !! self)).
  { intros m'. rewrite store_lookup_eq; [done|by rewrite Hm]. }
  case_bool_decide; [done|]. destruct (negb (level_ok C p)); [done|].
  destruct (merge_update C (uid m) p (knownsessions m)) as [u [e|]]; [done|].
  destruct (merge_visible C (u_cur u) (u_sessions u)) as [[vis ks1] [e1|]];
    [done|].
  destruct vis.
  - destruct (update_nm C (uid m) (nm m) ks1) as [nm' ks2].
    intros [= <- _ _]. apply Hs.
  - intros [= <- _ _]. apply Hs.
Qed.

(** A merge that returns has ended with the purge. *)
Lemma merge_ends_with_purge self p w w' evs :
  merge C self p w = (w', evs, None) →
  ∃ w2, purge_at C self w2 = (w', None) ∧ is_Some (heap w2 !! self).
Proof.
  unfold merge.
  destruct (merge_apply C self p w) as [[[w1 evs1] [e|]] visible] eqn:Ha; [done|].
  pose proof (merge_apply_allocated _ _ _ _ _ _ Ha) as [m1 Hm1].
  destruct visible.
  - destruct (_process_whens self (ArgPayload p) w1) as [w2 calls] eqn:Hw.
    destruct (purge_at C self w2) as [w3 e3] eqn:Hp.
    intros [= <- <- ->]. exists w2. split; [done|].
    destruct (process_whens_lookup _ _ _ _ _ _ _ Hw Hm1) as (m' & -> & _). done.
  - destruct (purge_at C self w1) as [w3 e3] eqn:Hp.
    intros [= <- <- ->]. exists w1. split; [done|]. by rewrite Hm1.
Qed.

Lemma merge_purged self p w w' evs :
  merge C self p w = (w', evs, None) →
  ∃ m', heap w' !! self = Some m'
        ∧ ∀ k r, assoc k (knownsessions m') = Some r → is_offline C r = false.
Proof.
  intros (w2 & Hp & Hs)%merge_ends_with_purge. by eapply purge_at_spec.
Qed.
End Purge.

(** C8. Every merge that returns, visible or not, has purged the offline
    sessions: no session left under any id of [knownsessions] has a missing
    or offline video state.  The same holds after [reset], which ends with a
    merge. *)
Theorem C8_merge_purges_offline (C : constants) (self : addr) (w w' : world)
    (evs : list event) :
  ((∃ p, merge C self p w = (w', evs, None))
   ∨ (reset_model C self w = (w', evs, None)))
  →
  ∃ m', heap w' !! self = Some m'
        ∧ ∀ k r, assoc k (knownsessions m') = Some r → is_offline C r = false.
Proof.
  intros [[p Hm]|Hr].
  - by eapply merge_purged.
  - unfold reset_model in Hr. destruct (heap w !! self) as [m|] eqn:Hm; [|done].
    destruct (reset_loop C _ _) as [ks1 [e|]]; [done|].
    destruct (bestsessionid C ks1) as [best ks2].
    by eapply merge_purged.
Qed.

Lemma C8_merge_purges_offline_witness :
  ∃ m', heap (merge mfc 1%nat sample_offline sample_world).1.1 !! 1%nat = Some m'
        ∧ ∀ k r, assoc k (knownsessions m') = Some r → is_offline mfc r = false.
Proof.
  apply (C8_merge_purges_offline mfc 1%nat sample_world _
           (merge mfc 1%nat sample_offline sample_world).1.2).
  left. exists sample_offline. vm_compute. reflexivity.
Defined.

(** ** The best-session selector *)

Section Selector.
Variable C : constants.
Implicit Types (ks : sessions) (r : row) (acc : Z * bool).

Lemma is_offline_setdefault r :
  py_eq (row_setdefault "vs" (VInt (STATE_Offline C)) r).2 (VInt (STATE_Offline C))
  = is_offline C r.
Proof.
  unfold row_setdefault, is_offline. destruct (r !! "vs"); simpl; [done|].
  by apply bool_decide_eq_true.
Qed.

Lemma flagged_setdefault r :
  truthy (row_setdefault "model_sw" (VBool false)
            (row_setdefault "vs" (VInt (STATE_Offline C)) r).1).2
  = flagged r.
Proof.
  unfold row_setdefault, flagged. destruct (r !! "vs") eqn:Hv; simpl.
  - by destruct (r !! "model_sw").
  - rewrite lookup_insert_ne by done. by destruct (r !! "model_sw").
Qed.

Lemma best_step_spec acc sessionid r :
  best_step C acc sessionid r = (next_acc C acc sessionid r, completed C r).
Proof.
  unfold best_step, next_acc, completed. destruct acc as [id found].
  pose proof (is_offline_setdefault r) as Ho.
  pose proof (flagged_setdefault r) as Hf.
  destruct (row_setdefault "vs" (VInt (STATE_Offline C)) r) as [r1 vs].
  simpl in *. rewrite Ho. destruct (is_offline C r); [done|].
  destruct (row_setdefault "model_sw" (VBool false) r1) as [r2 sw].
  simpl in *. rewrite Hf. destruct (flagged r), found; simpl.
  - destruct (Z.gtb_spec sessionid id); f_equal; f_equal; lia.
  - done.
  - done.
  - destruct (Z.gtb_spec sessionid id); f_equal; f_equal; lia.
Qed.

Lemma best_loop_rows acc ks :
  (best_loop C acc ks).2 = (λ kr, (kr.1, completed C kr.2)) <$> ks.
Proof.
  revert acc. induction ks as [|[k r] ks IH]; intros acc; simpl; [done|].
  rewrite best_step_spec. specialize (IH (next_acc C acc k r)).
  destruct (best_loop C (next_acc C acc k r) ks). simpl in *. by rewrite IH.
Qed.

Lemma best_loop_cons acc k r ks :
  (best_loop C acc ((k, r) :: ks)).1 = (best_loop C (next_acc C acc k r) ks).1.
Proof.
  simpl. rewrite best_step_spec. by destruct (best_loop C (next_acc C acc k r) ks).
Qed.

Lemma live_ids_cons k r ks :
  live_ids C ((k, r) :: ks)
  = if is_offline C r then live_ids C ks else k :: live_ids C ks.
Proof.
  unfold live_ids. rewrite filter_cons. simpl.
  destruct (is_offline C r); by case_decide.
Qed.

Lemma flagged_ids_cons k r ks :
  flagged_ids C ((k, r) :: ks)
  = if negb (is_offline C r) && flagged r then k :: flagged_ids C ks
    else flagged_ids C ks.
Proof.
  unfold flagged_ids. rewrite filter_cons.
  destruct (decide _) as [[H1 H2]|Hn]; simpl in *.
  - by rewrite H1, H2.
  - destruct (is_offline C r), (flagged r); simpl; try done.
    exfalso. by apply Hn.
Qed.

(** Once a flagged session has been found, only flagged sessions count, and
    the highest id among them and the current one is kept. *)
Lemma best_loop_found id ks :
  ∃ id', (best_loop C (id, true) ks).1 = (id', true)
         ∧ id ≤ id'
         ∧ (∀ k, k ∈ flagged_ids C ks → k ≤ id')
         ∧ (id' = id ∨ id' ∈ flagged_ids C ks).
Proof.
  revert id. induction ks as [|[k r] ks IH]; intros id.
  - exists id. split_and!; [done|lia| |by left]. by intros k ?%elem_of_nil.
  - rewrite best_loop_cons, flagged_ids_cons. unfold next_acc. simpl.
    destruct (is_offline C r); simpl; [apply IH|].
    destruct (flagged r); simpl; [|apply IH].
    destruct (IH (Z.max id k)) as (id' & -> & Hle & Hub & Hin).
    exists id'. split_and!; [done|lia| |].
    + intros k' [->|?]%elem_of_cons; [lia|auto].
    + destruct Hin as [->|Hin].
      * destruct (Z.max_spec id k) as [[_ ->]|[_ ->]];
          [right; apply list_elem_of_here|by left].
      * right. by apply list_elem_of_further.
Qed.

(** Before any flagged session is found: either none follows, and the
    highest id among the current one and the sessions that are not offline
    is kept, or the highest flagged id is. *)
Lemma best_loop_not_found id ks :
  ∃ id' found, (best_loop C (id, false) ks).1 = (id', found)
    ∧ ((flagged_ids C ks = [] ∧ found = false ∧ id ≤ id'
        ∧ (∀ k, k ∈ live_ids C ks → k ≤ id')
        ∧ (id' = id ∨ id' ∈ live_ids C ks))
       ∨ (flagged_ids C ks ≠ [] ∧ found = true ∧ is_max_of id' (flagged_ids C ks))).
Proof.
  revert id. induction ks as [|[k r] ks IH]; intros id.
  - exists id, false. split; [done|]. left.
    split_and!; [done|done|lia| |by left]. by intros k ?%elem_of_nil.
  - rewrite best_loop_cons, flagged_ids_cons, live_ids_cons. unfold next_acc. simpl.
    destruct (is_offline C r); simpl; [apply IH|].
    destruct (flagged r); simpl.
    + destruct (best_loop_found k ks) as (id' & -> & Hle & Hub & Hin).
      exists id', true. split; [done|]. right. split_and!; [done|done|].
      split.
      * destruct Hin as [->|Hin];
          [apply list_elem_of_here|by apply list_elem_of_further].
      * intros k' [->|?]%elem_of_cons; [lia|auto].
    + destruct (IH (Z.max id k)) as (id' & found & -> & Hcase).
      exists id', found. split; [done|].
      destruct Hcase as [(Hnil & -> & Hle & Hub & Hin)|Hcase]; [left|by right].
      split_and!; [done|done|lia| |].
      * intros k' [->|?]%elem_of_cons; [lia|auto].
      * destruct Hin as [->|Hin].
        -- destruct (Z.max_spec id k) as [[_ ->]|[_ ->]];
             [right; apply list_elem_of_here|by left].
        -- right. by apply list_elem_of_further.
Qed.

(** Offline sessions do not count. *)
Lemma best_loop_skips_offline acc ks :
  (best_loop C acc (filter (λ kr, is_offline C kr.2 = false) ks)).1
  = (best_loop C acc ks).1.
Proof.
  revert acc. induction ks as [|[k r] ks IH]; intros acc; [done|].
  rewrite filter_cons. destruct (decide _) as [Ho|Ho]; simpl in Ho.
  - rewrite !best_loop_cons. apply IH.
  - apply not_false_is_true in Ho. rewrite best_loop_cons.
    unfold next_acc. rewrite Ho. apply IH.
Qed.

Lemma bestsessionid_fst ks :
  (bestsessionid C ks).1 = (best_loop C (0, false) ks).1.1.
Proof.
  unfold bestsessionid. by destruct (best_loop C (0, false) ks) as [[id found] ks'].
Qed.

Lemma bestsessionid_snd ks :
  (bestsessionid C ks).2 = (λ kr, (kr.1, completed C kr.2)) <$> ks.
Proof.
  rewrite <- (best_loop_rows (0, false)). unfold bestsessionid.
  by destruct (best_loop C (0, false) ks) as [[id found] ks'].
Qed.
End Selector.

Section SelectorExamples.
Variable C : constants.

Lemma online_row_live official : is_offline C (online_row C official) = false.
Proof.
  unfold is_offline, online_row. rewrite lookup_insert_ne by done.
  rewrite lookup_insert_eq. simpl. apply bool_decide_eq_false.
  intros [=]. lia.
Qed.

Lemma online_row_flagged official : flagged (online_row C official) = official.
Proof. unfold flagged, online_row. by rewrite lookup_insert_eq. Qed.

Lemma best_of_two k1 o1 k2 o2 :
  (bestsessionid C [(k1, online_row C o1); (k2, online_row C o2)]).1
  = (next_acc C (next_acc C (0, false) k1 (online_row C o1)) k2 (online_row C o2)).1.
Proof. rewrite bestsessionid_fst. by rewrite !best_loop_cons. Qed.
End SelectorExamples.

(** C3, amended.  [bestsessionid] does not count offline sessions; when a
    flagged session is among the others, the highest flagged id is chosen,
    whatever the ids of the sessions that are not flagged; when none is
    flagged, the highest id is chosen provided it is positive, and 0 is
    returned otherwise, in particular when no session qualifies.  Sessions
    (5, official) and (20, not official), both online, give 5, in either
    order; sessions 10 and 20, neither official, give 20. *)
Theorem C3_bestsessionid_selects (C : constants) (ks : sessions) :
  (bestsessionid C ks).1
    = (bestsessionid C (filter (λ kr, is_offline C kr.2 = false) ks)).1
  ∧ (flagged_ids C ks ≠ [] → is_max_of (bestsessionid C ks).1 (flagged_ids C ks))
  ∧ (flagged_ids C ks = [] → (∃ k, k ∈ live_ids C ks ∧ 0 < k) →
     is_max_of (bestsessionid C ks).1 (live_ids C ks))
  ∧ (flagged_ids C ks = [] → (∀ k, k ∈ live_ids C ks → k ≤ 0) →
     (bestsessionid C ks).1 = 0)
  ∧ (live_ids C ks = [] → (bestsessionid C ks).1 = 0)
  ∧ (bestsessionid C [(5, online_row C true); (20, online_row C false)]).1 = 5
  ∧ (bestsessionid C [(20, online_row C false); (5, online_row C true)]).1 = 5
  ∧ (bestsessionid C [(10, online_row C false); (20, online_row C false)]).1 = 20.
Proof.
  assert (Hzero : flagged_ids C ks = [] → (∀ k, k ∈ live_ids C ks → k ≤ 0) →
                  (bestsessionid C ks).1 = 0).
  { intros Hnf Hneg. rewrite bestsessionid_fst.
    destruct (best_loop_not_found C 0 ks) as (id' & found & -> & Hcase). simpl.
    destruct Hcase as [(_ & _ & Hle & Hub & Hin)|(Hf & _)]; [|done].
    destruct Hin as [->|Hin]; [done|]. specialize (Hneg _ Hin). lia. }
  split_and!.
  - rewrite !bestsessionid_fst. by rewrite best_loop_skips_offline.
  - intros Hf. rewrite bestsessionid_fst.
    destruct (best_loop_not_found C 0 ks) as (id' & found & -> & Hcase). simpl.
    by destruct Hcase as [(Hnil & _)|(_ & _ & Hmax)].
  - intros Hnf (k & Hk & Hpos). rewrite bestsessionid_fst.
    destruct (best_loop_not_found C 0 ks) as (id' & found & -> & Hcase). simpl.
    destruct Hcase as [(_ & _ & Hle & Hub & Hin)|(Hf & _)]; [|done].
    split; [|done]. destruct Hin as [->|Hin]; [|done].
    specialize (Hub _ Hk). lia.
  - done.
  - intros Hnil. apply Hzero.
    + unfold flagged_ids, live_ids in *. apply fmap_nil_inv in Hnil.
      destruct (filter _ ks) as [|kr l] eqn:E; [done|].
      assert (Hin : kr ∈ filter (λ kr, is_offline C kr.2 = false) ks).
      { apply list_elem_of_filter.
        assert (Hkr : kr ∈ kr :: l) by apply list_elem_of_here.
        rewrite <- E in Hkr. apply list_elem_of_filter in Hkr as [[? _] ?]. done. }
      rewrite Hnil in Hin. by apply elem_of_nil in Hin.
    + intros k Hk. rewrite Hnil in Hk. by apply elem_of_nil in Hk.
  - rewrite best_of_two. unfold next_acc.
    by rewrite !online_row_live, !online_row_flagged.
  - rewrite best_of_two. unfold next_acc.
    by rewrite !online_row_live, !online_row_flagged.
  - rewrite best_of_two. unfold next_acc.
    by rewrite !online_row_live, !online_row_flagged.
Qed.

(** C3 as stated fails: with a single session, online, not flagged and of id
    -5, the consulted group is [-5], yet the selector returns 0, which is
    the id of no session. *)
Lemma C3_counterexample_negative_id :
  flagged_ids mfc negative_session = []
  ∧ live_ids mfc negative_session = [-5]
  ∧ (bestsessionid mfc negative_session).1 = 0
  ∧ ¬ is_max_of (bestsessionid mfc negative_session).1 (live_ids mfc negative_session).
Proof.
  split_and!; [done|done|done|].
  intros [Hin _]. vm_compute in Hin.
  apply list_elem_of_singleton in Hin. done.
Qed.

(** ** What the selector writes *)

Section SelectorEffects.
Variable C : constants.
Implicit Types (ks : sessions) (r : row).

Lemma assoc_fmap_rows {A B} (f : A → B) (k : Z) (d : list (Z * A)) :
  assoc k ((λ kr, (kr.1, f kr.2)) <$> d) = f <$> assoc k d.
Proof.
  induction d as [|[k0 v0] d IH]; simpl; [done|].
  destruct (decide (k0 = k)); [done|apply IH].
Qed.

Lemma fmap_rows_keys {A B} (f : A → B) (d : list (Z * A)) :
  ((λ kr, (kr.1, f kr.2)) <$> d).*1 = d.*1.
Proof.
  rewrite <- list_fmap_compose. apply list_fmap_ext. by intros i [k0 v0] _.
Qed.

(** A completed row reads as the row did, except for the two defaults. *)
Lemma completed_lookup r key :
  completed C r !! key =
    match r !! key with
    | Some v => Some v
    | None =>
        if decide (key = "vs"%string) then Some (VInt (STATE_Offline C))
        else if decide (key = "model_sw"%string) then
          (if is_offline C r then None else Some (VBool false))
        else None
    end.
Proof.
  unfold completed, row_setdefault.
  destruct (r !! "vs") as [v|] eqn:Hv; simpl.
  - destruct (is_offline C r).
    + destruct (r !! key) eqn:Hk; [done|].
      destruct (decide (key = "vs"%string)) as [->|]; [congruence|].
      by destruct (decide (key = "model_sw"%string)).
    + destruct (r !! "model_sw") as [sw|] eqn:Hsw; simpl.
      * destruct (r !! key) eqn:Hk; [done|].
        destruct (decide (key = "vs"%string)) as [->|]; [congruence|].
        destruct (decide (key = "model_sw"%string)) as [->|]; [congruence|done].
      * destruct (decide (key = "model_sw"%string)) as [->|Hne].
        -- rewrite lookup_insert_eq, Hsw. done.
        -- rewrite lookup_insert_ne by done. destruct (r !! key) eqn:Hk; [done|].
           destruct (decide (key = "vs"%string)) as [->|]; [congruence|done].
  - assert (Ho : is_offline C r = true) by (unfold is_offline; by rewrite Hv).
    rewrite Ho. destruct (decide (key = "vs"%string)) as [->|Hne].
    + by rewrite lookup_insert_eq, Hv.
    + rewrite lookup_insert_ne by done. destruct (r !! key); [done|].
      by destruct (decide (key = "model_sw"%string)).
Qed.

Lemma completed_id r :
  is_Some (r !! "vs") → (is_offline C r = false → is_Some (r !! "model_sw")) →
  completed C r = r.
Proof.
  intros [v Hv] Hsw. apply map_eq. intros key. rewrite completed_lookup.
  destruct (r !! key) eqn:Hk; [done|].
  destruct (decide (key = "vs"%string)) as [->|]; [congruence|].
  destruct (decide (key = "model_sw"%string)) as [->|]; [|done].
  destruct (is_offline C r); [done|].
  destruct Hsw as [sw Hsw]; [done|congruence].
Qed.

Lemma completed_all_id ks :
  (∀ k r, (k, r) ∈ ks →
     is_Some (r !! "vs") ∧ (is_offline C r = false → is_Some (r !! "model_sw"))) →
  (λ kr, (kr.1, completed C kr.2)) <$> ks = ks.
Proof.
  induction ks as [|[k r] ks' IH]; intros Hall; [done|].
  rewrite fmap_cons. f_equal.
  - destruct (Hall k r) as [Hv Hsw]; [apply list_elem_of_here|].
    simpl. by rewrite completed_id.
  - apply IH. intros k' r' Hin. apply (Hall k'). by apply list_elem_of_further.
Qed.

Lemma live_ids_keys k ks : k ∈ live_ids C ks → is_Some (assoc k ks).
Proof.
  unfold live_ids. induction ks as [|[k0 r0] ks IH]; simpl.
  - by intros ?%elem_of_nil.
  - rewrite filter_cons. destruct (decide (k0 = k)) as [->|Hne]; [by eauto|].
    destruct (decide _); simpl; [|done].
    intros [?|?]%elem_of_cons; [congruence|auto].
Qed.

Lemma flagged_ids_live k ks : k ∈ flagged_ids C ks → k ∈ live_ids C ks.
Proof.
  unfold flagged_ids, live_ids.
  intros ([k' r] & -> & [[Ho _] Hin]%list_elem_of_filter)%list_elem_of_fmap.
  apply list_elem_of_fmap. exists (k', r). split; [done|].
  by apply list_elem_of_filter.
Qed.

(** The selected id is 0 or the id of a session. *)
Lemma bestsessionid_key ks :
  (bestsessionid C ks).1 = 0 ∨ is_Some (assoc (bestsessionid C ks).1 ks).
Proof.
  rewrite bestsessionid_fst.
  destruct (best_loop_not_found C 0 ks) as (id' & found & -> & Hcase). simpl.
  destruct Hcase as [(_ & _ & _ & _ & [->|Hin])|(_ & _ & [Hin _])].
  - by left.
  - right. by apply live_ids_keys.
  - right. by apply live_ids_keys, flagged_ids_live.
Qed.
End SelectorEffects.

(** C2, amended.  Evaluating [bestsessionid] keeps the session ids and, in
    each row, every entry there is; all it may add to a row is the default
    ["vs"] of [STATE.Offline] and, on a session that is not offline, the
    default ["model_sw"] of [False], so that sessions whose rows carry both
    are left as they were.  [bestsession] selects the same id; when a
    session is stored under it, no session is added and the row returned is
    that session's; when none is, the id is 0 and a default offline row is
    inserted under it into [knownsessions], at the end, and returned. *)
Theorem C2_selector_effects (C : constants) (uid : Z) (ks : sessions) :
  ((bestsessionid C ks).2).*1 = ks.*1
  ∧ (∀ k, assoc k (bestsessionid C ks).2 = completed C <$> assoc k ks)
  ∧ (∀ r key v, r !! key = Some v → completed C r !! key = Some v)
  ∧ (∀ r key, r !! key = None → is_Some (completed C r !! key) →
       (key = "vs"%string ∧ completed C r !! key = Some (VInt (STATE_Offline C)))
       ∨ (key = "model_sw"%string ∧ is_offline C r = false
          ∧ completed C r !! key = Some (VBool false)))
  ∧ ((∀ k r, (k, r) ∈ ks →
        is_Some (r !! "vs") ∧ (is_offline C r = false → is_Some (r !! "model_sw"))) →
     (bestsessionid C ks).2 = ks)
  ∧ (bestsession C uid ks).1 = (bestsessionid C ks).1
  ∧ (∀ r, assoc (bestsessionid C ks).1 ks = Some r →
       (bestsession C uid ks).2 = (bestsessionid C ks).2
       ∧ row_at (bestsession C uid ks).1 (bestsession C uid ks).2 = completed C r)
  ∧ (assoc (bestsessionid C ks).1 ks = None →
       (bestsessionid C ks).1 = 0
       ∧ (bestsession C uid ks).2
           = (bestsessionid C ks).2 ++ [(0, _default_session C uid)]
       ∧ row_at (bestsession C uid ks).1 (bestsession C uid ks).2
           = _default_session C uid).
Proof.
  assert (Hb : (bestsession C uid ks).1 = (bestsessionid C ks).1).
  { unfold bestsession. by destruct (bestsessionid C ks). }
  assert (Hb2 : (bestsession C uid ks).2
    = dict_setdefault (bestsessionid C ks).1 (_default_session C uid)
        (bestsessionid C ks).2).
  { unfold bestsession. by destruct (bestsessionid C ks). }
  assert (Hl : ∀ k, assoc k (bestsessionid C ks).2 = completed C <$> assoc k ks).
  { intros k. rewrite bestsessionid_snd. apply assoc_fmap_rows. }
  split_and!.
  - rewrite bestsessionid_snd. apply fmap_rows_keys.
  - exact Hl.
  - intros r key v Hv. by rewrite completed_lookup, Hv.
  - intros r key Hnone. rewrite completed_lookup, Hnone.
    destruct (decide (key = "vs"%string)); [by left|].
    destruct (decide (key = "model_sw"%string)); [|by intros [? ?]].
    destruct (is_offline C r); [by intros [? ?]|]. by right.
  - intros Hall. rewrite bestsessionid_snd. by apply completed_all_id.
  - exact Hb.
  - intros r Hr. rewrite Hb, Hb2. unfold dict_setdefault, row_at.
    rewrite Hl, Hr. simpl. split; [done|]. by rewrite Hl, Hr.
  - intros Hnone. destruct (bestsessionid_key C ks) as [H0|[r Hr]]; [|congruence].
    split; [done|]. rewrite Hb, Hb2. unfold dict_setdefault, row_at.
    rewrite Hl, Hnone. simpl. split; [by rewrite H0|].
    rewrite assoc_app_None; [done|]. by rewrite Hl, Hnone.
Qed.

(** C2 as stated fails: on a model without sessions [bestsession] finds no
    session under the selected id 0 and inserts the default row, so that
    [knownsessions] is not what it was. *)
Lemma C2_counterexample_bestsession_inserts :
  knownsessions (Model_init 7) = []
  ∧ (bestsession mfc 7 (knownsessions (Model_init 7))).2
      = [(0, _default_session mfc 7)]
  ∧ (bestsession mfc 7 (knownsessions (Model_init 7))).2
      ≠ knownsessions (Model_init 7).
Proof. split_and!; done. Qed.

(** ** Watchers are edge-triggered *)

Section Watchers.
Implicit Types (w : world) (wm : list (nat * when_entry)) (a : when_entry).

Lemma processor_condition self s payload owner key a :
  condition (_processor self s payload owner key a).1 = condition a.
Proof. unfold _processor. by repeat case_match. Qed.

(** After [_processor] the uid of the model is in [matchedset] exactly when
    the condition holds; the other uids stay as they were. *)
Lemma processor_matched self s payload owner key a u :
  bool_decide (u ∈ matchedset (_processor self s payload owner key a).1)
  = if bool_decide (s_uid s = u) then condition a s
    else bool_decide (u ∈ matchedset a).
Proof.
  unfold _processor.
  destruct (condition a s) eqn:Hc;
    (destruct (decide (s_uid s ∈ matchedset a)) as [Hin|Hin];
     [rewrite (bool_decide_eq_true_2 _ Hin)|rewrite (bool_decide_eq_false_2 _ Hin)]);
    simpl;
    (destruct (decide (s_uid s = u)) as [Heq|Hne];
     [rewrite (bool_decide_eq_true_2 _ Heq); subst u
     |rewrite (bool_decide_eq_false_2 _ Hne)]);
    first [apply bool_decide_eq_true|apply bool_decide_eq_false|apply bool_decide_ext];
    set_solver.
Qed.

Lemma processor_calls w0 owner' key' u self s payload owner key a :
  omap (call_edge w0 owner' key' u) (_processor self s payload owner key a).2
  = if bool_decide (owner = owner' ∧ key = key' ∧ uid <$> heap w0 !! self = Some u)
    then edge1 (bool_decide (s_uid s ∈ matchedset a)) (condition a s)
    else [].
Proof.
  unfold _processor, edge1.
  destruct (condition a s), (bool_decide (s_uid s ∈ matchedset a)); simpl;
    by case_bool_decide.
Qed.

Lemma process_items_keys self s payload owner wm :
  (process_items self s payload owner wm).1.*1 = wm.*1.
Proof.
  induction wm as [|[k a] wm IH]; [done|]. simpl.
  destruct (_processor self s payload owner k a) as [a' ev].
  destruct (process_items self s payload owner wm) as [wm' evs].
  simpl in *. by f_equal.
Qed.

Lemma process_items_assoc self s payload owner wm key :
  assoc key (process_items self s payload owner wm).1
  = (λ a, (_processor self s payload owner key a).1) <$> assoc key wm.
Proof.
  induction wm as [|[k a] wm IH]; [done|]. simpl.
  destruct (_processor self s payload owner k a) as [a' ev] eqn:E.
  destruct (process_items self s payload owner wm) as [wm' evs].
  simpl in *. destruct (decide (k = key)) as [->|]; [|done].
  simpl. by rewrite E.
Qed.

Lemma assoc_None_key {K V} `{EqDecision K} (k : K) (d : list (K * V)) :
  k ∉ d.*1 → assoc k d = None.
Proof.
  induction d as [|[k0 v0] d IH]; [done|]. simpl.
  intros Hk. apply not_elem_of_cons in Hk as [Hne Hk].
  rewrite decide_False by done. by apply IH.
Qed.

(** The calls of a pass over [wm] that belong to one watcher. *)
Lemma process_items_calls_of w0 owner' key' u self s payload owner wm :
  NoDup wm.*1 →
  omap (call_edge w0 owner' key' u) (process_items self s payload owner wm).2
  = match assoc key' wm with
    | Some a =>
        if bool_decide (owner = owner' ∧ uid <$> heap w0 !! self = Some u)
        then edge1 (bool_decide (s_uid s ∈ matchedset a)) (condition a s)
        else []
    | None => []
    end.
Proof.
  induction wm as [|[k a] wm IH]; [done|]. simpl. intros [Hk Hnd]%NoDup_cons.
  pose proof (processor_calls w0 owner' key' u self s payload owner k a) as Hc.
  destruct (_processor self s payload owner k a) as [a' ev].
  specialize (IH Hnd).
  destruct (process_items self s payload owner wm) as [wm' evs].
  simpl in *. rewrite omap_app, Hc, IH.
  destruct (decide (k = key')) as [->|Hne].
  - rewrite (assoc_None_key key' wm Hk), app_nil_r.
    repeat case_bool_decide; naive_solver.
  - rewrite bool_decide_eq_false_2 by naive_solver. done.
Qed.
End Watchers.

Section WatcherPass.
Implicit Types (w : world) (wm : list (nat * when_entry)) (a : when_entry).

Lemma process_items_calls_other w0 owner' key' u self s payload owner wm :
  owner ≠ owner' →
  omap (call_edge w0 owner' key' u) (process_items self s payload owner wm).2 = [].
Proof.
  intros Hne. induction wm as [|[k a] wm IH]; [done|]. simpl.
  pose proof (processor_calls w0 owner' key' u self s payload owner k a) as Hc.
  destruct (_processor self s payload owner k a) as [a' ev].
  destruct (process_items self s payload owner wm) as [wm' evs].
  simpl in *. rewrite omap_app, Hc, IH.
  by rewrite bool_decide_eq_false_2 by (intros (? & _); done).
Qed.

Lemma same_uids_of_snapshots w w' :
  (∀ x : addr, snapshot_of <$> heap w' !! x = snapshot_of <$> heap w !! x) →
  same_uids w w'.
Proof.
  intros Hs x. specialize (Hs x).
  destruct (heap w' !! x), (heap w !! x); simpl in *; try done.
  f_equal. change (s_uid (snapshot_of m) = s_uid (snapshot_of m0)). congruence.
Qed.

Lemma same_uids_trans w0 w w' : same_uids w0 w → same_uids w w' → same_uids w0 w'.
Proof. intros H1 H2 x. by rewrite H2, H1. Qed.

Lemma All_ok_same_uids w w' : All w' = All w → same_uids w w' → All_ok w → All_ok w'.
Proof.
  intros HA Hu (mall & Hm & Hid). specialize (Hu (All w)).
  rewrite Hm in Hu. unfold All_ok. rewrite HA.
  destruct (heap w' !! All w) as [m'|]; [|done]. exists m'. split; [done|].
  simpl in Hu. congruence.
Qed.

(** One pass of the watcher engine, seen from one watcher and one uid. *)
Lemma process_whens_watcher w0 w w' self payload evs m owner key a :
  All_ok w → same_uids w0 w → watching w owner key a →
  heap w !! self = Some m →
  _process_whens self payload w = (w', evs) →
  ∃ a', watching w' owner key a' ∧ condition a' = condition a
    ∧ ∀ u,
      let active := bool_decide (uid m ≠ -500 ∧ uid m = u
                                 ∧ (owner = All w ∨ owner = self)) in
      omap (call_edge w0 owner key u) evs
        = (if active then edge1 (bool_decide (u ∈ matchedset a))
                                (condition a (snapshot_of m))
           else [])
      ∧ bool_decide (u ∈ matchedset a')
        = (if active then condition a (snapshot_of m)
           else bool_decide (u ∈ matchedset a)).
Proof.
  intros (mall & Hall & Huall) Hu0 (mo & Hmo & Hnd & Ha) Hm.
  unfold _process_whens. rewrite Hm. case_bool_decide as Hid.
  { intros [= <- <-]. exists a. split; [by exists mo|]. split; [done|].
    intros u. rewrite bool_decide_eq_false_2 by (intros (? & _); done). done. }
  assert (Hself : self ≠ All w) by (intros ->; congruence).
  assert (Huself : uid <$> heap w0 !! self = Some (uid m)).
  { rewrite <- (Hu0 self), Hm. done. }
  set (s := snapshot_of m).
  pose proof (process_items_keys self s payload self (whenmap m)) as Hk1.
  pose proof (process_items_assoc self s payload self (whenmap m)) as Ha1.
  destruct (process_items self s payload self (whenmap m)) as [wm1 ev1] eqn:E1.
  rewrite store_lookup_ne by done. rewrite Hall.
  pose proof (process_items_keys self s payload (All w) (whenmap mall)) as Hk2.
  pose proof (process_items_assoc self s payload (All w) (whenmap mall)) as Ha2.
  destruct (process_items self s payload (All w) (whenmap mall)) as [wm2 ev2] eqn:E2.
  simpl in *. intros [= <- <-].
  assert (Hl_self : heap (store (All w) (set_whenmap wm2 mall)
                      (store self (set_whenmap wm1 m) w)) !! self
                    = Some (set_whenmap wm1 m)).
  { rewrite store_lookup_ne by done. apply store_lookup_eq. by rewrite Hm. }
  assert (Hl_all : heap (store (All w) (set_whenmap wm2 mall)
                      (store self (set_whenmap wm1 m) w)) !! All w
                    = Some (set_whenmap wm2 mall)).
  { apply store_lookup_eq. rewrite store_lookup_ne by done. by rewrite Hall. }
  destruct (decide (owner = self)) as [->|Hos].
  - (* a watcher of the model itself *)
    assert (mo = m) as -> by congruence.
    exists (_processor self s payload self key a).1. split_and!.
    + exists (set_whenmap wm1 m). split_and!; [done|by simpl; rewrite Hk1|].
      simpl. by rewrite Ha1, Ha.
    + apply processor_condition.
    + intros u. rewrite omap_app.
      replace ev1 with (process_items self s payload self (whenmap m)).2
        by (by rewrite E1).
      replace ev2 with (process_items self s payload (All w) (whenmap mall)).2
        by (by rewrite E2).
      rewrite process_items_calls_of by done.
      rewrite process_items_calls_other by done.
      rewrite Ha, app_nil_r, processor_matched, Huself.
      subst s. simpl. clear Hl_self Hl_all Ha1 Ha2.
      repeat case_bool_decide; naive_solver.
  - destruct (decide (owner = All w)) as [->|Hoa].
    + (* a watcher of [Model.All] *)
      assert (mo = mall) as -> by congruence.
      exists (_processor self s payload (All w) key a).1. split_and!.
      * exists (set_whenmap wm2 mall). split_and!; [done|by simpl; rewrite Hk2|].
        simpl. by rewrite Ha2, Ha.
      * apply processor_condition.
      * intros u. rewrite omap_app.
        replace ev1 with (process_items self s payload self (whenmap m)).2
          by (by rewrite E1).
        replace ev2 with (process_items self s payload (All w) (whenmap mall)).2
          by (by rewrite E2).
        rewrite (process_items_calls_other w0 (All w) key u self s payload self)
          by done.
        rewrite process_items_calls_of by done.
        rewrite Ha, app_nil_l, processor_matched, Huself.
        subst s. simpl. clear Hl_self Hl_all Ha1 Ha2.
        repeat case_bool_decide; naive_solver.
    + (* a watcher of some other model *)
      exists a. split_and!; [|done|].
      * exists mo. split_and!; [|done|done].
        by rewrite !store_lookup_ne by done.
      * intros u. rewrite omap_app.
        replace ev1 with (process_items self s payload self (whenmap m)).2
          by (by rewrite E1).
        replace ev2 with (process_items self s payload (All w) (whenmap mall)).2
          by (by rewrite E2).
        rewrite !process_items_calls_other by done.
        rewrite bool_decide_eq_false_2 by naive_solver. done.
Qed.
End WatcherPass.

Section WatcherRuns.
Variable C : constants.
Implicit Types (w : world) (a : when_entry).

Lemma same_watchers_store w self m m' :
  heap w !! self = Some m → uid m' = uid m → whenmap m' = whenmap m →
  same_watchers w (store self m' w).
Proof.
  intros Hm Hu Hw. split; [done|]. intros x.
  destruct (decide (self = x)) as [<-|Hne].
  - rewrite store_lookup_eq by (by rewrite Hm). rewrite Hm. simpl. by rewrite Hu, Hw.
  - by rewrite store_lookup_ne.
Qed.

Lemma same_watchers_refl w : same_watchers w w.
Proof. by split. Qed.

Lemma same_watchers_uids w w' : same_watchers w w' → same_uids w w'.
Proof.
  intros [_ H] x. specialize (H x).
  destruct (heap w' !! x), (heap w !! x); simpl in *; congruence.
Qed.

Lemma same_watchers_watching w w' owner key a :
  same_watchers w w' → watching w owner key a → watching w' owner key a.
Proof.
  intros [_ H] (mo & Hmo & Hnd & Ha). specialize (H owner).
  rewrite Hmo in H. destruct (heap w' !! owner) as [mo'|] eqn:E; [|done].
  simpl in H. injection H as Hu Hw. exists mo'. rewrite Hw. by split_and!.
Qed.

Lemma merge_apply_watchers self p w w1 evs e visible :
  merge_apply C self p w = (w1, evs, e, visible) →
  same_watchers w w1 ∧ Forall (λ ev, is_call ev = false) evs
  ∧ (e = None → ∃ m, heap w !! self = Some m ∧ uid m ≠ -500).
Proof.
  unfold merge_apply. destruct (heap w !! self) as [m|] eqn:Hm.
  2: { intros [= <- <- <- <-]. split_and!; [apply same_watchers_refl|done|done]. }
  assert (Hs : ∀ m', uid m' = uid m → whenmap m' = whenmap m →
                     same_watchers w (store self m' w)).
  { intros m'. by apply same_watchers_store. }
  case_bool_decide as Hid.
  { intros [= <- <- <- <-]. split_and!; [apply same_watchers_refl|done|done]. }
  destruct (negb (level_ok C p)).
  { intros [= <- <- <- <-]. split_and!; [apply same_watchers_refl|done|done]. }
  destruct (merge_update C (uid m) p (knownsessions m)) as [upd [e0|]].
  { intros [= <- <- <- <-]. split_and!; [by apply Hs|done|done]. }
  destruct (merge_visible C (u_cur upd) (u_sessions upd)) as [[vis ks1] [e1|]].
  { intros [= <- <- <- <-]. split_and!; [by apply Hs|done|done]. }
  destruct vis.
  - destruct (update_nm C (uid m) (nm m) ks1) as [nm' ks2].
    intros [= <- <- <- <-]. split_and!; [by apply Hs| |by eauto].
    apply Forall_app. split.
    + unfold emit_changes. apply Forall_flat_map, Forall_forall.
      intros [[prop before] after] _. destruct (py_ne before after); by repeat constructor.
    + by repeat constructor.
  - intros [= <- <- <- <-]. split_and!; [by apply Hs|done|by eauto].
Qed.

Lemma purge_at_watchers self w w' e :
  purge_at C self w = (w', e) → same_watchers w w'.
Proof.
  unfold purge_at. destruct (heap w !! self) as [m|] eqn:Hm.
  - destruct (_purgeoldsessions C (knownsessions m)) as [ks e'].
    intros [= <- <-]. by apply (same_watchers_store _ _ m).
  - intros [= <- <-]. apply same_watchers_refl.
Qed.

Lemma omap_call_edge_emits w0 owner key u evs :
  Forall (λ ev, is_call ev = false) evs →
  omap (call_edge w0 owner key u) evs = [].
Proof.
  induction 1 as [|ev evs Hev _ IH]; [done|]. simpl.
  destruct ev; [|done]. simpl. exact IH.
Qed.

Lemma final_value_cons prev b bs : final_value prev (b :: bs) = final_value b bs.
Proof.
  unfold final_value. destruct bs as [|c l]; [done|].
  rewrite last_cons_cons. destruct (last (c :: l)) eqn:E; [done|].
  by apply last_None in E.
Qed.

Lemma edges_app prev bs1 bs2 :
  edges prev (bs1 ++ bs2) = edges prev bs1 ++ edges (final_value prev bs1) bs2.
Proof.
  revert prev. induction bs1 as [|b bs1 IH]; intros prev; [done|].
  rewrite final_value_cons. simpl. by rewrite IH, <- app_assoc.
Qed.

Lemma sampled_app w owner u cond l1 l2 :
  sampled w owner u cond (l1 ++ l2)
  = sampled w owner u cond l1 ++ sampled w owner u cond l2.
Proof. unfold sampled. by rewrite List.filter_app, !fmap_app. Qed.

(** One pass, in terms of [sampled]. *)
Lemma pass_sampled w0 w w' self payload evs m owner key a :
  watched w0 w owner key a →
  heap w !! self = Some m →
  _process_whens self payload w = (w', evs) →
  ∃ a', watched w0 w' owner key a' ∧ condition a' = condition a
    ∧ ∀ u,
      let bs := sampled w0 owner u (condition a)
                  (if bool_decide (uid m = -500) then [] else [(self, snapshot_of m)]) in
      omap (call_edge w0 owner key u) evs = edges (bool_decide (u ∈ matchedset a)) bs
      ∧ bool_decide (u ∈ matchedset a')
        = final_value (bool_decide (u ∈ matchedset a)) bs.
Proof.
  intros (Hok & Hu0 & HA & Hw) Hm Hp.
  destruct (process_whens_watcher w0 w w' self payload evs m owner key a
              Hok Hu0 Hw Hm Hp) as (a' & Hw' & Hc & Hcalls).
  destruct (process_whens_frame _ _ _ _ _ Hp) as (_ & HA' & Hsnap).
  apply same_uids_of_snapshots in Hsnap.
  exists a'. split_and!; try done.
  - split_and!; [by eapply All_ok_same_uids|by eapply same_uids_trans|congruence|done].
  - intros u. destruct (Hcalls u) as [H1 H2]. simpl in *. rewrite H1, H2.
    unfold sampled, concerns. rewrite HA.
    destruct (decide (uid m = -500)) as [Hid|Hid].
    + rewrite (bool_decide_eq_true_2 (uid m = -500)) by done.
      rewrite bool_decide_eq_false_2 by (intros (? & _); done). done.
    + rewrite (bool_decide_eq_false_2 (uid m = -500)) by done. simpl.
      destruct (decide (uid m = u ∧ (owner = All w0 ∨ owner = self))) as [Hc'|Hc'].
      * rewrite (bool_decide_eq_true_2 (uid m ≠ -500 ∧ _)) by (by destruct Hc').
        rewrite (bool_decide_eq_true_2 (uid m = u ∧ _)) by done. simpl.
        unfold final_value. simpl. by rewrite app_nil_r.
      * rewrite (bool_decide_eq_false_2 (uid m ≠ -500 ∧ _))
          by (intros (? & ? & ?); by apply Hc').
        rewrite (bool_decide_eq_false_2 (uid m = u ∧ _)) by done. done.
Qed.

Lemma watched_same_watchers w0 w w' owner key a :
  same_watchers w w' → watched w0 w owner key a → watched w0 w' owner key a.
Proof.
  intros Hs (Hok & Hu0 & HA & Hw). pose proof Hs as [HA' _].
  pose proof (same_watchers_uids _ _ Hs) as Hu.
  split_and!; [by eapply All_ok_same_uids|by eapply same_uids_trans|congruence|].
  by eapply same_watchers_watching.
Qed.
End WatcherRuns.

Section WatcherSteps.
Variable C : constants.
Implicit Types (w : world) (a : when_entry).

(** One call, seen from one watcher. *)
Lemma step_sampled w0 w w' o evs e owner key a :
  watched w0 w owner key a →
  step C o w = (w', evs, e) →
  ∃ a', watched w0 w' owner key a' ∧ condition a' = condition a
    ∧ ∀ u,
      let bs := sampled w0 owner u (condition a) (option_list (evaluation C o w)) in
      omap (call_edge w0 owner key u) evs = edges (bool_decide (u ∈ matchedset a)) bs
      ∧ bool_decide (u ∈ matchedset a')
        = final_value (bool_decide (u ∈ matchedset a)) bs.
Proof.
  intros Hw. destruct o as [self p|self new_tags]; simpl.
  - (* merge *)
    unfold merge.
    destruct (merge_apply C self p w) as [[[w1 evs1] e1] visible] eqn:Ha.
    destruct (merge_apply_watchers C _ _ _ _ _ _ _ Ha) as (Hs1 & Hemits & Hid).
    pose proof (watched_same_watchers _ _ _ _ _ _ Hs1 Hw) as Hw1.
    pose proof (omap_call_edge_emits w0 owner key) as Homap.
    destruct e1 as [e1|].
    { intros [= <- <- <-]. exists a. split_and!; [done|done|].
      intros u. simpl. by rewrite Homap. }
    destruct (merge_apply_allocated C _ _ _ _ _ _ Ha) as [m1 Hm1].
    destruct Hid as (m & Hm & Hid); [done|].
    assert (Hid1 : uid m1 ≠ -500).
    { pose proof (same_watchers_uids _ _ Hs1 self) as Hu.
      rewrite Hm, Hm1 in Hu. simpl in Hu. congruence. }
    rewrite Hm1. simpl. destruct visible.
    + destruct (_process_whens self (ArgPayload p) w1) as [w2 calls] eqn:Hp.
      destruct (pass_sampled _ _ _ _ _ _ _ _ _ _ Hw1 Hm1 Hp)
        as (a' & Hw2 & Hc & Hcalls).
      destruct (purge_at C self w2) as [w3 e3] eqn:Hpu.
      intros [= <- <- <-]. exists a'. split_and!; [|done|].
      * eapply watched_same_watchers; [|done]. by eapply purge_at_watchers.
      * intros u. specialize (Hcalls u). simpl in Hcalls.
        rewrite (bool_decide_eq_false_2 (uid m1 = -500)) in Hcalls by done.
        simpl. by rewrite omap_app, Homap.
    + destruct (purge_at C self w1) as [w3 e3] eqn:Hpu.
      intros [= <- <- <-]. exists a. split_and!; [|done|].
      * eapply watched_same_watchers; [|done]. by eapply purge_at_watchers.
      * intros u. simpl. by rewrite app_nil_r, Homap.
  - (* merge_tags *)
    unfold merge_tags. destruct (heap w !! self) as [m|] eqn:Hm.
    2: { intros [= <- <- <-]. exists a. by split_and!. }
    set (m' := set_tags (tags m ∪ list_to_set new_tags) m).
    destruct (_process_whens self (ArgTaglist new_tags) (store self m' w))
      as [w2 calls] eqn:Hp.
    intros [= <- <- <-].
    assert (Hs1 : same_watchers w (store self m' w)).
    { by apply (same_watchers_store _ _ m). }
    pose proof (watched_same_watchers _ _ _ _ _ _ Hs1 Hw) as Hw1.
    assert (Hm' : heap (store self m' w) !! self = Some m').
    { apply store_lookup_eq. by rewrite Hm. }
    destruct (pass_sampled _ _ _ _ _ _ _ _ _ _ Hw1 Hm' Hp)
      as (a' & Hw2 & Hc & Hcalls).
    exists a'. split_and!; [done|done|].
    intros u. specialize (Hcalls u). simpl in Hcalls. simpl.
    by destruct (bool_decide (uid m = -500)).
Qed.

(** A sequence of calls, seen from one watcher. *)
Lemma run_sampled w0 ops w w' evs e owner key a u :
  watched w0 w owner key a →
  run C ops w = (w', evs, e) →
  omap (call_edge w0 owner key u) evs
  = edges (bool_decide (u ∈ matchedset a))
      (sampled w0 owner u (condition a) (evaluations C ops w)).
Proof.
  revert w w' evs e a. induction ops as [|o ops IH]; intros w w' evs e a Hw.
  - by intros [= <- <- <-].
  - simpl. destruct (step C o w) as [[w1 evs1] e1] eqn:Hs.
    destruct (step_sampled _ _ _ _ _ _ _ _ _ Hw Hs) as (a' & Hw1 & Hc & Hcalls).
    destruct (Hcalls u) as [H1 H2]. simpl in H1, H2.
    rewrite sampled_app, edges_app. destruct e1 as [e1|].
    + intros [= <- <- <-]. rewrite H1. unfold sampled at 2. simpl.
      by rewrite app_nil_r.
    + destruct (run C ops w1) as [[w2 evs2] e2] eqn:Hr.
      intros [= <- <- <-]. rewrite omap_app, H1. f_equal.
      rewrite (IH _ _ _ _ _ Hw1 Hr), H2. by rewrite Hc.
Qed.
End WatcherSteps.

Section Registration.
Implicit Types (w : world) (a : when_entry).

Lemma dict_set_keys {V} (k : nat) (v : V) (d : list (nat * V)) :
  NoDup d.*1 → NoDup (dict_set k v d).*1.
Proof.
  induction d as [|[k0 v0] d IH]; simpl; intros Hnd.
  - apply NoDup_singleton.
  - apply NoDup_cons in Hnd as [Hk Hnd]. destruct (decide (k0 = k)) as [->|Hne].
    + by apply NoDup_cons.
    + rewrite fmap_cons. apply NoDup_cons. split; [|by apply IH].
      clear IH Hnd. induction d as [|[k1 v1] d IH]; simpl.
      * by intros ?%list_elem_of_singleton.
      * simpl in Hk. apply not_elem_of_cons in Hk as [Hk1 Hk].
        destruct (decide (k1 = k)) as [->|Hne1]; simpl.
        -- intros [?|?]%elem_of_cons; done.
        -- intros [?|?]%elem_of_cons; [done|by apply IH].
Qed.

Lemma assoc_dict_set {V} (k : nat) (v : V) (d : list (nat * V)) :
  assoc k (dict_set k v d) = Some v.
Proof.
  induction d as [|[k0 v0] d IH]; simpl.
  - by rewrite decide_True.
  - destruct (decide (k0 = k)) as [->|Hne]; simpl.
    + by rewrite decide_True.
    + by rewrite decide_False.
Qed.

(** Registering a watcher evaluates it once, from "not matched". *)
Lemma when_sampled w owner key cond f g w1 evs1 mo :
  All_ok w → heap w !! owner = Some mo → NoDup (whenmap mo).*1 →
  when owner key cond f g w = (w1, evs1) →
  ∃ a', watched w w1 owner key a' ∧ condition a' = cond
    ∧ ∀ u,
      let bs := sampled w owner u cond (registration owner w) in
      omap (call_edge w owner key u) evs1 = edges false bs
      ∧ bool_decide (u ∈ matchedset a') = final_value false bs.
Proof.
  intros Hok Hmo Hnd. unfold when. rewrite Hmo.
  set (a := {| condition := cond; ontrue := f; onfalseaftertrue := g;
               matchedset := ∅ |}).
  set (m := set_whenmap (dict_set key a (whenmap mo)) mo).
  intros Hp.
  assert (Hm : heap (store owner m w) !! owner = Some m).
  { apply store_lookup_eq. by rewrite Hmo. }
  assert (Hu : same_uids w (store owner m w)).
  { intros x. destruct (decide (owner = x)) as [<-|Hne].
    - by rewrite Hm, Hmo.
    - by rewrite store_lookup_ne. }
  assert (Hw : watched w (store owner m w) owner key a).
  { split_and!; [by apply (All_ok_same_uids w)|done|done|].
    exists m. split_and!; [done| |].
    - simpl. by apply dict_set_keys.
    - simpl. apply assoc_dict_set. }
  destruct (pass_sampled _ _ _ _ _ _ _ _ _ _ Hw Hm Hp) as (a' & Hw1 & Hc & Hcalls).
  exists a'. split_and!; [done|done|].
  intros u. specialize (Hcalls u). simpl in Hcalls. unfold registration.
  rewrite Hmo. simpl. done.
Qed.
End Registration.

(** *** The callables that are called are the registered ones *)

Section WatcherCallables.
Variable C : constants.
Implicit Types (w : world) (wm : list (nat * when_entry)) (a : when_entry).

Lemma process_items_callables self s payload owner wm :
  callables (process_items self s payload owner wm).1 = callables wm.
Proof.
  induction wm as [|[k a] wm IH]; [done|]. simpl.
  assert (Ha : ontrue (_processor self s payload owner k a).1 = ontrue a
               ∧ onfalseaftertrue (_processor self s payload owner k a).1
                 = onfalseaftertrue a).
  { unfold _processor. by repeat case_match. }
  destruct (_processor self s payload owner k a) as [a' ev].
  destruct (process_items self s payload owner wm) as [wm' evs].
  cbn [fst snd] in *. destruct Ha as [Ht Hf].
  unfold callables in *. rewrite fmap_cons. cbn [fst snd].
  by rewrite Ht, Hf, IH.
Qed.

(** A pass over [wm] calls callables of [wm] only, each for its edge. *)
Lemma process_items_called self s payload owner wm :
  Forall (λ ev, ∃ k which fg args,
            ev = Call owner k which (callable_of fg.1 fg.2 which) args
            ∧ (k, fg) ∈ callables wm)
    (process_items self s payload owner wm).2.
Proof.
  induction wm as [|[k a] wm IH]; [constructor|]. simpl.
  assert (Ha : Forall (λ ev, ∃ which args,
                 ev = Call owner k which
                        (callable_of (ontrue a) (onfalseaftertrue a) which) args)
                 (_processor self s payload owner k a).2).
  { unfold _processor. repeat case_match; repeat constructor.
    - by exists OnTrue, [ArgModel self; payload].
    - by exists OnFalseAfterTrue, [ArgModel self; payload]. }
  destruct (_processor self s payload owner k a) as [a' ev].
  destruct (process_items self s payload owner wm) as [wm' evs].
  simpl in *. apply Forall_app. split.
  - eapply Forall_impl; [exact Ha|]. intros e (which & args & ->).
    exists k, which, (ontrue a, onfalseaftertrue a), args. split; [done|].
    apply list_elem_of_here.
  - eapply Forall_impl; [exact IH|].
    intros e (k' & which & fg & args & -> & Hin).
    exists k', which, fg, args. split; [done|].
    by apply list_elem_of_further.
Qed.

Lemma same_callables_refl w : same_callables w w.
Proof. by intros x. Qed.

Lemma same_callables_trans w0 w w' :
  same_callables w0 w → same_callables w w' → same_callables w0 w'.
Proof. intros H1 H2 x. by rewrite H2, H1. Qed.

Lemma same_callables_store w (x : addr) m m' :
  heap w !! x = Some m → callables (whenmap m') = callables (whenmap m) →
  same_callables w (store x m' w).
Proof.
  intros Hm Hc y. destruct (decide (x = y)) as [<-|Hne].
  - rewrite store_lookup_eq by (by rewrite Hm). rewrite Hm. simpl. by rewrite Hc.
  - by rewrite store_lookup_ne.
Qed.

Lemma same_watchers_callables w w' : same_watchers w w' → same_callables w w'.
Proof.
  intros [_ H] x. specialize (H x).
  destruct (heap w' !! x) as [m'|], (heap w !! x) as [m|]; simpl in *; try done.
  injection H as _ Hw. by rewrite Hw.
Qed.

Lemma as_registered_same w w' e :
  same_callables w w' → as_registered w' e → as_registered w e.
Proof.
  intros Hs. destruct e as [|o k which f args]; [done|]. simpl.
  intros (mo' & fg & Hmo' & Hin & Hf). specialize (Hs o). rewrite Hmo' in Hs.
  destruct (heap w !! o) as [mo|]; [|done]. simpl in Hs. injection Hs as Hs.
  exists mo, fg. split_and!; [done|by rewrite <- Hs|done].
Qed.

Lemma as_registered_emits w evs :
  Forall (λ ev, is_call ev = false) evs → Forall (as_registered w) evs.
Proof.
  intros H. eapply Forall_impl; [exact H|]. by intros [|].
Qed.

Lemma process_whens_callables self payload w :
  same_callables w (_process_whens self payload w).1
  ∧ Forall (as_registered w) (_process_whens self payload w).2.
Proof.
  unfold _process_whens. destruct (heap w !! self) as [m|] eqn:Hm.
  2: { split; [apply same_callables_refl|constructor]. }
  case_bool_decide; [split; [apply same_callables_refl|constructor]|].
  pose proof (process_items_callables self (snapshot_of m) payload self (whenmap m))
    as Hc1.
  pose proof (process_items_called self (snapshot_of m) payload self (whenmap m))
    as He1.
  destruct (process_items self (snapshot_of m) payload self (whenmap m))
    as [wm1 ev1]. simpl in Hc1, He1.
  assert (Hs1 : same_callables w (store self (set_whenmap wm1 m) w)).
  { by apply (same_callables_store _ _ m). }
  assert (Hr1 : Forall (as_registered w) ev1).
  { eapply Forall_impl; [exact He1|].
    intros e (k & which & fg & args & -> & Hin). simpl. by exists m, fg. }
  destruct (heap (store self (set_whenmap wm1 m) w) !! All w) as [mall|] eqn:Hall.
  2: { by split. }
  pose proof (process_items_callables self (snapshot_of m) payload (All w)
                (whenmap mall)) as Hc2.
  pose proof (process_items_called self (snapshot_of m) payload (All w)
                (whenmap mall)) as He2.
  destruct (process_items self (snapshot_of m) payload (All w) (whenmap mall))
    as [wm2 ev2]. simpl in Hc2, He2. simpl. split.
  - eapply same_callables_trans; [exact Hs1|].
    by apply (same_callables_store _ _ mall).
  - apply Forall_app. split; [done|].
    eapply Forall_impl; [exact He2|].
    intros e (k & which & fg & args & -> & Hin).
    apply (as_registered_same w (store self (set_whenmap wm1 m) w)); [done|].
    simpl. by exists mall, fg.
Qed.

Lemma step_callables o w :
  same_callables w (step C o w).1.1 ∧ Forall (as_registered w) (step C o w).1.2.
Proof.
  destruct o as [self p|self new_tags]; simpl.
  - unfold merge.
    destruct (merge_apply C self p w) as [[[w1 evs1] e1] visible] eqn:Ha.
    destruct (merge_apply_watchers C _ _ _ _ _ _ _ Ha) as (Hs1 & Hemits & _).
    apply same_watchers_callables in Hs1.
    pose proof (as_registered_emits w _ Hemits) as Hr1.
    destruct e1 as [e1|]; [done|].
    assert (H2 : same_callables w1
                   (if visible then _process_whens self (ArgPayload p) w1
                    else (w1, [])).1
                 ∧ Forall (as_registered w1)
                     (if visible then _process_whens self (ArgPayload p) w1
                      else (w1, [])).2).
    { destruct visible; [apply process_whens_callables|].
      split; [apply same_callables_refl|constructor]. }
    destruct (if visible then _ else _) as [w2 calls]. simpl in H2.
    destruct H2 as [Hs2 Hr2].
    destruct (purge_at C self w2) as [w3 e3] eqn:Hpu.
    pose proof (same_watchers_callables _ _ (purge_at_watchers C _ _ _ _ Hpu)) as Hs3.
    simpl. split.
    + eapply same_callables_trans; [exact Hs1|].
      by eapply same_callables_trans.
    + apply Forall_app. split; [done|].
      eapply Forall_impl; [exact Hr2|]. intros e. by apply as_registered_same.
  - unfold merge_tags. destruct (heap w !! self) as [m|] eqn:Hm.
    2: { split; [apply same_callables_refl|constructor]. }
    set (m' := set_tags (tags m ∪ list_to_set new_tags) m).
    assert (Hs1 : same_callables w (store self m' w)).
    { by apply (same_callables_store _ _ m). }
    destruct (process_whens_callables self (ArgTaglist new_tags) (store self m' w))
      as [Hs2 Hr2].
    destruct (_process_whens self (ArgTaglist new_tags) (store self m' w))
      as [w2 calls]. simpl in *. split.
    + by eapply same_callables_trans.
    + do 2 (constructor; [done|]).
      eapply Forall_impl; [exact Hr2|]. intros e. by apply as_registered_same.
Qed.

Lemma run_callables ops w :
  Forall (as_registered w) (run C ops w).1.2.
Proof.
  revert w. induction ops as [|o ops IH]; intros w; [constructor|]. simpl.
  destruct (step_callables o w) as [Hs Hr].
  destruct (step C o w) as [[w1 evs1] [e1|]]; [done|].
  specialize (IH w1). destruct (run C ops w1) as [[w2 evs2] e2]. simpl in *.
  apply Forall_app. split; [done|].
  eapply Forall_impl; [exact IH|]. intros e. by apply as_registered_same.
Qed.

Lemma callables_lookup key wm a fg :
  NoDup wm.*1 → assoc key wm = Some a → (key, fg) ∈ callables wm →
  fg = (ontrue a, onfalseaftertrue a).
Proof.
  induction wm as [|[k a0] wm IH]; [done|].
  intros Hnd Ha Hin. rewrite fmap_cons in Hnd. apply NoDup_cons in Hnd as [Hk Hnd].
  change (callables ((k, a0) :: wm))
    with ((k, (ontrue a0, onfalseaftertrue a0)) :: callables wm) in Hin.
  cbn [assoc] in Ha. apply elem_of_cons in Hin as [Heq|Hin].
  - injection Heq as Hkey Hfg. subst k fg.
    rewrite decide_True in Ha by done. by injection Ha as ->.
  - destruct (decide (k = key)) as [->|Hne]; [|by apply IH].
    exfalso. apply Hk. apply list_elem_of_fmap in Hin as ([k' a'] & Heq & Hin).
    cbn [fst snd] in Heq. injection Heq as Hk' _. subst k'.
    apply list_elem_of_fmap. by exists (key, a').
Qed.

(** From its registration on, the calls of a watcher are calls of the two
    callables it was registered with, each for its edge. *)
Lemma when_run_callables w owner key cond f g w1 evs1 mo ops :
  heap w !! owner = Some mo → NoDup (whenmap mo).*1 →
  when owner key cond f g w = (w1, evs1) →
  Forall (λ ev, ∀ which f' args,
            ev = Call owner key which f' args → f' = callable_of f g which)
    (evs1 ++ (run C ops w1).1.2).
Proof.
  intros Hmo Hnd. unfold when. rewrite Hmo.
  set (a := {| condition := cond; ontrue := f; onfalseaftertrue := g;
               matchedset := ∅ |}).
  set (m := set_whenmap (dict_set key a (whenmap mo)) mo).
  intros Hp.
  assert (Hm : heap (store owner m w) !! owner = Some m).
  { apply store_lookup_eq. by rewrite Hmo. }
  destruct (process_whens_callables owner (ArgValue VNone) (store owner m w))
    as [Hs1 Hr1].
  rewrite Hp in Hs1, Hr1. simpl in Hs1, Hr1.
  pose proof (run_callables ops w1) as Hr2.
  assert (Hall : Forall (as_registered (store owner m w))
                   (evs1 ++ (run C ops w1).1.2)).
  { apply Forall_app. split; [done|].
    eapply Forall_impl; [exact Hr2|]. intros e. by apply as_registered_same. }
  eapply Forall_impl; [exact Hall|].
  intros e Hreg which f' args ->. simpl in Hreg.
  destruct Hreg as (mo' & fg & Hmo' & Hin & ->).
  change (heap (store owner m w) !! owner = Some mo') in Hmo'.
  rewrite Hm in Hmo'. injection Hmo' as <-. simpl in Hin.
  rewrite (callables_lookup key _ a fg) by
    (first [by apply dict_set_keys|apply assoc_dict_set|done]).
  done.
Qed.

Lemma omap_call_made w owner key u f g evs :
  Forall (λ ev, ∀ which f' args,
            ev = Call owner key which f' args → f' = callable_of f g which) evs →
  omap (call_made w owner key u) evs
  = (λ which, (which, callable_of f g which))
      <$> omap (call_edge w owner key u) evs.
Proof.
  induction 1 as [|ev evs Hev _ IH]; [done|]. simpl.
  destruct ev as [|o k which f' args]; [exact IH|]. simpl.
  destruct args as [|[self| | | |] args]; try exact IH.
  case_bool_decide as Hc; [|exact IH].
  destruct Hc as (-> & -> & _). rewrite (Hev which f' _ eq_refl).
  rewrite fmap_cons. f_equal. exact IH.
Qed.
End WatcherCallables.

(** C7. From its registration by [when] on, and through any sequence of
    merges and tag merges, the callables of a watcher are called along the
    values [bs] that its condition takes at the successive evaluations
    concerning it (the one [when] makes, then one per visible merge and per
    tag merge of a model it watches), counted from "false": the callable
    registered as [ontrue] once for each passage from false to true, the
    callable registered as [onfalseaftertrue] once for each passage from
    true to false, nothing as long as the value stays.  This holds for a
    watcher of a model and for a watcher of [Model.All], which is followed
    model by model ([u] is the uid of the model looked at).  In particular
    the values false, true, false give one call of [ontrue], then one of
    [onfalseaftertrue], and no more. *)
Theorem C7_watchers_edge_triggered (C : constants) (w w1 w2 : world)
    (owner : addr) (key : nat) (cond : snapshot → bool) (f g : callback)
    (mo : Model) (ops : list op) (evs1 evs2 : list event) (e : option exn) (u : Z) :
  All_ok w → heap w !! owner = Some mo → NoDup (whenmap mo).*1 →
  when owner key cond f g w = (w1, evs1) →
  run C ops w1 = (w2, evs2, e) →
  let bs := sampled w owner u cond (registration owner w ++ evaluations C ops w1) in
  omap (call_made w owner key u) (evs1 ++ evs2)
  = (λ which, (which, callable_of f g which)) <$> edges false bs
  ∧ omap (call_edge w owner key u) (evs1 ++ evs2) = edges false bs
  ∧ (bs = [false; true; false] →
     omap (call_made w owner key u) (evs1 ++ evs2)
     = [(OnTrue, f); (OnFalseAfterTrue, g)]).
Proof.
  intros Hok Hmo Hnd Hwhen Hrun bs.
  assert (Hcalls : omap (call_edge w owner key u) (evs1 ++ evs2) = edges false bs).
  { destruct (when_sampled _ _ _ _ _ _ _ _ _ Hok Hmo Hnd Hwhen)
      as (a' & Hw1 & Hc & Hreg).
    destruct (Hreg u) as [H1 H2]. simpl in H1, H2.
    rewrite omap_app, H1, (run_sampled C w _ _ _ _ _ _ _ _ u Hw1 Hrun), H2, Hc.
    unfold bs. by rewrite sampled_app, edges_app. }
  assert (Hmade : omap (call_made w owner key u) (evs1 ++ evs2)
                  = (λ which, (which, callable_of f g which)) <$> edges false bs).
  { rewrite <- Hcalls. apply omap_call_made.
    pose proof (when_run_callables C w owner key cond f g w1 evs1 mo ops
                  Hmo Hnd Hwhen) as H.
    by rewrite Hrun in H. }
  split_and!; [done|done|]. intros Hbs. by rewrite Hmade, Hbs.
Qed.

Lemma C7_watchers_edge_triggered_witness :
  omap (call_made sample_world 1%nat 0%nat 7)
    (sample_registered.2 ++ (run mfc sample_ops sample_registered.1).1.2)
  = (λ which, (which, callable_of 0%nat 1%nat which))
      <$> edges false
            (sampled sample_world 1%nat 7 session1_live
               (registration 1%nat sample_world
                ++ evaluations mfc sample_ops sample_registered.1))
  ∧ omap (call_edge sample_world 1%nat 0%nat 7)
      (sample_registered.2 ++ (run mfc sample_ops sample_registered.1).1.2)
    = edges false
        (sampled sample_world 1%nat 7 session1_live
           (registration 1%nat sample_world
            ++ evaluations mfc sample_ops sample_registered.1))
  ∧ (sampled sample_world 1%nat 7 session1_live
       (registration 1%nat sample_world
        ++ evaluations mfc sample_ops sample_registered.1)
     = [false; true; false] →
     omap (call_made sample_world 1%nat 0%nat 7)
       (sample_registered.2 ++ (run mfc sample_ops sample_registered.1).1.2)
     = [(OnTrue, 0%nat); (OnFalseAfterTrue, 1%nat)]).
Proof.
  apply (C7_watchers_edge_triggered mfc sample_world sample_registered.1
           (run mfc sample_ops sample_registered.1).1.1 1%nat 0%nat
           session1_live 0%nat 1%nat (Model_init 7) sample_ops
           sample_registered.2 (run mfc sample_ops sample_registered.1).1.2
           (run mfc sample_ops sample_registered.1).2 7).
  - exists (Model_init (-500)). split; reflexivity.
  - reflexivity.
  - simpl. apply NoDup_nil_2.
  - reflexivity.
  - vm_compute. reflexivity.
Defined.

(** The watcher of the witness sees session 1 come online and go offline:
    its condition is false on registration, true at the first merge and
    false at the second. *)
Example watcher_flip :
  sampled sample_world 1%nat 7 session1_live
    (registration 1%nat sample_world
     ++ evaluations mfc sample_ops sample_registered.1)
  = [false; true; false].
Proof. vm_compute. reflexivity. Qed.

(** ** Visibility *)

Section Visibility.
Variable C : constants.
Implicit Types (ks : sessions) (r : row).

Lemma completed_offline r : is_offline C (completed C r) = is_offline C r.
Proof.
  unfold is_offline at 1. rewrite completed_lookup. unfold is_offline.
  destruct (r !! "vs") as [v|]; [done|]. simpl. by apply bool_decide_eq_true.
Qed.

Lemma completed_flagged r : flagged (completed C r) = flagged r.
Proof.
  unfold flagged. rewrite completed_lookup.
  destruct (r !! "model_sw") as [v|]; [done|]. simpl.
  by destruct (is_offline C r).
Qed.

Lemma completed_idem r : completed C (completed C r) = completed C r.
Proof.
  apply map_eq. intros key. rewrite completed_lookup, completed_offline.
  destruct (completed C r !! key) eqn:E; [done|].
  rewrite completed_lookup in E. destruct (r !! key); [done|].
  destruct (decide (key = "vs"%string)); [done|].
  destruct (decide (key = "model_sw"%string)); done.
Qed.

Lemma next_acc_completed acc k r :
  next_acc C acc k (completed C r) = next_acc C acc k r.
Proof. unfold next_acc. by rewrite completed_offline, completed_flagged. Qed.

Lemma best_loop_completed acc ks :
  (best_loop C acc ((λ kr, (kr.1, completed C kr.2)) <$> ks)).1
  = (best_loop C acc ks).1.
Proof.
  revert acc. induction ks as [|[k r] ks IH]; intros acc; [done|].
  rewrite fmap_cons. cbn [fst snd].
  rewrite (best_loop_cons C acc k (completed C r)), (best_loop_cons C acc k r).
  rewrite next_acc_completed. apply IH.
Qed.

(** Asking for the best session again gives the same answer and changes
    nothing more. *)
Lemma bestsessionid_again ks :
  bestsessionid C (bestsessionid C ks).2
  = ((bestsessionid C ks).1, (bestsessionid C ks).2).
Proof.
  apply injective_projections; simpl.
  - rewrite !bestsessionid_fst, bestsessionid_snd. by rewrite best_loop_completed.
  - rewrite !bestsessionid_snd, <- list_fmap_compose. apply list_fmap_ext.
    intros i [k r] _. simpl. by rewrite completed_idem.
Qed.

Lemma row_at_completed ck ks key :
  key ≠ "vs"%string → key ≠ "model_sw"%string →
  row_at ck (bestsessionid C ks).2 !! key = row_at ck ks !! key.
Proof.
  intros H1 H2. unfold row_at. rewrite bestsessionid_snd, assoc_fmap_rows.
  destruct (assoc ck ks) as [r|]; simpl; [|done].
  rewrite completed_lookup. destruct (r !! key); [done|].
  by rewrite !decide_False.
Qed.

(** Lines 124-125, in one formula. *)
Lemma merge_visible_spec ck ks :
  merge_visible C ck ks =
    match row_at ck ks !! "sid" with
    | None => (false, (bestsessionid C ks).2, Some KeyError)
    | Some sid =>
        (py_eq (VInt (bestsessionid C ks).1) sid
         || ((bestsessionid C ks).1 =? 0) && py_ne sid (VInt 0),
         (bestsessionid C ks).2, None)
    end.
Proof.
  unfold merge_visible.
  pose proof (row_at_completed ck ks "sid") as Hsid.
  pose proof (bestsessionid_again ks) as Hagain.
  destruct (bestsessionid C ks) as [best ks1]. cbn [fst snd] in *.
  rewrite Hsid by done. destruct (row_at ck ks !! "sid") as [sid|]; [|done].
  destruct (py_eq (VInt best) sid); [done|]. rewrite Hagain.
  rewrite orb_false_l. destruct (best =? 0); [|done]. by rewrite Hsid.
Qed.

(** A successful update leaves the current session with a ["sid"]. *)
Lemma merge_update_sid uid p ks u :
  merge_update C uid p ks = (u, None) →
  is_Some (row_at (u_cur u) (u_sessions u) !! "sid").
Proof.
  unfold merge_update. destruct (bestsession C uid ks) as [pk ks1].
  destruct (payload_sid p) as [ck|e]; [|done].
  destruct (merge_fields C pk ck p _) as [[ks3 stack] [e|]]; [done|].
  destruct (row_at ck ks3 !! "sid") as [cursid|] eqn:Hc; [|done].
  destruct (row_at pk ks3 !! "sid") as [prevsid|]; [|done].
  destruct (py_ne cursid prevsid); intros [= <-]; simpl; by rewrite Hc.
Qed.
End Visibility.

(** C1, amended.  For a model other than [Model.All] and a payload that
    passes the assertions and is applied without error, the merge is
    visible if and only if the id of the best session, computed after the
    update, is the ["sid"] entry of the updated session's row (the
    payload's ["sid"], unless a group of the payload writes another one),
    or that id, computed after the update, is 0 while that ["sid"] entry is
    not 0.  A visible merge emits the property changes and the catch-all,
    and then runs the watcher engine on the updated model with the payload:
    the events of the merge are these emissions followed by the calls that
    [_process_whens] makes, and the purge works on the state that
    [_process_whens] leaves.  A merge that is not visible emits nothing and
    does not run the watcher engine: it only purges. *)
Theorem C1_merge_visibility (C : constants) (self : addr) (p : payload)
    (w : world) (m : Model) (u : updated) :
  heap w !! self = Some m → uid m ≠ -500 → level_ok C p = true →
  merge_update C (uid m) p (knownsessions m) = (u, None) →
  ∃ (sid : value) (visible : bool) (w1 : world) (m1 : Model),
    row_at (u_cur u) (u_sessions u) !! "sid" = Some sid
    ∧ (visible = true ↔
         py_eq (VInt (bestsessionid C (u_sessions u)).1) sid = true
         ∨ ((bestsessionid C (u_sessions u)).1 = 0 ∧ py_ne sid (VInt 0) = true))
    ∧ merge_apply C self p w
        = (w1,
           if visible
           then emit_changes self (All w) (u_stack u) ++ emit_any self (All w) p
           else [],
           None, visible)
    ∧ heap w1 !! self = Some m1
    ∧ evaluation C (OpMerge self p) w
      = (if visible then Some (self, snapshot_of m1) else None)
    ∧ (visible = true →
       merge C self p w
       = ((purge_at C self (_process_whens self (ArgPayload p) w1).1).1,
          emit_changes self (All w) (u_stack u) ++ emit_any self (All w) p
          ++ (_process_whens self (ArgPayload p) w1).2,
          (purge_at C self (_process_whens self (ArgPayload p) w1).1).2))
    ∧ (visible = false →
       merge C self p w = ((purge_at C self w1).1, [], (purge_at C self w1).2))
    ∧ Forall (λ ev, is_call ev = true) (_process_whens self (ArgPayload p) w1).2.
Proof.
  intros Hm Hid Hlv Hu.
  destruct (merge_update_sid C _ _ _ _ Hu) as [sid Hsid].
  set (best := (bestsessionid C (u_sessions u)).1).
  set (visible := py_eq (VInt best) sid || (best =? 0) && py_ne sid (VInt 0)).
  assert (Hvis : visible = true ↔
            py_eq (VInt best) sid = true ∨ (best = 0 ∧ py_ne sid (VInt 0) = true)).
  { unfold visible. rewrite orb_true_iff, andb_true_iff, Z.eqb_eq. done. }
  assert (Happly : ∃ w1, merge_apply C self p w
            = (w1,
               if visible
               then emit_changes self (All w) (u_stack u) ++ emit_any self (All w) p
               else [],
               None, visible)).
  { unfold merge_apply. rewrite Hm, (bool_decide_eq_false_2 _ Hid), Hlv, Hu.
    simpl negb. cbv iota. rewrite merge_visible_spec, Hsid.
    fold best. fold visible. destruct visible.
    - destruct (update_nm C (uid m) (nm m) (bestsessionid C (u_sessions u)).2).
      by eexists.
    - by eexists. }
  destruct Happly as [w1 Happly].
  pose proof (merge_apply_allocated C _ _ _ _ _ _ Happly) as [m1 Hm1].
  exists sid, visible, w1, m1. split_and!; [done|done|done|done| | | |].
  - simpl. rewrite Happly, Hm1. by destruct visible.
  - intros Hv. unfold merge. rewrite Happly, Hv.
    destruct (_process_whens self (ArgPayload p) w1) as [w2 calls].
    cbn [fst snd]. destruct (purge_at C self w2) as [w3 e3]. cbn [fst snd].
    by rewrite <- app_assoc.
  - intros Hv. unfold merge. rewrite Happly, Hv.
    by destruct (purge_at C self w1) as [w3 e3].
  - apply process_whens_calls.
Qed.

Lemma C1_merge_visibility_witness :
  ∃ (sid : value) (visible : bool) (w1 : world) (m1 : Model),
    row_at 1 (merge_update mfc 7 sample_offline
                (knownsessions (Model_init 7))).1.(u_sessions) !! "sid" = Some sid
    ∧ (visible = true ↔
         py_eq (VInt (bestsessionid mfc
                        (merge_update mfc 7 sample_offline
                           (knownsessions (Model_init 7))).1.(u_sessions)).1) sid
           = true
         ∨ ((bestsessionid mfc
               (merge_update mfc 7 sample_offline
                  (knownsessions (Model_init 7))).1.(u_sessions)).1 = 0
            ∧ py_ne sid (VInt 0) = true))
    ∧ merge_apply mfc 1%nat sample_offline sample_world
        = (w1,
           if visible
           then emit_changes 1%nat 0%nat
                  (merge_update mfc 7 sample_offline
                     (knownsessions (Model_init 7))).1.(u_stack)
                ++ emit_any 1%nat 0%nat sample_offline
           else [],
           None, visible)
    ∧ heap w1 !! 1%nat = Some m1
    ∧ evaluation mfc (OpMerge 1%nat sample_offline) sample_world
      = (if visible then Some (1%nat, snapshot_of m1) else None)
    ∧ (visible = true →
       merge mfc 1%nat sample_offline sample_world
       = ((purge_at mfc 1%nat
             (_process_whens 1%nat (ArgPayload sample_offline) w1).1).1,
          emit_changes 1%nat 0%nat
            (merge_update mfc 7 sample_offline
               (knownsessions (Model_init 7))).1.(u_stack)
          ++ emit_any 1%nat 0%nat sample_offline
          ++ (_process_whens 1%nat (ArgPayload sample_offline) w1).2,
          (purge_at mfc 1%nat
             (_process_whens 1%nat (ArgPayload sample_offline) w1).1).2))
    ∧ (visible = false →
       merge mfc 1%nat sample_offline sample_world
       = ((purge_at mfc 1%nat w1).1, [], (purge_at mfc 1%nat w1).2))
    ∧ Forall (λ ev, is_call ev = true)
        (_process_whens 1%nat (ArgPayload sample_offline) w1).2.
Proof.
  apply (C1_merge_visibility mfc 1%nat sample_offline sample_world (Model_init 7)
           (merge_update mfc 7 sample_offline (knownsessions (Model_init 7))).1).
  - reflexivity.
  - done.
  - reflexivity.
  - vm_compute. reflexivity.
Defined.

(** C1 as stated fails.  On the sample model with session 1 online, whose
    best session has id 1, the payload that takes session 1 offline is
    applied: afterwards the best id is 0, so the updated session (of "sid"
    1) is not the best one, and the baseline id was 1, not 0; yet the merge
    is visible, and emits the catch-all. *)
Lemma C1_counterexample_baseline :
  ∃ (m : Model) (u : updated),
    heap sample_online_world !! 1%nat = Some m
    ∧ uid m = 7
    ∧ (bestsessionid mfc (knownsessions m)).1 = 1
    ∧ merge_update mfc (uid m) sample_offline (knownsessions m) = (u, None)
    ∧ (bestsessionid mfc (u_sessions u)).1 = 0
    ∧ row_at (u_cur u) (u_sessions u) !! "sid" = Some (VInt 1)
    ∧ (merge_apply mfc 1%nat sample_offline sample_online_world).2 = true
    ∧ (merge mfc 1%nat sample_offline sample_online_world).1.2
      = [Emit 1%nat "vs" [ArgModel 1%nat; ArgValue (VInt 90); ArgValue (VInt 127)];
         Emit 0%nat "vs" [ArgModel 1%nat; ArgValue (VInt 90); ArgValue (VInt 127)];
         Emit 1%nat "ANY" [ArgModel 1%nat; ArgPayload sample_offline];
         Emit 0%nat "ANY" [ArgModel 1%nat; ArgPayload sample_offline]]
    ∧ ¬ ((merge_apply mfc 1%nat sample_offline sample_online_world).2 = true
         ↔ py_eq (VInt (bestsessionid mfc (u_sessions u)).1) (VInt 1) = true
           ∨ ((bestsessionid mfc (knownsessions m)).1 = 0
              ∧ py_ne (VInt 1) (VInt 0) = true)).
Proof.
  eexists _, _. split_and!.
  - vm_compute. reflexivity.
  - reflexivity.
  - vm_compute. reflexivity.
  - vm_compute. reflexivity.
  - vm_compute. reflexivity.
  - vm_compute. reflexivity.
  - vm_compute. reflexivity.
  - vm_compute. reflexivity.
  - intros [Hv _]. destruct Hv as [Hv|[Hv _]].
    + vm_compute. reflexivity.
    + vm_compute in Hv. discriminate.
    + vm_compute in Hv. discriminate.
Qed.

(** ** The loop over the payload *)

Section Fields.
Variable C : constants.
Implicit Types (ks : sessions) (r : row) (p : payload) (st : list stackitem).

Lemma atom_eq_refl a : atom_eq a a = true.
Proof. destruct a; simpl; try done; by apply bool_decide_eq_true. Qed.

Lemma py_eq_refl v : py_eq v v = true.
Proof.
  destruct v as [a|d]; simpl; [apply atom_eq_refl|].
  unfold dict_eq. apply forallb_forall. intros k _.
  destruct (assoc k d); simpl; [apply atom_eq_refl|done].
Qed.

Lemma py_eq_int_sym n v : py_eq v (VInt n) = py_eq (VInt n) v.
Proof.
  destruct v as [a|d]; [|done]. destruct a; simpl; try done;
    apply bool_decide_ext; split; congruence.
Qed.

Lemma assoc_dict_alter {V} (f : V → V) (k k' : Z) (d : list (Z * V)) :
  assoc k' (dict_alter f k d)
  = if decide (k = k') then f <$> assoc k' d else assoc k' d.
Proof.
  induction d as [|[k0 v0] d IH]; simpl; [by case_decide|].
  destruct (decide (k0 = k)) as [->|Hne]; simpl.
  - destruct (decide (k = k')); done.
  - destruct (decide (k0 = k')) as [->|Hne']; [|done].
    by rewrite decide_False.
Qed.

Lemma dict_alter_id {V} (f : V → V) (k : Z) (d : list (Z * V)) :
  (∀ v, assoc k d = Some v → f v = v) → dict_alter f k d = d.
Proof.
  induction d as [|[k0 v0] d IH]; simpl; [done|]. intros Hf.
  destruct (decide (k0 = k)) as [->|Hne].
  - by rewrite Hf.
  - by rewrite IH.
Qed.

Lemma row_at_set_key ck key v ks :
  is_Some (assoc ck ks) →
  row_at ck (set_key ck key v ks) = <[key := v]> (row_at ck ks).
Proof.
  intros [r Hr]. unfold row_at, set_key.
  by rewrite assoc_dict_alter, decide_True, Hr.
Qed.

Lemma set_key_is_Some k ck key v ks :
  is_Some (assoc k (set_key ck key v ks)) ↔ is_Some (assoc k ks).
Proof.
  unfold set_key. rewrite assoc_dict_alter.
  destruct (decide (ck = k)); [|done]. by rewrite fmap_is_Some.
Qed.

Lemma set_key_id ck key v ks :
  row_at ck ks !! key = Some v → set_key ck key v ks = ks.
Proof.
  intros Hv. apply dict_alter_id. intros r Hr.
  unfold row_at in Hv. rewrite Hr in Hv. by apply insert_id.
Qed.

Lemma write_all_app ws1 ws2 r :
  write_all (ws1 ++ ws2) r = write_all ws2 (write_all ws1 r).
Proof. unfold write_all. apply foldl_app. Qed.

Lemma write_all_other ws r k :
  k ∉ ws.*1 → write_all ws r !! k = r !! k.
Proof.
  revert r. induction ws as [|[k0 v0] ws IH]; intros r Hk; [done|].
  simpl in *. apply not_elem_of_cons in Hk as [Hne Hk].
  rewrite IH by done. by rewrite lookup_insert_ne.
Qed.

(** With pairwise distinct names every write is still there at the end. *)
Lemma write_all_lookup ws r k v :
  NoDup ws.*1 → (k, v) ∈ ws → write_all ws r !! k = Some v.
Proof.
  revert r. induction ws as [|[k0 v0] ws IH]; intros r Hnd Hin.
  - by apply elem_of_nil in Hin.
  - simpl in *. apply NoDup_cons in Hnd as [Hk0 Hnd].
    apply elem_of_cons in Hin as [[= -> ->]|Hin].
    + rewrite write_all_other by done. apply lookup_insert_eq.
    + by apply IH.
Qed.

Lemma write_all_is_Some ws r k :
  k ∈ ws.*1 → is_Some (write_all ws r !! k).
Proof.
  revert r. induction ws as [|[k0 v0] ws IH]; intros r Hin.
  - by apply elem_of_nil in Hin.
  - simpl in *. destruct (decide (k ∈ ws.*1)) as [Hk|Hk]; [by apply IH|].
    apply elem_of_cons in Hin as [->|Hin]; [|done].
    rewrite write_all_other by done. rewrite lookup_insert_eq. by eexists.
Qed.

Lemma write_all_settled ws r :
  (∀ k v, (k, v) ∈ ws → r !! k = Some v) → write_all ws r = r.
Proof.
  revert r. induction ws as [|[k0 v0] ws IH]; intros r Hs; [done|].
  simpl. rewrite insert_id by (apply Hs, list_elem_of_here).
  apply IH. intros k v Hin. by apply Hs, list_elem_of_further.
Qed.

Lemma row_at_store_flags ck flags ks :
  is_Some (assoc ck ks) →
  is_Some (assoc ck (store_flags C ck flags ks))
  ∧ row_at ck (store_flags C ck flags ks) = write_all (derived C flags) (row_at ck ks).
Proof.
  intros Hs. unfold store_flags, derived, write_all. simpl.
  rewrite !set_key_is_Some. split; [done|].
  rewrite !row_at_set_key; [done|by rewrite ?set_key_is_Some..].
Qed.

Lemma store_flags_settled ck flags ks :
  (∀ k v, (k, v) ∈ derived C flags → row_at ck ks !! k = Some v) →
  store_flags C ck flags ks = ks.
Proof.
  intros Hs. unfold store_flags.
  rewrite (set_key_id ck "truepvt") by (apply Hs; set_solver).
  rewrite (set_key_id ck "guests_muted") by (apply Hs; set_solver).
  rewrite (set_key_id ck "basics_muted") by (apply Hs; set_solver).
  rewrite (set_key_id ck "model_sw") by (apply Hs; set_solver).
  done.
Qed.
End Fields.

Section FieldsLoop.
Variable C : constants.
Implicit Types (ks : sessions) (r : row) (p : payload) (st : list stackitem).

Lemma group_writes_cons key key2 a kvs :
  group_writes C key ((key2, a) :: kvs)
  = ((key2, VAtom a)
     :: (if bool_decide (key = "m"%string) && bool_decide (key2 = "flags"%string)
         then from_option (derived C) [] (as_int a) else []))
    ++ group_writes C key kvs.
Proof. done. Qed.

Lemma writes_cons key v p :
  writes C ((key, v) :: p)
  = (if is_group_key key then
       match v with VDict kvs => group_writes C key kvs | _ => [] end
     else [(key, v)]) ++ writes C p.
Proof. done. Qed.

Lemma leaf_names_cons key v p :
  leaf_names ((key, v) :: p)
  = (if is_group_key key then
       match v with VDict kvs => kvs.*1 | _ => [] end
     else [key]) ++ leaf_names p.
Proof. done. Qed.

(** What a group does to the current session and to [callbackstack]. *)
Lemma merge_group_row pk ck key kvs ks st ks' st' :
  merge_group C pk ck key kvs (ks, st) = (ks', st', None) →
  is_Some (assoc ck ks) →
  is_Some (assoc ck ks')
  ∧ row_at ck ks' = write_all (group_writes C key kvs) (row_at ck ks)
  ∧ st'.*1.*1 = st.*1.*1 ++ kvs.*1.
Proof.
  revert ks st. induction kvs as [|[key2 a] kvs IH]; intros ks st Hg Hs.
  - injection Hg as <- <-. by rewrite app_nil_r.
  - rewrite group_writes_cons, write_all_app. simpl in Hg.
    assert (Hs1 : is_Some (assoc ck (set_key ck key2 (VAtom a) ks)))
      by (by apply set_key_is_Some).
    assert (Hnames : (st ++ [(key2, before_of pk ks key2, VAtom a)]).*1.*1 ++ kvs.*1
                     = st.*1.*1 ++ ((key2, a) :: kvs).*1).
    { rewrite !fmap_app, <- app_assoc. done. }
    destruct (bool_decide (key = "m"%string) && bool_decide (key2 = "flags"%string)).
    + destruct (as_int a) as [flags|]; [|done]. simpl.
      destruct (row_at_store_flags C ck flags _ Hs1) as [Hs2 Hrow].
      destruct (IH _ _ Hg Hs2) as (Hs' & Hr' & Hn').
      split_and!; [done| |by rewrite Hn'].
      rewrite Hr', Hrow, row_at_set_key by done. done.
    + destruct (IH _ _ Hg Hs1) as (Hs' & Hr' & Hn').
      split_and!; [done| |by rewrite Hn'].
      rewrite Hr', row_at_set_key by done. done.
Qed.

Lemma merge_fields_row pk ck p ks st ks' st' :
  merge_fields C pk ck p (ks, st) = (ks', st', None) →
  is_Some (assoc ck ks) →
  is_Some (assoc ck ks')
  ∧ row_at ck ks' = write_all (writes C p) (row_at ck ks)
  ∧ st'.*1.*1 = st.*1.*1 ++ leaf_names p.
Proof.
  revert ks st. induction p as [|[key v] p IH]; intros ks st Hf Hs.
  - injection Hf as <- <-. by rewrite app_nil_r.
  - rewrite writes_cons, leaf_names_cons, write_all_app. simpl in Hf.
    destruct (is_group_key key).
    + destruct v as [a|kvs].
      * destruct a as [| | |s]; try done. destruct s; [|done].
        destruct (IH _ _ Hf Hs) as (Hs' & Hr' & Hn'). done.
      * destruct (merge_group C pk ck key kvs (ks, st)) as [[ks1 st1] [e|]] eqn:Hg;
          [done|].
        destruct (merge_group_row _ _ _ _ _ _ _ _ Hg Hs) as (Hs1 & Hr1 & Hn1).
        destruct (IH _ _ Hf Hs1) as (Hs' & Hr' & Hn').
        split_and!; [done|by rewrite Hr', Hr1|by rewrite Hn', Hn1, app_assoc].
    + unfold merge_leaf in Hf. simpl in Hf.
      assert (Hs1 : is_Some (assoc ck (set_key ck key v ks)))
        by (by apply set_key_is_Some).
      destruct (IH _ _ Hf Hs1) as (Hs' & Hr' & Hn').
      split_and!; [done| |].
      * rewrite Hr', row_at_set_key by done. done.
      * rewrite Hn', !fmap_app, <- app_assoc. done.
Qed.

(** Whether the loop raises depends on the payload alone. *)
Lemma merge_group_error pk ck pk' ck' key kvs s s' :
  (merge_group C pk ck key kvs s).2 = (merge_group C pk' ck' key kvs s').2.
Proof.
  revert s s'. induction kvs as [|[key2 a] kvs IH]; intros s s'; [done|].
  simpl.
  destruct (bool_decide (key = "m"%string) && bool_decide (key2 = "flags"%string)).
  - destruct (as_int a); [apply IH|done].
  - apply IH.
Qed.

Lemma merge_fields_error pk ck pk' ck' p s s' :
  (merge_fields C pk ck p s).2 = (merge_fields C pk' ck' p s').2.
Proof.
  revert s s'. induction p as [|[key v] p IH]; intros s s'; [done|].
  simpl. destruct (is_group_key key); [|apply IH].
  destruct v as [a|kvs].
  - destruct a as [| | |str]; try done. destruct str; [apply IH|done].
  - pose proof (merge_group_error pk ck pk' ck' key kvs s s') as He.
    destruct (merge_group C pk ck key kvs s) as [s1 e1].
    destruct (merge_group C pk' ck' key kvs s') as [s1' e1'].
    simpl in He. subst e1'. destruct e1; [done|apply IH].
Qed.

(** On a session that is both the previous and the current one and already
    holds what the payload writes, the loop changes nothing and records
    only entries without effect. *)
Lemma merge_group_settled ck key kvs ks st :
  (∀ k v, (k, v) ∈ group_writes C key kvs → row_at ck ks !! k = Some v) →
  Forall quiet st →
  ∃ st' e, merge_group C ck ck key kvs (ks, st) = (ks, st', e) ∧ Forall quiet st'.
Proof.
  revert st. induction kvs as [|[key2 a] kvs IH]; intros st Hset Hq.
  - by exists st, None.
  - rewrite group_writes_cons in Hset.
    assert (Ha : row_at ck ks !! key2 = Some (VAtom a)).
    { apply Hset. apply list_elem_of_here. }
    assert (Hleaf : merge_leaf ck ck key2 (VAtom a) (ks, st)
                    = (ks, st ++ [(key2, before_of ck ks key2, VAtom a)])).
    { unfold merge_leaf. simpl. by rewrite (set_key_id _ _ _ _ Ha). }
    assert (Hq1 : Forall quiet (st ++ [(key2, before_of ck ks key2, VAtom a)])).
    { apply Forall_app. split; [done|]. apply Forall_singleton.
      unfold quiet, before_of, py_ne. simpl. by rewrite Ha, py_eq_refl. }
    cbn [merge_group]. rewrite Hleaf. cbn [fst snd].
    destruct (bool_decide (key = "m"%string) && bool_decide (key2 = "flags"%string)).
    + destruct (as_int a) as [flags|];
        [|eexists _, _; split; [reflexivity|done]].
      change (from_option (derived C) [] (Some flags)) with (derived C flags) in Hset.
      rewrite store_flags_settled.
      * apply IH; [|done]. intros k v Hin. apply Hset.
        apply list_elem_of_further, elem_of_app. by right.
      * intros k v Hin. apply Hset.
        apply list_elem_of_further, elem_of_app. by left.
    + apply IH; [|done]. intros k v Hin. apply Hset.
      by apply list_elem_of_further.
Qed.

Lemma merge_fields_settled ck p ks st :
  (∀ k v, (k, v) ∈ writes C p → row_at ck ks !! k = Some v) →
  Forall quiet st →
  ∃ st' e, merge_fields C ck ck p (ks, st) = (ks, st', e) ∧ Forall quiet st'.
Proof.
  revert st. induction p as [|[key v] p IH]; intros st Hset Hq.
  - by exists st, None.
  - rewrite writes_cons in Hset. simpl.
    assert (Hrest : ∀ k v', (k, v') ∈ writes C p → row_at ck ks !! k = Some v').
    { intros k v' Hin. apply Hset, elem_of_app. by right. }
    destruct (is_group_key key).
    + destruct v as [a|kvs].
      * destruct a as [| | |s]; try (eexists _, _; split; [reflexivity|done]).
        destruct s; [by apply IH|eexists _, _; split; [reflexivity|done]].
      * destruct (merge_group_settled ck key kvs ks st) as (st1 & e1 & -> & Hq1);
          [|done|].
        { intros k v' Hin. apply Hset, elem_of_app. by left. }
        destruct e1; [eexists _, _; split; [reflexivity|done]|]. by apply IH.
    + unfold merge_leaf. simpl.
      assert (Ha : row_at ck ks !! key = Some v).
      { apply Hset, elem_of_app. left. apply list_elem_of_here. }
      rewrite (set_key_id _ _ _ _ Ha). apply IH; [done|].
      apply Forall_app. split; [done|]. apply Forall_singleton.
      unfold quiet, before_of, py_ne. simpl. by rewrite Ha, py_eq_refl.
Qed.

(** The names recorded are among the names written. *)
Lemma leaf_names_written p n : n ∈ leaf_names p → n ∈ (writes C p).*1.
Proof.
  induction p as [|[key v] p IH]; [done|].
  rewrite leaf_names_cons, writes_cons, fmap_app.
  intros [Hin|Hin]%elem_of_app; apply elem_of_app; [left|right; by apply IH].
  destruct (is_group_key key).
  - destruct v as [a|kvs]; [done|].
    induction kvs as [|[key2 a] kvs IHk]; [done|].
    rewrite group_writes_cons, fmap_app. rewrite fmap_cons in Hin.
    apply elem_of_cons in Hin as [->|Hin].
    + apply elem_of_app. left. apply list_elem_of_here.
    + apply elem_of_app. right. by apply IHk.
  - done.
Qed.

(** A top-level entry that is not a group is written as it is. *)
Lemma assoc_written key v p :
  is_group_key key = false → assoc key p = Some v → (key, v) ∈ writes C p.
Proof.
  intros Hk. induction p as [|[key0 v0] p IH]; [done|].
  simpl assoc. rewrite writes_cons. destruct (decide (key0 = key)) as [->|Hne].
  - intros [= ->]. rewrite Hk. apply list_elem_of_here.
  - intros Hin. apply elem_of_app. right. by apply IH.
Qed.
End FieldsLoop.

Section UpdateFacts.
Variable C : constants.
Implicit Types (ks : sessions) (r : row) (p : payload) (st : list stackitem).

Lemma assoc_app {K V} `{EqDecision K} (k : K) (d d' : list (K * V)) :
  assoc k (d ++ d') = match assoc k d with Some x => Some x | None => assoc k d' end.
Proof.
  induction d as [|[k0 v0] d IH]; simpl; [done|].
  by destruct (decide (k0 = k)).
Qed.

Lemma assoc_setdefault_eq {K V} `{EqDecision K} (k : K) (v : V) (d : list (K * V)) :
  is_Some (assoc k (dict_setdefault k v d)).
Proof.
  unfold dict_setdefault. destruct (assoc k d) as [x|] eqn:E.
  - by rewrite E.
  - rewrite assoc_app, E. simpl. by rewrite decide_True.
Qed.

Lemma assoc_setdefault_Some {K V} `{EqDecision K} (k k' : K) (v x : V)
    (d : list (K * V)) :
  assoc k' d = Some x → assoc k' (dict_setdefault k v d) = Some x.
Proof.
  intros Hx. unfold dict_setdefault. destruct (assoc k d); [done|].
  by rewrite assoc_app, Hx.
Qed.

Lemma cleared_names pk ck ks :
  (cleared pk ck ks).*1.*1 = elements (dom (row_at pk ks) ∖ dom (row_at ck ks)).
Proof.
  unfold cleared. rewrite <- !list_fmap_compose. apply list_fmap_id.
Qed.

(** What a successful update has established. *)
Lemma merge_update_inv uid p ks u :
  merge_update C uid p ks = (u, None) →
  payload_sid p = Ok (u_cur u)
  ∧ is_Some (assoc (u_cur u) (u_sessions u))
  ∧ (NoDup (writes C p).*1 →
     ∀ k v, (k, v) ∈ writes C p → row_at (u_cur u) (u_sessions u) !! k = Some v)
  ∧ (NoDup (leaf_names p) → NoDup (u_stack u).*1.*1)
  ∧ (∀ pk ck s, (merge_fields C pk ck p s).2 = None).
Proof.
  unfold merge_update. destruct (bestsession C uid ks) as [pk ks1].
  destruct (payload_sid p) as [ck|e]; [|done].
  pose proof (assoc_setdefault_eq ck (_default_session C uid) ks1) as Hs2.
  destruct (merge_fields C pk ck p _) as [[ks3 stack] [e|]] eqn:Hf; [done|].
  destruct (merge_fields_row _ _ _ _ _ _ _ _ Hf Hs2) as (Hs3 & Hrow & Hnames).
  simpl in Hnames.
  assert (Herr : ∀ pk' ck' s, (merge_fields C pk' ck' p s).2 = None).
  { intros pk' ck' s.
    rewrite (merge_fields_error C pk' ck' pk ck p s
               (dict_setdefault ck (_default_session C uid) ks1, [])).
    by rewrite Hf. }
  assert (Hwritten : NoDup (writes C p).*1 →
            ∀ k v, (k, v) ∈ writes C p → row_at ck ks3 !! k = Some v).
  { intros Hnd k v Hin. rewrite Hrow. by apply write_all_lookup. }
  destruct (row_at ck ks3 !! "sid") as [cursid|]; [|done].
  destruct (row_at pk ks3 !! "sid") as [prevsid|]; [|done].
  destruct (py_ne cursid prevsid); intros [= <-]; simpl;
    (split_and!; [done|done|done| |done]); intros Hnd.
  - rewrite !fmap_app, Hnames, cleared_names. apply NoDup_app. split_and!.
    + done.
    + intros n Hn Hcl. apply elem_of_elements, elem_of_difference in Hcl as [_ Hcl].
      apply Hcl, elem_of_dom. rewrite Hrow. apply write_all_is_Some.
      by apply leaf_names_written.
    + apply NoDup_elements.
  - by rewrite Hnames.
Qed.

(** ** The events of a visible merge *)

Lemma emit_changes_cons self all prop before after st :
  emit_changes self all ((prop, before, after) :: st)
  = (if py_ne before after then
       [Emit self prop [ArgModel self; ArgValue before; ArgValue after];
        Emit all prop [ArgModel self; ArgValue before; ArgValue after]]
     else []) ++ emit_changes self all st.
Proof. done. Qed.

(** A change is emitted, on the model and on [Model.All], for exactly the
    recorded entries whose two values differ. *)
Lemma elem_of_emit_changes self all st ev :
  ev ∈ emit_changes self all st ↔
  ∃ prop before after,
    (prop, before, after) ∈ st ∧ py_ne before after = true
    ∧ (ev = Emit self prop [ArgModel self; ArgValue before; ArgValue after]
       ∨ ev = Emit all prop [ArgModel self; ArgValue before; ArgValue after]).
Proof.
  induction st as [|[[prop before] after] st IH].
  - split; [by intros ?%elem_of_nil|]. by intros (? & ? & ? & ?%elem_of_nil & _).
  - rewrite emit_changes_cons, elem_of_app, IH. split.
    + intros [Hhd|(pr & b & a & Hin & Hne & Hev)].
      * destruct (py_ne before after) eqn:Hne; [|by apply elem_of_nil in Hhd].
        exists prop, before, after. split; [apply list_elem_of_here|].
        split; [done|]. apply elem_of_cons in Hhd as [->|Hhd]; [by left|].
        apply list_elem_of_singleton in Hhd. by right.
      * exists pr, b, a. split; [by apply list_elem_of_further|done].
    + intros (pr & b & a & Hin & Hne & Hev).
      apply elem_of_cons in Hin as [Heq|Hin].
      * injection Heq as Hpr Hb Ha. subst pr b a. left. rewrite Hne. destruct Hev as [-> | ->].
        -- apply list_elem_of_here.
        -- apply list_elem_of_further, list_elem_of_here.
      * right. by exists pr, b, a.
Qed.

Lemma emit_changes_quiet self all st :
  Forall quiet st → emit_changes self all st = [].
Proof.
  induction 1 as [|[[prop before] after] st Hq _ IH]; [done|].
  rewrite emit_changes_cons, IH. unfold quiet in Hq. simpl in Hq. by rewrite Hq.
Qed.

Lemma filter_is_any_changes self all st :
  List.filter is_any (emit_changes self all st) = [].
Proof.
  induction st as [|[[prop before] after] st IH]; [done|].
  rewrite emit_changes_cons, List.filter_app, IH, app_nil_r.
  by destruct (py_ne before after).
Qed.

Lemma filter_is_any_calls calls :
  Forall (λ ev, is_call ev = true) calls → List.filter is_any calls = [].
Proof.
  induction 1 as [|ev calls Hev _ IH]; [done|]. simpl.
  destruct ev; [done|]. exact IH.
Qed.

Lemma emitted_names_app em evs1 evs2 :
  emitted_names em (evs1 ++ evs2) = emitted_names em evs1 ++ emitted_names em evs2.
Proof. apply omap_app. Qed.

Lemma emitted_names_calls em calls :
  Forall (λ ev, is_call ev = true) calls → emitted_names em calls = [].
Proof.
  induction 1 as [|ev calls Hev _ IH]; [done|].
  destruct ev; [done|]. exact IH.
Qed.

(** With pairwise distinct recorded names, no name is emitted twice on the
    same emitter. *)
Lemma emitted_names_changes em self all st :
  self ≠ all → NoDup st.*1.*1 →
  NoDup (emitted_names em (emit_changes self all st))
  ∧ ∀ n, n ∈ emitted_names em (emit_changes self all st) → n ∈ st.*1.*1.
Proof.
  intros Hne. induction st as [|[[prop before] after] st IH]; intros Hnd.
  - split; [apply NoDup_nil_2|]. by intros n ?%elem_of_nil.
  - rewrite !fmap_cons in *. simpl in Hnd.
    apply NoDup_cons in Hnd as [Hprop Hnd]. destruct (IH Hnd) as [IH1 IH2].
    rewrite emit_changes_cons, emitted_names_app.
    assert (Hhd : ∀ n, n ∈ emitted_names em
                (if py_ne before after then
                   [Emit self prop [ArgModel self; ArgValue before; ArgValue after];
                    Emit all prop [ArgModel self; ArgValue before; ArgValue after]]
                 else []) → n = prop).
    { intros n. destruct (py_ne before after); simpl; [|by intros ?%elem_of_nil].
      repeat case_bool_decide; simpl;
        rewrite ?elem_of_cons; intros Hn; set_solver. }
    split.
    + apply NoDup_app. split_and!; [| |done].
      * destruct (py_ne before after); simpl; [|apply NoDup_nil_2].
        repeat case_bool_decide; simpl; try congruence;
          first [apply NoDup_singleton|apply NoDup_nil_2].
      * intros n Hn Hn'. apply Hhd in Hn as ->. by apply Hprop, IH2.
    + intros n [Hn|Hn]%elem_of_app.
      * apply Hhd in Hn as ->. apply list_elem_of_here.
      * apply list_elem_of_further. by apply IH2.
Qed.
End UpdateFacts.

Section MergeFacts.
Variable C : constants.
Implicit Types (ks : sessions) (r : row) (p : payload) (w : world).

Lemma completed_subseteq r : r ⊆ completed C r.
Proof.
  apply map_subseteq_spec. intros key v Hv. by rewrite completed_lookup, Hv.
Qed.

Lemma bestsession_eq uid ks :
  bestsession C uid ks
  = ((bestsessionid C ks).1,
     dict_setdefault (bestsessionid C ks).1 (_default_session C uid)
       (bestsessionid C ks).2).
Proof. unfold bestsession. by destruct (bestsessionid C ks). Qed.

Lemma bestsession_assoc uid ks k r0 :
  assoc k ks = Some r0 →
  assoc k (bestsession C uid ks).2 = Some (completed C r0).
Proof.
  intros Hk. rewrite bestsession_eq. simpl. apply assoc_setdefault_Some.
  by rewrite bestsessionid_snd, assoc_fmap_rows, Hk.
Qed.

Lemma bestsession_keeps uid ks k r0 :
  (∃ r, assoc k ks = Some r ∧ r0 ⊆ r) →
  ∃ r, assoc k (bestsession C uid ks).2 = Some r ∧ r0 ⊆ r.
Proof.
  intros (r & Hr & Hsub). exists (completed C r).
  split; [by apply bestsession_assoc|].
  etrans; [done|apply completed_subseteq].
Qed.

Lemma update_nm_keeps uid nm ks k r0 :
  assoc k ks = Some r0 →
  ∃ r, assoc k (update_nm C uid nm ks).2 = Some r ∧ r0 ⊆ r.
Proof.
  intros Hk. assert (H0 : ∃ r, assoc k ks = Some r ∧ r0 ⊆ r) by (by exists r0).
  unfold update_nm.
  pose proof (bestsession_keeps uid ks k r0 H0) as H1.
  destruct (bestsession C uid ks) as [b1 ks1]. simpl in H1.
  destruct (row_at b1 ks1 !! "nm"); [|done].
  pose proof (bestsession_keeps uid ks1 k r0 H1) as H2.
  destruct (bestsession C uid ks1) as [b2 ks2]. simpl in H2.
  destruct (py_ne _ nm); [|done].
  pose proof (bestsession_keeps uid ks2 k r0 H2) as H3.
  by destruct (bestsession C uid ks2) as [b3 ks3].
Qed.

(** [merge_apply], once the assertions and the update have passed. *)
Lemma merge_apply_eq self p w m u :
  heap w !! self = Some m → uid m ≠ -500 → level_ok C p = true →
  merge_update C (uid m) p (knownsessions m) = (u, None) →
  ∃ sid nm' ks',
    row_at (u_cur u) (u_sessions u) !! "sid" = Some sid
    ∧ (∀ k r0, assoc k (u_sessions u) = Some r0 →
         ∃ r, assoc k ks' = Some r ∧ r0 ⊆ r)
    ∧ merge_apply C self p w
      = (store self (set_nm nm' (set_knownsessions ks' m)) w,
         (if py_eq (VInt (bestsessionid C (u_sessions u)).1) sid
             || ((bestsessionid C (u_sessions u)).1 =? 0) && py_ne sid (VInt 0)
          then emit_changes self (All w) (u_stack u) ++ emit_any self (All w) p
          else []),
         None,
         py_eq (VInt (bestsessionid C (u_sessions u)).1) sid
         || ((bestsessionid C (u_sessions u)).1 =? 0) && py_ne sid (VInt 0)).
Proof.
  intros Hm Hid Hlv Hu.
  destruct (merge_update_sid C _ _ _ _ Hu) as [sid Hsid].
  assert (Hcomp : ∀ k r0, assoc k (u_sessions u) = Some r0 →
            ∃ r, assoc k (bestsessionid C (u_sessions u)).2 = Some r ∧ r0 ⊆ r).
  { intros k r0 Hk. exists (completed C r0).
    split; [|apply completed_subseteq].
    by rewrite bestsessionid_snd, assoc_fmap_rows, Hk. }
  unfold merge_apply. rewrite Hm, (bool_decide_eq_false_2 _ Hid), Hlv, Hu.
  simpl negb. cbv iota. rewrite merge_visible_spec, Hsid.
  destruct (py_eq (VInt (bestsessionid C (u_sessions u)).1) sid
            || ((bestsessionid C (u_sessions u)).1 =? 0) && py_ne sid (VInt 0))
    eqn:Hvis.
  - pose proof (update_nm_keeps (uid m) (nm m) (bestsessionid C (u_sessions u)).2)
      as Hnm.
    destruct (update_nm C (uid m) (nm m) (bestsessionid C (u_sessions u)).2)
      as [nm' ks2].
    exists sid, nm', ks2. split_and!; [done| |by rewrite Hvis].
    intros k r0 Hk. destruct (Hcomp k r0 Hk) as (r1 & Hr1 & Hsub1).
    destruct (Hnm k r1 Hr1) as (r2 & Hr2 & Hsub2). exists r2.
    split; [done|]. by etrans.
  - exists sid, (nm m), (bestsessionid C (u_sessions u)).2.
    split_and!; [done|done|by rewrite Hvis].
Qed.

Lemma merge_apply_inv self p w m w1 evs visible :
  heap w !! self = Some m →
  merge_apply C self p w = (w1, evs, None, visible) →
  uid m ≠ -500 ∧ level_ok C p = true
  ∧ ∃ u, merge_update C (uid m) p (knownsessions m) = (u, None).
Proof.
  intros Hm. unfold merge_apply. rewrite Hm.
  case_bool_decide as Hid; [done|].
  destruct (level_ok C p); [|done]. simpl.
  destruct (merge_update C (uid m) p (knownsessions m)) as [u [e|]]; [done|].
  intros _. split_and!; [done|done|by exists u].
Qed.

(** [merge], once [merge_apply] has returned. *)
Lemma merge_eq self p w w1 evs visible m1 :
  merge_apply C self p w = (w1, evs, None, visible) →
  heap w1 !! self = Some m1 →
  ∃ w' calls e,
    merge C self p w = (w', evs ++ calls, e)
    ∧ Forall (λ ev, is_call ev = true) calls
    ∧ (visible = false → calls = [])
    ∧ All w' = All w1
    ∧ (e = None →
       ∃ m', heap w' !! self = Some m' ∧ uid m' = uid m1
             ∧ ∀ k r, assoc k (knownsessions m') = Some r →
                      assoc k (knownsessions m1) = Some r).
Proof.
  intros Ha Hm1. unfold merge. rewrite Ha.
  assert (Hpurge : ∀ w2 m2 calls,
    heap w2 !! self = Some m2 → snapshot_of m2 = snapshot_of m1 →
    All w2 = All w1 → Forall (λ ev, is_call ev = true) calls →
    (visible = false → calls = []) →
    ∃ w' calls' e,
      (let '(w3, e3) := purge_at C self w2 in (w3, evs ++ calls, e3))
        = (w', evs ++ calls', e)
      ∧ Forall (λ ev, is_call ev = true) calls'
      ∧ (visible = false → calls' = [])
      ∧ All w' = All w1
      ∧ (e = None →
         ∃ m', heap w' !! self = Some m' ∧ uid m' = uid m1
               ∧ ∀ k r, assoc k (knownsessions m') = Some r →
                        assoc k (knownsessions m1) = Some r)).
  { intros w2 m2 calls Hm2 Hsnap HA Hc Hnv. unfold purge_at. rewrite Hm2.
    destruct (_purgeoldsessions C (knownsessions m2)) as [ks e] eqn:Hp.
    eexists _, calls, e. split_and!; [done|done|done|done|].
    intros ->. exists (set_knownsessions ks m2). split_and!.
    - apply store_lookup_eq. by rewrite Hm2.
    - change (s_uid (snapshot_of m2) = s_uid (snapshot_of m1)). by rewrite Hsnap.
    - simpl. intros k r Hk.
      destruct (purgeoldsessions_spec C _ _ Hp k r Hk) as [Hr _].
      change (assoc k (s_knownsessions (snapshot_of m1)) = Some r).
      by rewrite <- Hsnap. }
  destruct visible.
  - pose proof (process_whens_calls self (ArgPayload p) w1) as Hcalls.
    destruct (_process_whens self (ArgPayload p) w1) as [w2 calls] eqn:Hw.
    destruct (process_whens_lookup _ _ _ _ _ _ _ Hw Hm1) as (m2 & Hm2 & Hsnap).
    destruct (process_whens_frame _ _ _ _ _ Hw) as (_ & HA & _).
    by apply (Hpurge w2 m2 calls).
  - by apply (Hpurge w1 m1 []).
Qed.

(** The update on a session that is the best one and already holds what
    the payload writes. *)
Lemma merge_update_settled uid p ks ck r :
  payload_sid p = Ok ck → assoc ck ks = Some r → (bestsessionid C ks).1 = ck →
  (∀ k v, (k, v) ∈ writes C p → r !! k = Some v) → is_Some (r !! "sid") →
  (∀ pk ck' s, (merge_fields C pk ck' p s).2 = None) →
  ∃ stack,
    merge_update C uid p ks
    = ({| u_sessions := (bestsessionid C ks).2; u_prev := ck; u_cur := ck;
          u_stack := stack |}, None)
    ∧ Forall quiet stack.
Proof.
  intros Hsid Hr Hbest Hset [s Hs] Herr.
  assert (Hrow : assoc ck (bestsessionid C ks).2 = Some (completed C r)).
  { by rewrite bestsessionid_snd, assoc_fmap_rows, Hr. }
  assert (Hdef : dict_setdefault ck (_default_session C uid) (bestsessionid C ks).2
                 = (bestsessionid C ks).2).
  { unfold dict_setdefault. by rewrite Hrow. }
  assert (Hrat : row_at ck (bestsessionid C ks).2 = completed C r).
  { unfold row_at. by rewrite Hrow. }
  unfold merge_update. rewrite bestsession_eq, Hbest, Hsid, !Hdef.
  destruct (merge_fields_settled C ck p (bestsessionid C ks).2 []) as (st & e & Hf & Hq).
  { intros k v Hin. rewrite Hrat, completed_lookup. by rewrite (Hset k v Hin). }
  { constructor. }
  specialize (Herr ck ck ((bestsessionid C ks).2, [])). rewrite Hf in Herr.
  simpl in Herr. subst e. rewrite Hf, Hrat, completed_lookup, Hs.
  unfold py_ne. rewrite py_eq_refl. simpl. by exists st.
Qed.

(** Such a merge is visible. *)
Lemma settled_visible p ck r s :
  payload_sid p = Ok ck →
  (∀ k v, (k, v) ∈ writes C p → r !! k = Some v) → r !! "sid" = Some s →
  py_eq (VInt ck) s || (ck =? 0) && py_ne s (VInt 0) = true.
Proof.
  unfold payload_sid. intros Hsid Hset Hs.
  destruct (assoc "sid"%string p) as [v|] eqn:Hv.
  - destruct v as [a|d]; [|done].
    destruct (as_int a) as [n|] eqn:Ha; [|done]. injection Hsid as ->.
    assert (Hw : r !! "sid" = Some (VAtom a)).
    { apply Hset. by apply assoc_written. }
    assert (s = VAtom a) as -> by congruence.
    apply orb_true_iff. left.
    destruct a; simpl in *; try done; apply bool_decide_eq_true; congruence.
  - injection Hsid as <-. simpl. unfold py_ne. rewrite py_eq_int_sym.
    apply orb_negb_r.
Qed.
End MergeFacts.

Section Repeated.
Variable C : constants.
Implicit Types (ks : sessions) (r : row) (p : payload) (w : world).

(** The same payload merged again, when the session it addresses is still
    there and is the best one, and the names it writes are pairwise
    distinct: no property change, and the catch-all again. *)
Lemma merge_again self p w w' log m m' ck :
  heap w !! self = Some m →
  merge C self p w = (w', log, None) →
  heap w' !! self = Some m' →
  payload_sid p = Ok ck →
  is_Some (assoc ck (knownsessions m')) →
  (bestsessionid C (knownsessions m')).1 = ck →
  NoDup (writes C p).*1 →
  ∃ w2 calls2 e2,
    merge C self p w' = (w2, emit_any self (All w) p ++ calls2, e2)
    ∧ Forall (λ ev, is_call ev = true) calls2.
Proof.
  intros Hm Hmerge Hm' Hsid [r Hr] Hbest Hnd.
  destruct (merge_apply C self p w) as [[[w1 evs] e1] vis] eqn:Ha.
  assert (e1 = None) as ->.
  { unfold merge in Hmerge. rewrite Ha in Hmerge. by destruct e1. }
  destruct (merge_apply_inv C _ _ _ _ _ _ _ Hm Ha) as (Hid & Hlv & u & Hu).
  destruct (merge_apply_eq C _ _ _ _ _ Hm Hid Hlv Hu)
    as (sid1 & nm1 & ks1 & Hsid1 & Hrel & Ha').
  rewrite Ha in Ha'. injection Ha' as Hw1 _ _.
  assert (Hm1 : heap w1 !! self = Some (set_nm nm1 (set_knownsessions ks1 m))).
  { rewrite Hw1. apply store_lookup_eq. by rewrite Hm. }
  destruct (merge_eq C _ _ _ _ _ _ _ Ha Hm1)
    as (w'' & calls & e & Hmerge' & _ & _ & HA & Hfin).
  rewrite Hmerge in Hmerge'. injection Hmerge' as <- _ <-.
  destruct (Hfin eq_refl) as (m'' & Hm'' & Huid & Hkeep).
  assert (m'' = m') as -> by congruence. simpl in Huid, Hkeep.
  assert (HAll : All w' = All w) by (by rewrite HA, Hw1).
  destruct (merge_update_inv C _ _ _ _ Hu) as (Hsid_u & [r0 Hr0] & Hwritten & _ & Herr).
  assert (u_cur u = ck) as Hck by congruence. rewrite Hck in *.
  destruct (Hrel ck r0 Hr0) as (r1 & Hr1 & Hsub).
  assert (r1 = r) as -> by (specialize (Hkeep ck r Hr); congruence).
  assert (Hrow0 : row_at ck (u_sessions u) = r0) by (unfold row_at; by rewrite Hr0).
  assert (Hset : ∀ k v, (k, v) ∈ writes C p → r !! k = Some v).
  { intros k v Hin. eapply lookup_weaken; [|done].
    rewrite <- Hrow0. by apply Hwritten. }
  assert (Hs : r !! "sid" = Some sid1).
  { eapply lookup_weaken; [|done]. by rewrite <- Hrow0. }
  destruct (merge_update_settled C (uid m') p (knownsessions m') ck r
              Hsid Hr Hbest Hset (mk_is_Some _ _ Hs) Herr) as (stack & Hu2 & Hq).
  assert (Hid' : uid m' ≠ -500) by congruence.
  destruct (merge_apply_eq C _ _ _ _ _ Hm' Hid' Hlv Hu2)
    as (sid2 & nm2 & ks2 & Hsid2 & _ & Ha2).
  cbn [u_sessions u_cur u_stack] in Hsid2, Ha2.
  rewrite row_at_completed in Hsid2 by done.
  unfold row_at in Hsid2. rewrite Hr in Hsid2. simpl in Hsid2.
  assert (sid2 = sid1) as -> by congruence.
  rewrite bestsessionid_again in Ha2. cbn [fst snd] in Ha2. rewrite Hbest in Ha2.
  rewrite (settled_visible C p ck r sid1 Hsid Hset Hs) in Ha2.
  rewrite (emit_changes_quiet _ _ _ Hq), HAll, app_nil_l in Ha2.
  assert (Hm2 : heap (store self (set_nm nm2 (set_knownsessions ks2 m')) w') !! self
                = Some (set_nm nm2 (set_knownsessions ks2 m'))).
  { apply store_lookup_eq. by rewrite Hm'. }
  destruct (merge_eq C _ _ _ _ _ _ _ Ha2 Hm2)
    as (w2 & calls2 & e2 & Hmerge2 & Hcalls2 & _).
  by exists w2, calls2, e2.
Qed.
End Repeated.

(** C4, amended.  A visible merge that returns emits a property change, on
    the model and mirrored on [Model.All], for exactly the recorded entries
    whose old and new values differ, then the catch-all exactly once on the
    model and once on [Model.All], whatever the entries, and then only runs
    watcher callables.  When the names of the leaves of the payload are
    pairwise distinct, no property is notified twice on the same emitter.
    When the names the payload writes are pairwise distinct, and the
    session it addresses is still stored after the merge and is the best
    session, the same payload merged again at once emits no property change
    and fires the catch-all again. *)
Theorem C4_merge_notifications (C : constants) (self : addr) (p : payload)
    (w w' : world) (m : Model) (log : list event) :
  heap w !! self = Some m → self ≠ All w →
  merge C self p w = (w', log, None) →
  (merge_apply C self p w).2 = true →
  ∃ (u : updated) (calls : list event),
    merge_update C (uid m) p (knownsessions m) = (u, None)
    ∧ log = emit_changes self (All w) (u_stack u) ++ emit_any self (All w) p ++ calls
    ∧ Forall (λ ev, is_call ev = true) calls
    ∧ (∀ ev, ev ∈ emit_changes self (All w) (u_stack u) ↔
         ∃ prop before after,
           (prop, before, after) ∈ u_stack u ∧ py_ne before after = true
           ∧ (ev = Emit self prop [ArgModel self; ArgValue before; ArgValue after]
              ∨ ev = Emit (All w) prop
                       [ArgModel self; ArgValue before; ArgValue after]))
    ∧ List.filter is_any log = emit_any self (All w) p
    ∧ (NoDup (leaf_names p) → ∀ em, NoDup (emitted_names em log))
    ∧ (∀ m' ck,
         heap w' !! self = Some m' → payload_sid p = Ok ck →
         is_Some (assoc ck (knownsessions m')) →
         (bestsessionid C (knownsessions m')).1 = ck →
         NoDup (writes C p).*1 →
         ∃ w2 calls2 e2,
           merge C self p w' = (w2, emit_any self (All w) p ++ calls2, e2)
           ∧ Forall (λ ev, is_call ev = true) calls2).
Proof.
  intros Hm Hself Hmerge Hvis.
  destruct (merge_apply C self p w) as [[[w1 evs] e1] vis] eqn:Ha.
  simpl in Hvis. subst vis.
  assert (e1 = None) as ->.
  { unfold merge in Hmerge. rewrite Ha in Hmerge. by destruct e1. }
  destruct (merge_apply_inv C _ _ _ _ _ _ _ Hm Ha) as (Hid & Hlv & u & Hu).
  destruct (merge_apply_eq C _ _ _ _ _ Hm Hid Hlv Hu)
    as (sid1 & nm1 & ks1 & Hsid1 & Hrel & Ha').
  rewrite Ha in Ha'. injection Ha' as Hw1 Hevs Hv. rewrite <- Hv in Hevs.
  assert (Hm1 : heap w1 !! self = Some (set_nm nm1 (set_knownsessions ks1 m))).
  { rewrite Hw1. apply store_lookup_eq. by rewrite Hm. }
  destruct (merge_eq C _ _ _ _ _ _ _ Ha Hm1)
    as (w'' & calls & e & Hmerge' & Hcalls & _ & _ & _).
  rewrite Hmerge in Hmerge'. injection Hmerge' as _ Hlog _.
  rewrite Hevs, <- app_assoc in Hlog.
  destruct (merge_update_inv C _ _ _ _ Hu) as (_ & _ & _ & Hnames & _).
  exists u, calls. split_and!; [done|done|done| | | |].
  - intros ev. apply elem_of_emit_changes.
  - rewrite Hlog, !List.filter_app, filter_is_any_changes.
    rewrite (filter_is_any_calls calls) by done. by rewrite app_nil_r.
  - intros Hnd em. rewrite Hlog, !emitted_names_app.
    rewrite (emitted_names_calls em calls) by done.
    replace (emitted_names em (emit_any self (All w) p)) with (@nil string) by done.
    rewrite !app_nil_r. by apply emitted_names_changes, Hnames.
  - intros m' ck Hm' Hsid Hs Hbest Hnd. by eapply merge_again.
Qed.

Lemma C4_merge_notifications_witness :
  ∃ (u : updated) (calls : list event),
    merge_update mfc 7 sample_alice [] = (u, None)
    ∧ (merge mfc 1%nat sample_alice sample_world).1.2
      = emit_changes 1%nat 0%nat (u_stack u) ++ emit_any 1%nat 0%nat sample_alice
        ++ calls
    ∧ ∃ w2 calls2 e2,
        merge mfc 1%nat sample_alice (merge mfc 1%nat sample_alice sample_world).1.1
        = (w2, emit_any 1%nat 0%nat sample_alice ++ calls2, e2).
Proof.
  destruct (C4_merge_notifications mfc 1%nat sample_alice sample_world
              (merge mfc 1%nat sample_alice sample_world).1.1 (Model_init 7)
              (merge mfc 1%nat sample_alice sample_world).1.2)
    as (u & calls & Hu & Hlog & _ & _ & _ & _ & Hagain).
  - reflexivity.
  - done.
  - vm_compute. reflexivity.
  - vm_compute. reflexivity.
  - exists u, calls. split_and!; [exact Hu|exact Hlog|].
    destruct (Hagain (set_knownsessions
                        [(1, <["model_sw" := VBool false]>
                               (<["nm" := VStr "Alice"]>
                                  (<["vs" := VInt 90]>
                                     (<["sid" := VInt 1]> (_default_session mfc 7)))))]
                        (set_nm (VStr "Alice") (Model_init 7))) 1)
      as (w2 & calls2 & e2 & H2 & _).
    + vm_compute. reflexivity.
    + reflexivity.
    + vm_compute. by eexists.
    + vm_compute. reflexivity.
    + vm_compute. repeat constructor; set_solver.
    + by exists w2, calls2, e2.
Defined.

(** The first merge of a session named Alice on a fresh model notifies the
    name once, from [None], and the catch-all once; merged again at once,
    the same payload only fires the catch-all. *)
Example merge_alice_twice :
  (merge mfc 1%nat sample_alice sample_world).1.2
  = [Emit 1%nat "sid" [ArgModel 1%nat; ArgValue (VInt 0); ArgValue (VInt 1)];
     Emit 0%nat "sid" [ArgModel 1%nat; ArgValue (VInt 0); ArgValue (VInt 1)];
     Emit 1%nat "vs" [ArgModel 1%nat; ArgValue (VInt 127); ArgValue (VInt 90)];
     Emit 0%nat "vs" [ArgModel 1%nat; ArgValue (VInt 127); ArgValue (VInt 90)];
     Emit 1%nat "nm" [ArgModel 1%nat; ArgValue VNone; ArgValue (VStr "Alice")];
     Emit 0%nat "nm" [ArgModel 1%nat; ArgValue VNone; ArgValue (VStr "Alice")];
     Emit 1%nat "ANY" [ArgModel 1%nat; ArgPayload sample_alice];
     Emit 0%nat "ANY" [ArgModel 1%nat; ArgPayload sample_alice]]
  ∧ (merge mfc 1%nat sample_alice (merge mfc 1%nat sample_alice sample_world).1.1).1.2
    = [Emit 1%nat "ANY" [ArgModel 1%nat; ArgPayload sample_alice];
       Emit 0%nat "ANY" [ArgModel 1%nat; ArgPayload sample_alice]].
Proof. split; vm_compute; reflexivity. Qed.

(** C4 as stated fails twice.  The payload that takes session 1 offline is
    visible on the sample model, and merged again at once it is visible
    again and notifies a change of ["sid"], from 0 to 1: the session was
    purged in between.  And a visible merge of a payload that carries the
    name ["nm"] both at top level and in group ["u"] notifies ["nm"] twice
    on the model. *)
Lemma C4_counterexample_repeat_and_twice :
  ((merge_apply mfc 1%nat sample_offline sample_world).2 = true
   ∧ (merge mfc 1%nat sample_offline
        (merge mfc 1%nat sample_offline sample_world).1.1).1.2
     = [Emit 1%nat "sid" [ArgModel 1%nat; ArgValue (VInt 0); ArgValue (VInt 1)];
        Emit 0%nat "sid" [ArgModel 1%nat; ArgValue (VInt 0); ArgValue (VInt 1)];
        Emit 1%nat "ANY" [ArgModel 1%nat; ArgPayload sample_offline];
        Emit 0%nat "ANY" [ArgModel 1%nat; ArgPayload sample_offline]]
   ∧ emitted_names 1%nat
       (merge mfc 1%nat sample_offline
          (merge mfc 1%nat sample_offline sample_world).1.1).1.2 ≠ [])
  ∧ ((merge_apply mfc 1%nat sample_twice sample_world).2 = true
     ∧ emitted_names 1%nat (merge mfc 1%nat sample_twice sample_world).1.2
       = ["sid"; "vs"; "nm"; "nm"]%string
     ∧ ¬ NoDup (emitted_names 1%nat (merge mfc 1%nat sample_twice sample_world).1.2)).
Proof.
  split; split_and!; try (vm_compute; reflexivity).
  - vm_compute. discriminate.
  - intros Hnd.
    assert (H : emitted_names 1%nat (merge mfc 1%nat sample_twice sample_world).1.2
                = ["sid"; "vs"; "nm"; "nm"]%string) by (vm_compute; reflexivity).
    rewrite H in Hnd. apply NoDup_cons in Hnd as [_ Hnd].
    apply NoDup_cons in Hnd as [_ Hnd]. apply NoDup_cons in Hnd as [Hin _].
    apply Hin, list_elem_of_here.
Qed.

(** * Further properties *)

(** ** The selector does not depend on the order of the sessions *)

Section BestOf.
Variable C : constants.
Implicit Types (ks : sessions) (r : row).

Lemma best_of_bestsessionid ks : best_of C ks (bestsessionid C ks).1.
Proof.
  rewrite bestsessionid_fst.
  destruct (best_loop_not_found C 0 ks) as (id' & found & -> & Hcase). simpl.
  destruct Hcase as [(Hnil & _ & Hle & Hub & Hin)|(Hne & _ & Hmax)].
  - by right.
  - by left.
Qed.

Lemma best_of_unique ks x y : best_of C ks x → best_of C ks y → x = y.
Proof.
  intros [(Hx & [Hxin Hxub])|(Hx & Hx0 & Hxub & Hxin)]
         [(Hy & [Hyin Hyub])|(Hy & Hy0 & Hyub & Hyin)]; try done.
  - specialize (Hxub _ Hyin). specialize (Hyub _ Hxin). lia.
  - destruct Hxin as [->|Hxin], Hyin as [->|Hyin]; [done| | |].
    + specialize (Hxub _ Hyin). lia.
    + specialize (Hyub _ Hxin). lia.
    + specialize (Hxub _ Hyin). specialize (Hyub _ Hxin). lia.
Qed.

Lemma best_of_permutation ks ks' x : ks ≡ₚ ks' → best_of C ks x → best_of C ks' x.
Proof.
  intros Hp.
  assert (Hl : live_ids C ks ≡ₚ live_ids C ks').
  { unfold live_ids. by rewrite Hp. }
  assert (Hf : flagged_ids C ks ≡ₚ flagged_ids C ks').
  { unfold flagged_ids. by rewrite Hp. }
  assert (Hnil : flagged_ids C ks = [] ↔ flagged_ids C ks' = []).
  { split; intros H; rewrite H in Hf.
    - symmetry in Hf. by apply Permutation_nil_r in Hf.
    - by apply Permutation_nil_r in Hf. }
  unfold best_of, is_max_of. rewrite Hnil.
  setoid_rewrite Hl. setoid_rewrite Hf. done.
Qed.
End BestOf.

(** X1.  The best session does not depend on the order in which the sessions
    were inserted into [knownsessions]. *)
Theorem bestsessionid_order_independent (C : constants) (ks ks' : sessions) :
  ks ≡ₚ ks' → (bestsessionid C ks).1 = (bestsessionid C ks').1.
Proof.
  intros Hp. apply (best_of_unique C ks').
  - eapply best_of_permutation; [done|]. apply best_of_bestsessionid.
  - apply best_of_bestsessionid.
Qed.

Lemma bestsessionid_order_independent_witness :
  (bestsessionid mfc [(5, online_row mfc true); (20, online_row mfc false)]).1
  = (bestsessionid mfc [(20, online_row mfc false); (5, online_row mfc true)]).1.
Proof.
  apply (bestsessionid_order_independent mfc). apply Permutation_swap.
Defined.

(** ** What the purge keeps *)

Section PurgeKeeps.
Variable C : constants.
Implicit Types (ks : sessions) (r : row).

Lemma filter_ext_elem {A} (P Q : A → Prop) `{∀ x, Decision (P x)}
    `{∀ x, Decision (Q x)} (l : list A) :
  (∀ x, x ∈ l → (P x ↔ Q x)) → filter P l = filter Q l.
Proof.
  induction l as [|x l IH]; intros Hext; [done|].
  rewrite !filter_cons.
  assert (Hx : P x ↔ Q x) by (apply Hext, list_elem_of_here).
  rewrite IH by (intros y Hy; by apply Hext, list_elem_of_further).
  destruct (decide (P x)), (decide (Q x)); naive_solver.
Qed.

Lemma NoDup_assoc {V} (k : Z) (v : V) (d : list (Z * V)) :
  NoDup d.*1 → (k, v) ∈ d → assoc k d = Some v.
Proof.
  induction d as [|[k0 v0] d IH]; intros Hnd Hin.
  - by apply elem_of_nil in Hin.
  - rewrite fmap_cons in Hnd. apply NoDup_cons in Hnd as [Hk0 Hnd]. simpl.
    apply elem_of_cons in Hin as [[= -> ->]|Hin].
    + by rewrite decide_True.
    + destruct (decide (k0 = k)) as [->|Hne]; [|by apply IH].
      exfalso. apply Hk0. apply list_elem_of_fmap. by exists (k, v).
Qed.

Lemma NoDup_keys_filter {V} (P : Z * V → Prop) `{∀ x, Decision (P x)}
    (d : list (Z * V)) :
  NoDup d.*1 → NoDup (filter P d).*1.
Proof.
  induction d as [|[k0 v0] d IH]; intros Hnd; [done|].
  rewrite fmap_cons in Hnd. apply NoDup_cons in Hnd as [Hk0 Hnd].
  rewrite filter_cons. destruct (decide (P (k0, v0))); [|by apply IH].
  rewrite fmap_cons. apply NoDup_cons. split; [|by apply IH].
  intros ([k v] & Hk & [_ Hin]%list_elem_of_filter)%list_elem_of_fmap.
  simpl in Hk. subst k. apply Hk0, list_elem_of_fmap. by exists (k0, v).
Qed.

(** A video state that [FCVIDEO] maps to [OFFLINE] is [STATE.Offline]. *)
Lemma offline_of_FCVIDEO r v :
  r !! "vs" = Some v → FCVIDEO C v = Ok (FCVIDEO_OFFLINE C) → is_offline C r = true.
Proof.
  intros Hv HF. unfold is_offline. rewrite Hv.
  unfold FCVIDEO in HF. destruct v as [a|d]; simpl in *; [|done].
  destruct (as_int a) as [n|] eqn:Ha; [|done].
  destruct (FCVIDEO_member C n); [|done]. injection HF as ->.
  rewrite (offline_agree C).
  destruct a; simpl in *; try done; apply bool_decide_eq_true; congruence.
Qed.

(** The decision [_purgeoldsessions] takes on a key agrees with
    [is_offline]. *)
Lemma purge_decision key ks v n :
  row_at key ks !! "vs" = Some v → FCVIDEO C v = Ok n →
  (n =? FCVIDEO_OFFLINE C) = is_offline C (row_at key ks).
Proof.
  intros Hv HF. destruct (n =? FCVIDEO_OFFLINE C) eqn:Hn.
  - apply Z.eqb_eq in Hn. subst n. symmetry. by eapply offline_of_FCVIDEO.
  - apply Z.eqb_neq in Hn. symmetry. by eapply live_of_FCVIDEO.
Qed.

Lemma row_at_missing_vs key ks :
  row_at key ks !! "vs" = None → is_offline C (row_at key ks) = true.
Proof. intros Hv. unfold is_offline. by rewrite Hv. Qed.

(** On a dictionary, a purge that returns is a filter: the sessions that
    are not offline stay, in their order. *)
Lemma purge_loop_filter keys ks ks' :
  NoDup ks.*1 →
  purge_loop C keys ks = (ks', None) →
  ks' = filter (λ kr, kr.1 ∉ keys ∨ is_offline C kr.2 = false) ks.
Proof.
  revert ks. induction keys as [|key keys IH]; simpl; intros ks Hnd Hp.
  - injection Hp as <-. clear Hnd. induction ks as [|kr ks IH]; [done|].
    rewrite filter_cons_True; [by f_equal|]. left. by intros ?%elem_of_nil.
  - assert (Hdel : is_offline C (row_at key ks) = true →
              purge_loop C keys (dict_del key ks) = (ks', None) →
              ks' = filter (λ kr, kr.1 ∉ key :: keys ∨ is_offline C kr.2 = false) ks).
    { intros Ho Hp'. rewrite (IH _ (NoDup_keys_filter _ _ Hnd) Hp').
      unfold dict_del. rewrite list_filter_filter. apply filter_ext_elem.
      intros [k r] Hin. simpl. rewrite not_elem_of_cons. split.
      - intros [[Hk|Hl] Hne]; [by left|by right].
      - intros [[Hne Hk]|Hl]; [by split; [left|]|].
        split; [by right|]. intros ->.
        unfold row_at in Ho. rewrite (NoDup_assoc _ _ _ Hnd Hin) in Ho.
        simpl in Ho. congruence. }
    assert (Hkeep : is_offline C (row_at key ks) = false →
              purge_loop C keys ks = (ks', None) →
              ks' = filter (λ kr, kr.1 ∉ key :: keys ∨ is_offline C kr.2 = false) ks).
    { intros Ho Hp'. rewrite (IH _ Hnd Hp'). apply filter_ext_elem.
      intros [k r] Hin. simpl. rewrite not_elem_of_cons. split.
      - intros [Hk|Hl]; [|by right].
        destruct (decide (k = key)) as [->|Hne]; [|by left].
        right. unfold row_at in Ho. rewrite (NoDup_assoc _ _ _ Hnd Hin) in Ho.
        done.
      - intros [[_ Hk]|Hl]; [by left|by right]. }
    destruct (row_at key ks !! "vs") as [v|] eqn:Hv.
    + destruct (FCVIDEO C v) as [n|e] eqn:HF; [|done].
      rewrite (purge_decision _ _ _ _ Hv HF) in Hp.
      destruct (is_offline C (row_at key ks)) eqn:Ho; by auto.
    + apply Hdel; [|done]. by apply row_at_missing_vs.
Qed.

Lemma purgeoldsessions_filter ks ks' :
  NoDup ks.*1 →
  _purgeoldsessions C ks = (ks', None) →
  ks' = filter (λ kr, is_offline C kr.2 = false) ks.
Proof.
  intros Hnd Hp. rewrite (purge_loop_filter _ _ _ Hnd Hp).
  apply filter_ext_elem. intros [k r] Hin. simpl. split; [|by right].
  intros [Hk|Hl]; [|done]. exfalso. apply Hk.
  apply list_elem_of_fmap. by exists (k, r).
Qed.
End PurgeKeeps.

(** X2.  A purge that returns keeps, under its id and as it was, every session
    that is not offline, drops every session that is, and so leaves the
    best session id as it was. *)
Theorem purge_keeps_live_sessions (C : constants) (ks ks' : sessions) :
  NoDup ks.*1 →
  _purgeoldsessions C ks = (ks', None) →
  ks' = filter (λ kr, is_offline C kr.2 = false) ks
  ∧ (∀ k r, assoc k ks = Some r → is_offline C r = false → assoc k ks' = Some r)
  ∧ (∀ k r, assoc k ks = Some r → is_offline C r = true → assoc k ks' = None)
  ∧ (bestsessionid C ks').1 = (bestsessionid C ks).1.
Proof.
  intros Hnd Hp. pose proof (purgeoldsessions_filter C _ _ Hnd Hp) as ->.
  split_and!; [done| | |].
  - intros k r Hk Hl. apply NoDup_assoc.
    + by apply NoDup_keys_filter.
    + apply list_elem_of_filter. split; [done|].
      clear Hp Hnd. induction ks as [|[k0 r0] ks IH]; [done|]. simpl in Hk.
      destruct (decide (k0 = k)) as [->|Hne].
      * injection Hk as ->. apply list_elem_of_here.
      * apply list_elem_of_further. by apply IH.
  - intros k r Hk Ho.
    destruct (assoc k (filter _ ks)) as [r'|] eqn:E; [|done].
    destruct (purgeoldsessions_spec C _ _ Hp k r' E) as [Hk' Hl].
    congruence.
  - rewrite !bestsessionid_fst. by rewrite best_loop_skips_offline.
Qed.

Lemma purge_keeps_live_sessions_witness :
  (_purgeoldsessions mfc sample_sessions).1
    = filter (λ kr, is_offline mfc kr.2 = false) sample_sessions
  ∧ (∀ k r, assoc k sample_sessions = Some r → is_offline mfc r = false →
       assoc k (_purgeoldsessions mfc sample_sessions).1 = Some r)
  ∧ (∀ k r, assoc k sample_sessions = Some r → is_offline mfc r = true →
       assoc k (_purgeoldsessions mfc sample_sessions).1 = None)
  ∧ (bestsessionid mfc (_purgeoldsessions mfc sample_sessions).1).1
    = (bestsessionid mfc sample_sessions).1.
Proof.
  apply (purge_keeps_live_sessions mfc sample_sessions).
  - vm_compute. repeat constructor; set_solver.
  - vm_compute. reflexivity.
Defined.

(** ** What a call leaves alone *)

Section Frames.
Variable C : constants.
Implicit Types (w : world) (m : Model).

Lemma changes_only_refl {T} self (kept : snapshot → T) w :
  changes_only self kept w w.
Proof. by split_and!. Qed.

Lemma changes_only_trans {T} self (kept : snapshot → T) w0 w w' :
  changes_only self kept w0 w → changes_only self kept w w' →
  changes_only self kept w0 w'.
Proof.
  intros (HK1 & HA1 & Ho1 & Hs1 & Hk1) (HK2 & HA2 & Ho2 & Hs2 & Hk2).
  split_and!; try congruence.
  - intros a Hs Ha. rewrite Ho2, Ho1; congruence.
  - intros a Hs. by rewrite Hs2, Hs1.
Qed.

Lemma changes_only_store {T} self (kept : snapshot → T) w m m' :
  heap w !! self = Some m → kept (snapshot_of m') = kept (snapshot_of m) →
  changes_only self kept w (store self m' w).
Proof.
  intros Hm Hk. split_and!; [done|done| | |].
  - intros a Hs _. by apply store_lookup_ne.
  - intros a Hs. by rewrite store_lookup_ne.
  - rewrite store_lookup_eq by (by rewrite Hm). rewrite Hm. simpl. by rewrite Hk.
Qed.

(** The watcher engine changes watchers only, and only those of the model
    and of [Model.All]. *)
Lemma process_whens_changes_only {T} self (kept : snapshot → T) payload w :
  changes_only self kept w (_process_whens self payload w).1.
Proof.
  destruct (_process_whens self payload w) as [w' evs] eqn:E.
  destruct (process_whens_frame _ _ _ _ _ E) as (HK & HA & Hs). simpl.
  split_and!; [done|done| |by intros a _|].
  - intros a Hs' Ha. revert E. unfold _process_whens.
    destruct (heap w !! self) as [m|]; [|by intros [= <- <-]].
    case_bool_decide; [by intros [= <- <-]|].
    destruct (process_items self (snapshot_of m) payload self (whenmap m))
      as [wm1 ev1].
    destruct (heap (store self (set_whenmap wm1 m) w) !! All w) as [mall|].
    + destruct (process_items self (snapshot_of m) payload (All w) (whenmap mall))
        as [wm2 ev2].
      intros [= <- <-]. by rewrite !store_lookup_ne.
    + intros [= <- <-]. by rewrite store_lookup_ne.
  - specialize (Hs self).
    destruct (heap w' !! self) as [m1|], (heap w !! self) as [m2|]; try done.
    change (Some (snapshot_of m1) = Some (snapshot_of m2)) in Hs.
    apply (inj Some) in Hs.
    change (Some (kept (snapshot_of m1)) = Some (kept (snapshot_of m2))).
    by rewrite Hs.
Qed.

Lemma merge_apply_changes_only self p w :
  changes_only self (λ s, (s_uid s, s_tags s)) w (merge_apply C self p w).1.1.1.
Proof.
  unfold merge_apply. destruct (heap w !! self) as [m|] eqn:Hm.
  2: { apply changes_only_refl. }
  assert (Hs : ∀ m', uid m' = uid m → tags m' = tags m →
             changes_only self (λ s, (s_uid s, s_tags s)) w (store self m' w)).
  { intros m' Hu Ht. apply (changes_only_store _ _ _ m); [done|].
    simpl. by rewrite Hu, Ht. }
  case_bool_decide; [apply changes_only_refl|].
  destruct (negb (level_ok C p)); [apply changes_only_refl|].
  destruct (merge_update C (uid m) p (knownsessions m)) as [upd [e0|]].
  { by apply Hs. }
  destruct (merge_visible C (u_cur upd) (u_sessions upd)) as [[vis ks1] [e1|]].
  { by apply Hs. }
  destruct vis; [|by apply Hs].
  destruct (update_nm C (uid m) (nm m) ks1) as [nm' ks2]. by apply Hs.
Qed.

Lemma purge_at_changes_only self w :
  changes_only self (λ s, (s_uid s, s_tags s)) w (purge_at C self w).1.
Proof.
  unfold purge_at. destruct (heap w !! self) as [m|] eqn:Hm.
  - destruct (_purgeoldsessions C (knownsessions m)) as [ks e'].
    by apply (changes_only_store _ _ _ m).
  - apply changes_only_refl.
Qed.

Lemma merge_changes_only self p w :
  changes_only self (λ s, (s_uid s, s_tags s)) w (merge C self p w).1.1.
Proof.
  unfold merge.
  pose proof (merge_apply_changes_only self p w) as H1.
  destruct (merge_apply C self p w) as [[[w1 evs] [e|]] visible]; [done|].
  simpl in H1.
  assert (H2 : changes_only self (λ s, (s_uid s, s_tags s)) w1
                 (if visible then _process_whens self (ArgPayload p) w1
                  else (w1, [])).1).
  { destruct visible; [apply process_whens_changes_only|apply changes_only_refl]. }
  destruct (if visible then _ else _) as [w2 calls]. simpl in H2.
  pose proof (purge_at_changes_only self w2) as H3.
  destruct (purge_at C self w2) as [w3 e3]. simpl in *.
  eapply changes_only_trans; [done|]. by eapply changes_only_trans.
Qed.

Lemma merge_tags_changes_only self new_tags w :
  changes_only self (λ s, (s_uid s, s_nm s, s_knownsessions s)) w
    (merge_tags self new_tags w).1.
Proof.
  unfold merge_tags. destruct (heap w !! self) as [m|] eqn:Hm.
  2: { apply changes_only_refl. }
  pose proof (process_whens_changes_only self
    (λ s, (s_uid s, s_nm s, s_knownsessions s)) (ArgTaglist new_tags)
    (store self (set_tags (tags m ∪ list_to_set new_tags) m) w)) as H2.
  destruct (_process_whens _ _ _) as [w' evs]. simpl in *.
  eapply changes_only_trans; [|done]. by apply (changes_only_store _ _ _ m).
Qed.

Lemma when_changes_only self key cond f g w :
  changes_only self id w (when self key cond f g w).1.
Proof.
  unfold when. destruct (heap w !! self) as [m|] eqn:Hm.
  2: { apply changes_only_refl. }
  eapply changes_only_trans; [|apply process_whens_changes_only].
  by apply (changes_only_store _ _ _ m).
Qed.
End Frames.

(** X3.  [merge] on one model, whether it returns or raises, leaves the registry
    and [Model.All] as they were, every other model as it was (of
    [Model.All], all but the state of its watchers), and of the model itself
    the uid and the tags. *)
Theorem merge_frame (C : constants) (self : addr) (p : payload) (w : world) :
  changes_only self (λ s, (s_uid s, s_tags s)) w (merge C self p w).1.1.
Proof. apply merge_changes_only. Qed.

(** X4.  [merge_tags] on one model leaves the registry and [Model.All] as they
    were, every other model as it was (of [Model.All], all but the state of
    its watchers), and of the model itself the uid, the name and the
    sessions. *)
Theorem merge_tags_frame (self : addr) (new_tags : list string) (w : world) :
  changes_only self (λ s, (s_uid s, s_nm s, s_knownsessions s)) w
    (merge_tags self new_tags w).1.
Proof. apply merge_tags_changes_only. Qed.

(** X5.  [when] changes watchers only: it leaves the registry and the uid, name,
    tags and sessions of every model as they were, and every object other
    than the model and [Model.All] entirely. *)
Theorem when_frame (self : addr) (key : nat) (cond : snapshot → bool)
    (f g : callback) (w : world) :
  changes_only self id w (when self key cond f g w).1
  ∧ ∀ a : addr, snapshot_of <$> heap (when self key cond f g w).1 !! a
                = snapshot_of <$> heap w !! a.
Proof.
  pose proof (when_changes_only self key cond f g w) as H. split; [done|].
  intros a. destruct (decide (a = self)) as [->|Hne].
  - by destruct H as (_ & _ & _ & _ & H).
  - destruct H as (_ & _ & _ & H & _). by apply H.
Qed.

(** ** The registry in every state the calls can reach *)

Section RegistryInvariant.
Variable C : constants.
Implicit Types (w : world) (m : Model).

Lemma changes_only_uids {T} self (kept : snapshot → T) w w' :
  (∀ s s', kept s = kept s' → s_uid s = s_uid s') →
  changes_only self kept w w' → same_uids w w'.
Proof.
  intros Hkept (_ & _ & _ & Hs & Hk) a.
  destruct (decide (a = self)) as [->|Hne].
  - destruct (heap w' !! self) as [m1|], (heap w !! self) as [m2|]; try done.
    apply (inj Some) in Hk. apply Hkept in Hk. simpl. f_equal. exact Hk.
  - specialize (Hs a Hne).
    destruct (heap w' !! a) as [m1|], (heap w !! a) as [m2|]; try done.
    apply (inj Some) in Hs. simpl. f_equal.
    change (s_uid (snapshot_of m1) = s_uid (snapshot_of m2)). by rewrite Hs.
Qed.

Lemma registry_ok_same_uids w w' :
  KNOWNMODELS w' = KNOWNMODELS w → All w' = All w → same_uids w w' →
  registry_ok w → registry_ok w'.
Proof.
  intros HK HA Hu (Hnd & Hreg & Hall). unfold registry_ok.
  rewrite HK, HA. split_and!; [done| |done].
  intros n a Hn. rewrite Hu. by apply Hreg.
Qed.

Lemma registry_ok_changes_only {T} self (kept : snapshot → T) w w' :
  (∀ s s', kept s = kept s' → s_uid s = s_uid s') →
  changes_only self kept w w' → registry_ok w → registry_ok w'.
Proof.
  intros Hkept Hc. pose proof (changes_only_uids _ _ _ _ Hkept Hc) as Hu.
  destruct Hc as (HK & HA & _). by apply registry_ok_same_uids.
Qed.

Lemma merge_keeps_registry self p w :
  KNOWNMODELS (merge C self p w).1.1 = KNOWNMODELS w
  ∧ All (merge C self p w).1.1 = All w
  ∧ same_uids w (merge C self p w).1.1.
Proof.
  pose proof (merge_changes_only C self p w) as Hc.
  split_and!; [by destruct Hc as (? & ? & _)|by destruct Hc as (? & ? & _)|].
  eapply changes_only_uids; [|done]. by intros s s' [= -> _].
Qed.

Lemma same_uids_store w self m m' :
  heap w !! self = Some m → uid m' = uid m → same_uids w (store self m' w).
Proof.
  intros Hm Hu a. destruct (decide (self = a)) as [<-|Hne].
  - rewrite store_lookup_eq by (by rewrite Hm). rewrite Hm. simpl. by rewrite Hu.
  - by rewrite store_lookup_ne.
Qed.

Lemma reset_model_keeps_registry self w :
  KNOWNMODELS (reset_model C self w).1.1 = KNOWNMODELS w
  ∧ All (reset_model C self w).1.1 = All w
  ∧ same_uids w (reset_model C self w).1.1.
Proof.
  unfold reset_model. destruct (heap w !! self) as [m|] eqn:Hm; [|done].
  destruct (reset_loop C (knownsessions m).*1 (knownsessions m)) as [ks1 [e|]].
  { split_and!; [done|done|]. by apply (same_uids_store _ _ m). }
  destruct (bestsessionid C ks1) as [best ks2].
  destruct (merge_keeps_registry self
    [("sid"%string, VInt best); ("uid"%string, VInt (uid m));
     ("vs"%string, VInt (FCVIDEO_OFFLINE C))]
    (store self (set_knownsessions ks2 m) w)) as (HK & HA & Hu).
  split_and!; [done|done|].
  eapply same_uids_trans; [|done]. by apply (same_uids_store _ _ m).
Qed.

Lemma reset_all_keeps_registry models w :
  KNOWNMODELS (reset_all C models w).1.1 = KNOWNMODELS w
  ∧ All (reset_all C models w).1.1 = All w
  ∧ same_uids w (reset_all C models w).1.1.
Proof.
  revert w. induction models as [|a models IH]; intros w; simpl; [done|].
  destruct (heap w !! a) as [m|]; [|done].
  case_bool_decide; [|apply IH].
  destruct (reset_model_keeps_registry a w) as (HK & HA & Hu).
  destruct (reset_model C a w) as [[w1 ev1] [e|]]; [done|].
  destruct (IH w1) as (HK2 & HA2 & Hu2).
  destruct (reset_all C models w1) as [[w2 ev2] e2]. simpl in *.
  split_and!; [congruence|congruence|]. by eapply same_uids_trans.
Qed.

Lemma reset_keeps_registry self w :
  KNOWNMODELS (reset C self w).1.1 = KNOWNMODELS w
  ∧ All (reset C self w).1.1 = All w
  ∧ same_uids w (reset C self w).1.1.
Proof.
  unfold reset. destruct (heap w !! self) as [m|]; [|done].
  case_bool_decide; [apply reset_model_keeps_registry|apply reset_all_keeps_registry].
Qed.

Lemma NoDup_keys_snoc {V} (d : list (Z * V)) n v :
  NoDup d.*1 → assoc n d = None → NoDup (d ++ [(n, v)]).*1.
Proof.
  intros Hnd Hn. rewrite fmap_app. apply NoDup_app. split_and!; [done| |].
  - intros k Hk [->|[]%elem_of_nil]%elem_of_cons.
    apply list_elem_of_fmap in Hk as ([k' v'] & Heq & Hin). simpl in Heq.
    subst k'. by rewrite (NoDup_assoc _ _ _ Hnd Hin) in Hn.
  - simpl. apply NoDup_singleton.
Qed.

Lemma assoc_snoc {V} (d : list (Z * V)) n v k :
  assoc k (d ++ [(n, v)])
  = match assoc k d with
    | Some x => Some x
    | None => if decide (n = k) then Some v else None
    end.
Proof.
  induction d as [|[k' v'] d IH]; simpl; [done|].
  by destruct (decide (k' = k)).
Qed.

Lemma get_model_keeps_registry u create w :
  registry_ok w → registry_ok (get_model u create w).1.
Proof.
  intros (Hnd & Hreg & Hall). unfold get_model.
  destruct (match u with UStr s => PyInt.int s | UInt n => Some n end) as [n|];
    [|done].
  destruct create; [|done].
  destruct (assoc n (KNOWNMODELS w)) as [b|] eqn:Hn; simpl.
  - split_and!; [done| |done]. simpl. intros k a Hk.
    specialize (Hreg k a Hk). destruct (heap w !! a) as [m|] eqn:Ha; [|done].
    by rewrite (lookup_app_l_Some _ _ _ _ Ha).
  - split_and!; simpl.
    + by apply NoDup_keys_snoc.
    + intros k a. rewrite assoc_snoc.
      destruct (assoc k (KNOWNMODELS w)) as [x|] eqn:Hk.
      * intros [= ->]. specialize (Hreg k a Hk).
        destruct (heap w !! a) as [m|] eqn:Ha; [|done].
        by rewrite (lookup_app_l_Some _ _ _ _ Ha).
      * destruct (decide (n = k)) as [->|]; [|done]. intros [= <-].
        by rewrite list_lookup_middle.
    + rewrite assoc_snoc. by rewrite Hall.
Qed.

Lemma initial_world_registry_ok : registry_ok initial_world.
Proof.
  split_and!.
  - vm_compute. apply NoDup_singleton.
  - intros n a. unfold initial_world. simpl.
    destruct (decide (-500 = n)) as [<-|]; [|done]. by intros [= <-].
  - done.
Qed.

Lemma after_keeps_registry c w : registry_ok w → registry_ok (after C c w).
Proof.
  intros Hok. destruct c as [u create|self p|self new_tags|self key cond f g|self];
    simpl.
  - by apply get_model_keeps_registry.
  - destruct (merge_keeps_registry self p w) as (HK & HA & Hu).
    by apply (registry_ok_same_uids w).
  - eapply registry_ok_changes_only; [|apply merge_tags_changes_only|done].
    by intros s s' [= -> _ _].
  - eapply registry_ok_changes_only; [|apply when_changes_only|done].
    intros s s' Heq. unfold id in Heq. by rewrite Heq.
  - destruct (reset_keeps_registry self w) as (HK & HA & Hu).
    by apply (registry_ok_same_uids w).
Qed.
End RegistryInvariant.

(** X6.  In every state that calls of [get_model], [merge], [merge_tags], [when]
    and [reset] reach from the load of the module, each key of [KNOWNMODELS]
    names an allocated model whose uid is that key, [Model.All] is the model
    registered under -500, and two different uids never share an
    instance. *)
Theorem registry_invariant (C : constants) (cs : list call) :
  let w := after_all C cs in
  registry_ok w
  ∧ (∃ mall, heap w !! All w = Some mall ∧ uid mall = -500)
  ∧ (∀ n n' (a : addr), assoc n (KNOWNMODELS w) = Some a →
       assoc n' (KNOWNMODELS w) = Some a → n = n').
Proof.
  simpl. assert (Hok : registry_ok (after_all C cs)).
  { unfold after_all. induction cs as [|c cs IH] using rev_ind.
    - apply initial_world_registry_ok.
    - rewrite foldl_app. simpl. by apply after_keeps_registry. }
  split; [done|]. destruct Hok as (Hnd & Hreg & Hall). split.
  - specialize (Hreg _ _ Hall).
    destruct (heap (after_all C cs) !! All (after_all C cs)) as [mall|]; [|done].
    exists mall. split; [done|]. simpl in Hreg. congruence.
  - intros n n' a Hn Hn'. apply Hreg in Hn, Hn'. congruence.
Qed.

(** ** [in_true_private] *)

Section TruePrivate.
Variable C : constants.
Variable STATE_Private : Z.
Implicit Types (ks : sessions) (r : row).

Lemma default_offline uid : is_offline C (_default_session C uid) = true.
Proof.
  unfold is_offline, _default_session.
  rewrite lookup_insert_ne by done. rewrite lookup_insert_eq. simpl.
  by apply bool_decide_eq_true.
Qed.

Lemma completed_default uid :
  completed C (_default_session C uid) = _default_session C uid.
Proof.
  apply map_eq. intros key. rewrite completed_lookup, default_offline.
  destruct (_default_session C uid !! key) eqn:E; [done|].
  destruct (decide (key = "vs"%string)) as [->|]; [|by case_decide].
  unfold _default_session in E. rewrite lookup_insert_ne in E by done.
  by rewrite lookup_insert_eq in E.
Qed.

Lemma bestsessionid_snoc_default uid k ks :
  bestsessionid C (ks ++ [(k, _default_session C uid)])
  = ((bestsessionid C ks).1, (bestsessionid C ks).2 ++ [(k, _default_session C uid)]).
Proof.
  apply injective_projections; cbn [fst snd].
  - rewrite !bestsessionid_fst.
    rewrite <- (best_loop_skips_offline C _ (ks ++ _)), filter_app.
    rewrite (filter_cons_False _ (k, _default_session C uid)).
    + by rewrite filter_nil, app_nil_r, best_loop_skips_offline.
    + simpl. by rewrite default_offline.
  - rewrite !bestsessionid_snd, fmap_app. simpl. by rewrite completed_default.
Qed.

(** Reading [bestsession] again gives the same session and changes nothing
    more. *)
Lemma bestsession_again uid ks :
  bestsession C uid (bestsession C uid ks).2
  = ((bestsession C uid ks).1, (bestsession C uid ks).2).
Proof.
  rewrite (bestsession_eq C uid ks). cbn [fst snd].
  pose proof (bestsessionid_again C ks) as Hagain.
  destruct (bestsessionid C ks) as [b ks1]. cbn [fst snd] in *.
  destruct (assoc b ks1) as [r|] eqn:Hb.
  - assert (Hsd : dict_setdefault b (_default_session C uid) ks1 = ks1).
    { unfold dict_setdefault. by rewrite Hb. }
    rewrite Hsd, bestsession_eq, Hagain. cbn [fst snd]. by rewrite Hsd.
  - assert (Hsd : dict_setdefault b (_default_session C uid) ks1
                  = ks1 ++ [(b, _default_session C uid)]).
    { unfold dict_setdefault. by rewrite Hb. }
    rewrite Hsd, bestsession_eq, bestsessionid_snoc_default, Hagain.
    cbn [fst snd]. unfold dict_setdefault. rewrite assoc_app, Hb. simpl.
    by rewrite decide_True.
Qed.

(** The row [bestsession] returns has a ["vs"]. *)
Lemma best_row_vs uid ks : is_Some (best_row C uid ks !! "vs").
Proof.
  unfold best_row, row_at. rewrite bestsession_eq. cbn [fst snd].
  unfold dict_setdefault.
  destruct (assoc (bestsessionid C ks).1 (bestsessionid C ks).2) as [r|] eqn:Hb.
  - rewrite Hb. simpl. rewrite bestsessionid_snd, assoc_fmap_rows in Hb.
    destruct (assoc (bestsessionid C ks).1 ks) as [r0|]; [|done].
    injection Hb as <-. rewrite completed_lookup.
    destruct (r0 !! "vs"); [done|]. by rewrite decide_True.
  - rewrite assoc_app, Hb. simpl. rewrite decide_True by done. simpl.
    unfold _default_session. rewrite lookup_insert_ne by done.
    by rewrite lookup_insert_eq.
Qed.

Lemma in_true_private_eq uid ks :
  in_true_private C STATE_Private uid ks
  = ((bestsession C uid ks).2,
     Ok (match best_row C uid ks !! "vs", best_row C uid ks !! "truepvt" with
         | Some vs, Some t => if py_eq vs (VInt STATE_Private) then t else VBool false
         | _, _ => VBool false
         end)).
Proof.
  unfold in_true_private, best_row.
  pose proof (bestsession_again uid ks) as Hagain.
  destruct (best_row_vs uid ks) as [vs Hvs]. unfold best_row in Hvs.
  destruct (bestsession C uid ks) as [b1 ks1]. cbn [fst snd] in *.
  rewrite Hvs. destruct (py_eq vs (VInt STATE_Private)).
  - rewrite Hagain. destruct (row_at b1 ks1 !! "truepvt") as [t|] eqn:Ht; [|done].
    by rewrite Hagain, Ht.
  - by destruct (row_at b1 ks1 !! "truepvt").
Qed.

(** With no session that is not offline, the best session is offline. *)
Lemma best_row_offline uid ks :
  (∀ k r, assoc k ks = Some r → is_offline C r = true) →
  is_offline C (best_row C uid ks) = true.
Proof.
  intros Hoff. unfold best_row, row_at. rewrite bestsession_eq. cbn [fst snd].
  unfold dict_setdefault.
  destruct (assoc (bestsessionid C ks).1 (bestsessionid C ks).2) as [r|] eqn:Hb.
  - rewrite Hb. simpl. rewrite bestsessionid_snd, assoc_fmap_rows in Hb.
    destruct (assoc (bestsessionid C ks).1 ks) as [r0|] eqn:H0; [|done].
    injection Hb as <-. rewrite completed_offline. by eapply Hoff.
  - rewrite assoc_app, Hb. simpl. rewrite decide_True by done. simpl.
    apply default_offline.
Qed.

Lemma offline_not_private r :
  STATE_Private ≠ STATE_Offline C → is_offline C r = true →
  ∀ vs, r !! "vs" = Some vs → py_eq vs (VInt STATE_Private) = false.
Proof.
  intros Hne Hoff vs Hvs. unfold is_offline in Hoff. rewrite Hvs in Hoff.
  destruct vs as [a|d]; [|done]. simpl in *.
  destruct a; simpl in *; try done;
    apply bool_decide_eq_true in Hoff; apply bool_decide_eq_false;
    congruence.
Qed.
End TruePrivate.

(** X7.  [in_true_private] never raises, although it indexes ["vs"] and
    ["truepvt"]: it leaves the sessions as one read of [bestsession] leaves
    them, and gives the ["truepvt"] of the best session when that session
    has one and its video state is [STATE.Private], and [False] otherwise. *)
Theorem in_true_private_returns (C : constants) (STATE_Private uid : Z)
    (ks : sessions) :
  ∃ vs,
    best_row C uid ks !! "vs" = Some vs
    ∧ in_true_private C STATE_Private uid ks
      = ((bestsession C uid ks).2,
         Ok (if py_eq vs (VInt STATE_Private)
             then default (VBool false) (best_row C uid ks !! "truepvt")
             else VBool false)).
Proof.
  destruct (best_row_vs C uid ks) as [vs Hvs]. exists vs. split; [done|].
  rewrite in_true_private_eq, Hvs.
  destruct (best_row C uid ks !! "truepvt"); [done|].
  by destruct (py_eq vs (VInt STATE_Private)).
Qed.

(** X8.  A model all of whose sessions are offline is not in a true private,
    whatever its sessions record under ["truepvt"]. *)
Theorem in_true_private_offline (C : constants) (STATE_Private uid : Z)
    (ks : sessions) :
  STATE_Private ≠ STATE_Offline C →
  (∀ k r, assoc k ks = Some r → is_offline C r = true) →
  (in_true_private C STATE_Private uid ks).2 = Ok (VBool false).
Proof.
  intros Hne Hoff. rewrite in_true_private_eq. cbn [snd].
  pose proof (best_row_offline C uid ks Hoff) as Ho.
  destruct (best_row C uid ks !! "vs") as [vs|] eqn:Hvs; [|done].
  rewrite (offline_not_private C STATE_Private _ Hne Ho vs Hvs).
  by destruct (best_row C uid ks !! "truepvt").
Qed.

Lemma in_true_private_offline_witness :
  (in_true_private mfc 12 7
     [(3, <["truepvt" := VBool true]> (_default_session mfc 7))]).2
  = Ok (VBool false).
Proof.
  apply (in_true_private_offline mfc 12 7); [done|].
  intros k r. simpl. destruct (decide (3 = k)); [|done].
  intros [= <-]. vm_compute. reflexivity.
Defined.

(** X9.  Once flags are merged into the best session and that session is in
    [STATE.Private], [in_true_private] is the [TRUEPVT] bit of the flags. *)
Theorem in_true_private_flags (C : constants) (STATE_Private uid : Z)
    (ks : sessions) (ck flags : Z) (r : row) (vs : value) :
  assoc ck ks = Some r →
  (bestsessionid C (store_flags C ck flags ks)).1 = ck →
  r !! "vs" = Some vs → py_eq vs (VInt STATE_Private) = true →
  (in_true_private C STATE_Private uid (store_flags C ck flags ks)).2
  = Ok (VBool (negb (Z.land flags (FCOPT_TRUEPVT C) =? 0))).
Proof.
  intros Hck Hbest Hvs Hpriv. rewrite in_true_private_eq. cbn [snd].
  set (row := <["model_sw" := flag flags (FCOPT_MODELSW C)]>
                (<["basics_muted" := flag flags (FCOPT_BASICMUTE C)]>
                (<["guests_muted" := flag flags (FCOPT_GUESTMUTE C)]>
                (<["truepvt" := flag flags (FCOPT_TRUEPVT C)]> r)))).
  assert (Hrow : assoc ck (store_flags C ck flags ks) = Some row).
  { unfold store_flags, set_key. rewrite !assoc_dict_alter, Hck.
    by rewrite !decide_True. }
  assert (Hbr : best_row C uid (store_flags C ck flags ks) = completed C row).
  { unfold best_row, row_at. rewrite bestsession_eq. cbn [fst snd]. rewrite Hbest.
    rewrite (assoc_setdefault_Some _ _ _ (completed C row)); [done|].
    by rewrite bestsessionid_snd, assoc_fmap_rows, Hrow. }
  rewrite Hbr, !completed_lookup. unfold row.
  rewrite !(lookup_insert_ne _ _ "vs"%string) by done. rewrite Hvs, Hpriv.
  rewrite !(lookup_insert_ne _ _ "truepvt"%string) by done.
  by rewrite lookup_insert_eq.
Qed.

Lemma in_true_private_flags_witness :
  (in_true_private mfc 12 7 (sample_private 8)).2 = Ok (VBool true).
Proof.
  apply (in_true_private_flags mfc 12 7
           [(3, <["vs" := VInt 12]> (_default_session mfc 7))] 3 8
           (<["vs" := VInt 12]> (_default_session mfc 7)) (VInt 12));
    vm_compute; reflexivity.
Defined.

(** ** [reset] *)

Section ResetLoop.
Variable C : constants.
Implicit Types (ks : sessions) (r : row).

Lemma assoc_elem_of {V} (k : Z) (v : V) (d : list (Z * V)) :
  assoc k d = Some v → (k, v) ∈ d.
Proof.
  induction d as [|[k0 v0] d IH]; simpl; [done|].
  destruct (decide (k0 = k)) as [->|Hne].
  - intros [= ->]. apply list_elem_of_here.
  - intros Hk. apply list_elem_of_further. by apply IH.
Qed.

Lemma key_assoc {V} (k : Z) (d : list (Z * V)) :
  k ∈ d.*1 → is_Some (assoc k d).
Proof.
  destruct (assoc k d) eqn:E; [done|]. intros Hk. exfalso.
  induction d as [|[k0 v0] d IH]; [by apply elem_of_nil in Hk|].
  simpl in E. destruct (decide (k0 = k)) as [->|Hne]; [done|].
  rewrite fmap_cons in Hk. apply elem_of_cons in Hk as [Hk|Hk]; [done|auto].
Qed.

Lemma dict_alter_keys {V} (f : V → V) (k : Z) (d : list (Z * V)) :
  (dict_alter f k d).*1 = d.*1.
Proof.
  induction d as [|[k0 v0] d IH]; [done|]. cbn [dict_alter].
  destruct (decide (k0 = k)); rewrite !fmap_cons; [done|].
  cbn [fst]. by rewrite IH.
Qed.

Lemma elem_of_live_ids k ks :
  NoDup ks.*1 →
  k ∈ live_ids C ks ↔ ∃ r, assoc k ks = Some r ∧ is_offline C r = false.
Proof.
  intros Hnd. unfold live_ids. split.
  - intros ([k' r] & -> & [Ho Hin]%list_elem_of_filter)%list_elem_of_fmap.
    exists r. simpl. split; [by apply NoDup_assoc|done].
  - intros (r & Hr & Ho). apply list_elem_of_fmap. exists (k, r).
    split; [done|]. apply list_elem_of_filter. split; [done|].
    by apply assoc_elem_of.
Qed.

Lemma elem_of_flagged_ids k ks :
  NoDup ks.*1 →
  k ∈ flagged_ids C ks
  ↔ ∃ r, assoc k ks = Some r ∧ is_offline C r = false ∧ flagged r = true.
Proof.
  intros Hnd. unfold flagged_ids. split.
  - intros ([k' r] & -> & [[Ho Hf] Hin]%list_elem_of_filter)%list_elem_of_fmap.
    exists r. simpl. split; [by apply NoDup_assoc|done].
  - intros (r & Hr & Ho & Hf). apply list_elem_of_fmap. exists (k, r).
    split; [done|]. apply list_elem_of_filter. split; [done|].
    by apply assoc_elem_of.
Qed.

(** The best id stays the best one when sessions other than it leave the
    sessions that count. *)
Lemma best_of_fewer ks ks' x :
  (∀ k, k ∈ live_ids C ks' → k ∈ live_ids C ks) →
  (∀ k, k ∈ flagged_ids C ks' → k ∈ flagged_ids C ks) →
  (x ∈ live_ids C ks → x ∈ live_ids C ks') →
  (x ∈ flagged_ids C ks → x ∈ flagged_ids C ks') →
  best_of C ks x → best_of C ks' x.
Proof.
  intros Hl Hf Hxl Hxf [(Hne & Hin & Hub)|(Hnil & H0 & Hub & Hin)].
  - left. split.
    + intros Hnil'. specialize (Hxf Hin). rewrite Hnil' in Hxf.
      by apply elem_of_nil in Hxf.
    + split; [by apply Hxf|]. intros y Hy. by apply Hub, Hf.
  - right. split_and!; [|done| |].
    + destruct (flagged_ids C ks') as [|k l] eqn:E; [done|].
      specialize (Hf k (list_elem_of_here _ _)). rewrite Hnil in Hf.
      by apply elem_of_nil in Hf.
    + intros k Hk. by apply Hub, Hl.
    + destruct Hin as [->|Hin]; [by left|right; by apply Hxl].
Qed.

Lemma bestsessionid_best_of ks x :
  best_of C ks x → (bestsessionid C ks).1 = x.
Proof.
  intros Hx. apply (best_of_unique C ks); [|done]. apply best_of_bestsessionid.
Qed.

Lemma offline_row_offline r :
  is_offline C (<["vs" := VInt (FCVIDEO_OFFLINE C)]> r) = true.
Proof.
  unfold is_offline. rewrite lookup_insert_eq, (offline_agree C). simpl.
  by apply bool_decide_eq_true.
Qed.

(** Setting a session other than the best one offline keeps the best
    one. *)
Lemma bestsessionid_set_offline key ks :
  NoDup ks.*1 → key ≠ (bestsessionid C ks).1 →
  (bestsessionid C (set_key key "vs" (VInt (FCVIDEO_OFFLINE C)) ks)).1
  = (bestsessionid C ks).1.
Proof.
  intros Hnd Hkey. apply bestsessionid_best_of.
  assert (Hnd' : NoDup (set_key key "vs" (VInt (FCVIDEO_OFFLINE C)) ks).*1).
  { unfold set_key. by rewrite dict_alter_keys. }
  assert (Hsame : ∀ k, k ≠ key →
            assoc k (set_key key "vs" (VInt (FCVIDEO_OFFLINE C)) ks) = assoc k ks).
  { intros k Hk. unfold set_key. rewrite assoc_dict_alter.
    by rewrite decide_False by done. }
  assert (Hoff : ∀ r, assoc key (set_key key "vs" (VInt (FCVIDEO_OFFLINE C)) ks)
                      = Some r → is_offline C r = true).
  { intros r. unfold set_key. rewrite assoc_dict_alter, decide_True by done.
    destruct (assoc key ks) as [r0|]; [|done]. intros [= <-].
    apply offline_row_offline. }
  apply (best_of_fewer ks); [| | | |apply best_of_bestsessionid].
  - intros k. rewrite !elem_of_live_ids by done. intros (r & Hr & Ho).
    destruct (decide (k = key)) as [->|Hne].
    + rewrite (Hoff r Hr) in Ho. done.
    + rewrite Hsame in Hr by done. by exists r.
  - intros k. rewrite !elem_of_flagged_ids by done. intros (r & Hr & Ho & Hf).
    destruct (decide (k = key)) as [->|Hne].
    + rewrite (Hoff r Hr) in Ho. done.
    + rewrite Hsame in Hr by done. by exists r.
  - rewrite !elem_of_live_ids by done. by rewrite Hsame.
  - rewrite !elem_of_flagged_ids by done. by rewrite Hsame.
Qed.

Lemma completed_vs r : is_Some (completed C r !! "vs").
Proof. rewrite completed_lookup. destruct (r !! "vs"); [done|]. by rewrite decide_True. Qed.

(** A value equal to [FCVIDEO.OFFLINE] is the video state of an offline
    session. *)
Lemma offline_of_eq r vs :
  r !! "vs" = Some vs → py_ne vs (VInt (FCVIDEO_OFFLINE C)) = false →
  is_offline C r = true.
Proof.
  intros Hvs Hne. unfold is_offline. rewrite Hvs, (offline_agree C).
  unfold py_ne in Hne. by apply negb_false_iff in Hne.
Qed.

(** The loop of [reset] does not raise, although it indexes ["vs"]: it
    keeps the keys and the best session, and leaves offline every session it
    visits but the best one. *)
Lemma reset_loop_spec keys ks :
  NoDup ks.*1 → (∀ k, k ∈ keys → k ∈ ks.*1) →
  ∃ ks', reset_loop C keys ks = (ks', None)
    ∧ ks'.*1 = ks.*1
    ∧ (bestsessionid C ks').1 = (bestsessionid C ks).1
    ∧ (∀ k r, assoc k ks = Some r → is_offline C r = true →
         ∃ r', assoc k ks' = Some r' ∧ is_offline C r' = true)
    ∧ (∀ k r', assoc k ks' = Some r' → k ∈ keys →
         k ≠ (bestsessionid C ks).1 → is_offline C r' = true).
Proof.
  revert ks. induction keys as [|key keys IH]; intros ks Hnd Hkeys.
  - exists ks. split_and!; [done|done|done|by eauto|].
    by intros k r' _ ?%elem_of_nil.
  - assert (Hstep : ∃ ksa,
        reset_loop C (key :: keys) ks = reset_loop C keys ksa
        ∧ ksa.*1 = ks.*1
        ∧ (bestsessionid C ksa).1 = (bestsessionid C ks).1
        ∧ (∀ k r, assoc k ks = Some r → is_offline C r = true →
             ∃ r', assoc k ksa = Some r' ∧ is_offline C r' = true)
        ∧ (key ≠ (bestsessionid C ks).1 →
           ∃ r', assoc key ksa = Some r' ∧ is_offline C r' = true)).
    { simpl. pose proof (bestsessionid_again C ks) as Hagain.
      pose proof (bestsessionid_snd C ks) as Hsnd.
      destruct (bestsessionid C ks) as [best ks1]. cbn [fst snd] in *.
      assert (Hk1 : ks1.*1 = ks.*1) by (by rewrite Hsnd, fmap_rows_keys).
      assert (Hb1 : (bestsessionid C ks1).1 = best) by (by rewrite Hagain).
      assert (Ho1 : ∀ k r, assoc k ks = Some r → is_offline C r = true →
                ∃ r', assoc k ks1 = Some r' ∧ is_offline C r' = true).
      { intros k r Hr Ho. exists (completed C r).
        rewrite Hsnd, assoc_fmap_rows, Hr. split; [done|].
        by rewrite completed_offline. }
      destruct (key_assoc key ks) as [r0 Hr0].
      { apply Hkeys, list_elem_of_here. }
      assert (Hrow : assoc key ks1 = Some (completed C r0)).
      { by rewrite Hsnd, assoc_fmap_rows, Hr0. }
      case_bool_decide as Hkey.
      2: { exists ks1. split_and!; [done|done|done|done|].
           intros Hne. by destruct Hkey. }
      unfold row_at. rewrite Hrow. simpl.
      destruct (completed_vs r0) as [vs Hvs]. rewrite Hvs.
      destruct (py_ne vs (VInt (FCVIDEO_OFFLINE C))) eqn:Hne.
      - exists (set_key key "vs" (VInt (FCVIDEO_OFFLINE C)) ks1).
        split_and!; [done| | | |].
        + unfold set_key. by rewrite dict_alter_keys.
        + rewrite bestsessionid_set_offline; [done|by rewrite Hk1|by rewrite Hb1].
        + intros k r Hr Ho. destruct (Ho1 k r Hr Ho) as (r' & Hr' & Ho').
          unfold set_key. rewrite assoc_dict_alter, Hr'.
          destruct (decide (key = k)); [|by eauto].
          eexists. split; [done|]. apply offline_row_offline.
        + intros _. unfold set_key. rewrite assoc_dict_alter, decide_True, Hrow by done.
          eexists. split; [done|]. apply offline_row_offline.
      - exists ks1. split_and!; [done|done|done|done|].
        intros _. exists (completed C r0). split; [done|].
        by eapply offline_of_eq. }
    destruct Hstep as (ksa & Heq & Hka & Hba & Hoa & Hkeya).
    destruct (IH ksa) as (ks' & Hloop & Hk' & Hb' & Ho' & Hkeys').
    { by rewrite Hka. }
    { intros k Hk. rewrite Hka. by apply Hkeys, list_elem_of_further. }
    exists ks'. split_and!; [congruence|congruence|congruence| |].
    + intros k r Hr Ho. destruct (Hoa k r Hr Ho) as (ra & Hra & Hoa').
      by apply (Ho' k ra).
    + intros k r' Hr' Hin Hne. apply elem_of_cons in Hin as [->|Hin].
      * destruct (Hkeya Hne) as (ra & Hra & Hoa').
        destruct (Ho' key ra Hra Hoa') as (r'' & Hr'' & Ho'').
        congruence.
      * apply (Hkeys' k r' Hr' Hin). by rewrite Hba.
Qed.
End ResetLoop.

Section ResetMerge.
Variable C : constants.
Implicit Types (ks : sessions) (r : row) (w : world) (m : Model).

(** An offline session has a video state that [FCVIDEO] maps to
    [OFFLINE], or none. *)
Lemma FCVIDEO_of_offline r v :
  is_offline C r = true → r !! "vs" = Some v →
  FCVIDEO C v = Ok (FCVIDEO_OFFLINE C).
Proof.
  intros Ho Hv. unfold is_offline in Ho. rewrite Hv in Ho.
  unfold FCVIDEO. destruct v as [a|d]; [|done]. simpl in *.
  assert (Ha : as_int a = Some (FCVIDEO_OFFLINE C)).
  { rewrite <- (offline_agree C).
    destruct a; simpl in *; try done; by apply bool_decide_eq_true in Ho. }
  by rewrite Ha, (offline_member C).
Qed.

Lemma all_offline_del key ks : all_offline C ks → all_offline C (dict_del key ks).
Proof.
  intros Hoff k r. rewrite assoc_dict_del. destruct (decide (key = k)); [done|].
  apply Hoff.
Qed.

Lemma filter_all {A} (P : A → Prop) `{∀ x, Decision (P x)} (l : list A) :
  (∀ x, P x) → filter P l = l.
Proof.
  intros HP. induction l as [|x l IH]; [done|].
  rewrite filter_cons_True by done. by f_equal.
Qed.

Lemma filter_none {A} (P : A → Prop) `{∀ x, Decision (P x)} (l : list A) :
  (∀ x, x ∈ l → ¬ P x) → filter P l = [].
Proof.
  intros HP. induction l as [|x l IH]; [done|].
  rewrite filter_cons_False by (apply HP, list_elem_of_here).
  apply IH. intros y Hy. by apply HP, list_elem_of_further.
Qed.

(** With every session offline the purge removes every key it visits and
    does not raise. *)
Lemma purge_loop_all_offline keys ks :
  all_offline C ks →
  purge_loop C keys ks = (filter (λ kr, kr.1 ∉ keys) ks, None).
Proof.
  revert ks. induction keys as [|key keys IH]; intros ks Hoff.
  - simpl. rewrite filter_all; [done|]. by intros kr ?%elem_of_nil.
  - assert (Hdel : purge_loop C keys (dict_del key ks)
                   = (filter (λ kr, kr.1 ∉ key :: keys) ks, None)).
    { rewrite IH by (by apply all_offline_del). f_equal.
      unfold dict_del. rewrite list_filter_filter. apply list_filter_iff.
      intros [k r]. simpl. rewrite not_elem_of_cons. naive_solver. }
    simpl. destruct (row_at key ks !! "vs") as [v|] eqn:Hv; [|done].
    unfold row_at in Hv. destruct (assoc key ks) as [r|] eqn:Hr; [|done].
    simpl in Hv. rewrite (FCVIDEO_of_offline r v (Hoff _ _ Hr) Hv).
    by rewrite Z.eqb_refl.
Qed.

Lemma purge_all_offline ks :
  all_offline C ks → _purgeoldsessions C ks = ([], None).
Proof.
  intros Hoff. unfold _purgeoldsessions. rewrite purge_loop_all_offline by done.
  f_equal. apply filter_none. intros [k r] Hin Hk. apply Hk.
  apply list_elem_of_fmap. by exists (k, r).
Qed.

(** With every session offline, the best session id is 0. *)
Lemma bestsessionid_all_offline ks :
  NoDup ks.*1 → all_offline C ks → (bestsessionid C ks).1 = 0.
Proof.
  intros Hnd Hoff. rewrite bestsessionid_fst, <- best_loop_skips_offline.
  rewrite filter_none; [done|].
  intros [k r] Hin Ho. simpl in Ho.
  rewrite (Hoff k r) in Ho; [done|]. by apply NoDup_assoc.
Qed.

Lemma all_offline_completed ks :
  all_offline C ks → all_offline C (bestsessionid C ks).2.
Proof.
  intros Hoff k r. rewrite bestsessionid_snd, assoc_fmap_rows.
  destruct (assoc k ks) as [r0|] eqn:Hr0; [|done]. intros [= <-].
  rewrite completed_offline. by eapply Hoff.
Qed.

Lemma all_offline_bestsession uid ks :
  all_offline C ks → all_offline C (bestsession C uid ks).2.
Proof.
  intros Hoff. rewrite bestsession_eq. cbn [snd].
  pose proof (all_offline_completed ks Hoff) as Hc.
  unfold dict_setdefault. destruct (assoc _ _); [done|].
  intros k r. rewrite assoc_snoc. destruct (assoc k _) as [r0|] eqn:Hr0.
  - intros [= <-]. by eapply Hc.
  - destruct (decide _); [|done]. intros [= <-]. apply default_offline.
Qed.

Lemma all_offline_update_nm uid nm ks :
  all_offline C ks → all_offline C (update_nm C uid nm ks).2.
Proof.
  intros Hoff. unfold update_nm.
  pose proof (all_offline_bestsession uid ks Hoff) as H1.
  destruct (bestsession C uid ks) as [b1 ks1]. cbn [snd] in H1.
  destruct (row_at b1 ks1 !! "nm"); [|done].
  pose proof (all_offline_bestsession uid ks1 H1) as H2.
  destruct (bestsession C uid ks1) as [b2 ks2]. cbn [snd] in H2.
  destruct (py_ne _ nm); [|done].
  pose proof (all_offline_bestsession uid ks2 H2) as H3.
  by destruct (bestsession C uid ks2) as [b3 ks3].
Qed.

(** The update that the payload of [reset] makes: the best session is both
    the previous and the current one, it takes the three values, and every
    session is offline afterwards. *)
Lemma merge_update_blank uid ks B :
  NoDup ks.*1 → (bestsessionid C ks).1 = B →
  (∀ k r, assoc k ks = Some r → k ≠ B → is_offline C r = true) →
  ∃ ks5,
    merge_update C uid (blank C B uid) ks
    = ({| u_sessions := ks5; u_prev := B; u_cur := B;
          u_stack := (λ kv, (kv.1, default VNone (best_row C uid ks !! kv.1), kv.2))
                       <$> blank C B uid |}, None)
    ∧ NoDup ks5.*1 ∧ all_offline C ks5
    ∧ row_at B ks5 !! "sid" = Some (VInt B).
Proof.
  intros Hnd HB Hoff.
  set (ks3 := dict_setdefault B (_default_session C uid) (bestsessionid C ks).2).
  assert (HB3 : is_Some (assoc B ks3)) by apply assoc_setdefault_eq.
  assert (Hrow3 : row_at B ks3 = best_row C uid ks).
  { unfold best_row. rewrite bestsession_eq. cbn [fst snd]. by rewrite HB. }
  assert (Hnd3 : NoDup ks3.*1).
  { unfold ks3, dict_setdefault.
    assert (Hndc : NoDup ((bestsessionid C ks).2).*1).
    { by rewrite bestsessionid_snd, fmap_rows_keys. }
    destruct (assoc B (bestsessionid C ks).2) eqn:E; [done|].
    by apply NoDup_keys_snoc. }
  assert (Hoff3 : ∀ k r, assoc k ks3 = Some r → k ≠ B → is_offline C r = true).
  { intros k r Hr Hne. revert Hr. unfold ks3, dict_setdefault.
    assert (Hc : ∀ r, assoc k (bestsessionid C ks).2 = Some r →
                      is_offline C r = true).
    { intros r'. rewrite bestsessionid_snd, assoc_fmap_rows.
      destruct (assoc k ks) as [r0|] eqn:Hr0; [|done]. intros [= <-].
      rewrite completed_offline. by eapply Hoff. }
    destruct (assoc B (bestsessionid C ks).2); [by apply Hc|].
    rewrite assoc_snoc. destruct (assoc k (bestsessionid C ks).2) as [r0|] eqn:E.
    - intros [= <-]. by apply Hc.
    - by rewrite decide_False by done. }
  set (ks5 := set_key B "vs" (VInt (FCVIDEO_OFFLINE C))
                (set_key B "uid" (VInt uid) (set_key B "sid" (VInt B) ks3))).
  assert (Hrow5 : row_at B ks5
                  = <["vs" := VInt (FCVIDEO_OFFLINE C)]>
                      (<["uid" := VInt uid]> (<["sid" := VInt B]> (row_at B ks3)))).
  { unfold ks5. rewrite !row_at_set_key; [done|done| |];
      by rewrite ?set_key_is_Some. }
  exists ks5. split_and!.
  - unfold merge_update. rewrite bestsession_eq. cbn [fst snd]. rewrite HB.
    fold ks3. change (payload_sid (blank C B uid)) with (@Ok Z B). cbv iota.
    assert (Hsd : dict_setdefault B (_default_session C uid) ks3 = ks3).
    { unfold dict_setdefault at 1. by destruct HB3 as [r ->]. }
    rewrite Hsd.
    change (merge_fields C B B (blank C B uid) (ks3, []))
      with (merge_leaf B B "vs" (VInt (FCVIDEO_OFFLINE C))
              (merge_leaf B B "uid" (VInt uid)
                 (merge_leaf B B "sid" (VInt B) (ks3, []))), @None exn).
    unfold merge_leaf. cbn [fst snd]. fold ks5.
    rewrite Hrow5. rewrite !lookup_insert_ne by done. rewrite lookup_insert_eq.
    unfold py_ne. rewrite py_eq_refl. cbn [negb]. do 2 f_equal.
    simpl. unfold before_of.
    rewrite !row_at_set_key by (by rewrite ?set_key_is_Some).
    rewrite !lookup_insert_ne by done. by rewrite Hrow3.
  - unfold ks5, set_key. by rewrite !dict_alter_keys.
  - intros k r. destruct (decide (k = B)) as [->|Hne].
    + intros Hr. unfold row_at in Hrow5. rewrite Hr in Hrow5. simpl in Hrow5.
      rewrite Hrow5. apply offline_row_offline.
    + unfold ks5, set_key. rewrite !assoc_dict_alter.
      rewrite !decide_False by done. intros Hr. by eapply Hoff3.
  - rewrite Hrow5. rewrite !lookup_insert_ne by done. by rewrite lookup_insert_eq.
Qed.

(** [merge] of the payload of [reset]: it returns, is visible, and leaves
    the model without a session. *)
Lemma merge_blank self w m B :
  heap w !! self = Some m → uid m ≠ -500 →
  NoDup (knownsessions m).*1 → (bestsessionid C (knownsessions m)).1 = B →
  (∀ k r, assoc k (knownsessions m) = Some r → k ≠ B → is_offline C r = true) →
  ∃ w' calls m',
    merge C self (blank C B (uid m)) w
    = (w',
       emit_changes self (All w)
         ((λ kv, (kv.1, default VNone (best_row C (uid m) (knownsessions m) !! kv.1),
                  kv.2)) <$> blank C B (uid m))
       ++ emit_any self (All w) (blank C B (uid m)) ++ calls,
       None)
    ∧ Forall (λ ev, is_call ev = true) calls
    ∧ heap w' !! self = Some m'
    ∧ knownsessions m' = [] ∧ uid m' = uid m ∧ tags m' = tags m.
Proof.
  intros Hm Hid Hnd HB Hoff.
  destruct (merge_update_blank (uid m) (knownsessions m) B Hnd HB Hoff)
    as (ks5 & Hu & Hnd5 & Hoff5 & Hsid5).
  pose proof (bestsessionid_all_offline ks5 Hnd5 Hoff5) as Hbest5.
  assert (Hvis : py_eq (VInt (bestsessionid C ks5).1) (VInt B)
                 || ((bestsessionid C ks5).1 =? 0) && py_ne (VInt B) (VInt 0) = true).
  { rewrite Hbest5. unfold py_ne. simpl.
    destruct (decide (B = 0)) as [->|Hne].
    - by rewrite bool_decide_eq_true_2.
    - rewrite (bool_decide_eq_false_2 (Some B = Some 0)) by congruence.
      by rewrite orb_true_r. }
  pose proof (all_offline_update_nm (uid m) (nm m) _
                (all_offline_completed ks5 Hoff5)) as Hoff7.
  assert (Happly : ∃ nm' ks7,
    merge_apply C self (blank C B (uid m)) w
    = (store self (set_nm nm' (set_knownsessions ks7 m)) w,
       emit_changes self (All w)
         ((λ kv, (kv.1, default VNone (best_row C (uid m) (knownsessions m) !! kv.1),
                  kv.2)) <$> blank C B (uid m))
       ++ emit_any self (All w) (blank C B (uid m)),
       None, true)
    ∧ all_offline C ks7).
  { unfold merge_apply. rewrite Hm, (bool_decide_eq_false_2 _ Hid).
    change (level_ok C (blank C B (uid m))) with true. cbn [negb]. cbv iota.
    rewrite Hu. cbn [u_cur u_sessions u_stack].
    rewrite merge_visible_spec, Hsid5, Hvis.
    destruct (update_nm C (uid m) (nm m) (bestsessionid C ks5).2) as [nm' ks7].
    by exists nm', ks7. }
  destruct Happly as (nm' & ks7 & Happly & Hoff7').
  unfold merge. rewrite Happly.
  pose proof (process_whens_calls self (ArgPayload (blank C B (uid m)))
    (store self (set_nm nm' (set_knownsessions ks7 m)) w)) as Hcalls.
  destruct (_process_whens self (ArgPayload (blank C B (uid m)))
    (store self (set_nm nm' (set_knownsessions ks7 m)) w)) as [w2 calls] eqn:Hw.
  assert (Hm1 : heap (store self (set_nm nm' (set_knownsessions ks7 m)) w) !! self
                = Some (set_nm nm' (set_knownsessions ks7 m))).
  { apply store_lookup_eq. by rewrite Hm. }
  destruct (process_whens_lookup _ _ _ _ _ _ _ Hw Hm1) as (m2 & Hm2 & Hsnap).
  assert (Hks2 : knownsessions m2 = ks7).
  { change (s_knownsessions (snapshot_of m2) = ks7). by rewrite Hsnap. }
  unfold purge_at. rewrite Hm2, Hks2, (purge_all_offline ks7 Hoff7').
  exists (store self (set_knownsessions [] m2) w2), calls, (set_knownsessions [] m2).
  split_and!.
  - by rewrite <- app_assoc.
  - done.
  - apply store_lookup_eq. by rewrite Hm2.
  - done.
  - change (s_uid (snapshot_of m2) = uid m). by rewrite Hsnap.
  - change (s_tags (snapshot_of m2) = tags m). by rewrite Hsnap.
Qed.

(** [reset] on a model other than [Model.All]. *)
Lemma reset_model_spec self w m :
  heap w !! self = Some m → uid m ≠ -500 → NoDup (knownsessions m).*1 →
  ∃ w' calls m' (before : row),
    reset_model C self w
    = (w',
       emit_changes self (All w)
         ((λ kv, (kv.1, default VNone (before !! kv.1), kv.2))
            <$> blank C (bestsessionid C (knownsessions m)).1 (uid m))
       ++ emit_any self (All w)
            (blank C (bestsessionid C (knownsessions m)).1 (uid m))
       ++ calls,
       None)
    ∧ Forall (λ ev, is_call ev = true) calls
    ∧ heap w' !! self = Some m'
    ∧ knownsessions m' = [] ∧ uid m' = uid m ∧ tags m' = tags m.
Proof.
  intros Hm Hid Hnd.
  destruct (reset_loop_spec C (knownsessions m).*1 (knownsessions m) Hnd)
    as (ks1 & Hloop & Hk1 & Hb1 & _ & Hoff1); [done|].
  unfold reset_model. rewrite Hm, Hloop.
  pose proof (bestsessionid_again C ks1) as Hagain.
  pose proof (bestsessionid_snd C ks1) as Hsnd.
  destruct (bestsessionid C ks1) as [best ks2] eqn:Hbest. cbn [fst snd] in *.
  subst best.
  set (m0 := set_knownsessions ks2 m).
  assert (Hm0 : heap (store self m0 w) !! self = Some m0).
  { apply store_lookup_eq. by rewrite Hm. }
  destruct (merge_blank self (store self m0 w) m0
              (bestsessionid C (knownsessions m)).1 Hm0 Hid)
    as (w' & calls & m' & Hmerge & Hcalls & Hm' & Hks' & Hu' & Ht').
  - simpl. by rewrite Hsnd, fmap_rows_keys, Hk1.
  - simpl. by rewrite Hagain.
  - simpl. intros k r. rewrite Hsnd, assoc_fmap_rows.
    destruct (assoc k ks1) as [r1|] eqn:Hr1; [|done]. intros [= <-] Hne.
    rewrite completed_offline. apply (Hoff1 k r1 Hr1); [|done].
    rewrite <- Hk1. by eapply assoc_Some_key.
  - exists w', calls, m', (best_row C (uid m) ks2).
    split_and!; try done.
Qed.
End ResetMerge.

Section ResetAll.
Variable C : constants.
Implicit Types (w : world) (m : Model).

Lemma reset_model_changes_only self w :
  changes_only self (λ s, (s_uid s, s_tags s)) w (reset_model C self w).1.1.
Proof.
  unfold reset_model. destruct (heap w !! self) as [m|] eqn:Hm.
  2: { apply changes_only_refl. }
  destruct (reset_loop C (knownsessions m).*1 (knownsessions m)) as [ks1 [e|]].
  { by apply (changes_only_store _ _ _ m). }
  destruct (bestsessionid C ks1) as [best ks2].
  apply (changes_only_trans _ _ _ (store self (set_knownsessions ks2 m) w)).
  - by apply (changes_only_store _ _ _ m).
  - apply merge_changes_only.
Qed.

Lemma snapshot_lookup w w' (a : addr) m :
  snapshot_of <$> heap w' !! a = snapshot_of <$> heap w !! a →
  heap w !! a = Some m →
  ∃ m', heap w' !! a = Some m' ∧ snapshot_of m' = snapshot_of m.
Proof.
  intros Hs Hm. rewrite Hm in Hs. destruct (heap w' !! a) as [m'|]; [|done].
  exists m'. split; [done|]. by apply (inj Some) in Hs.
Qed.

Lemma reset_all_spec models w :
  (∀ a : addr, a ∈ models →
     ∃ m, heap w !! a = Some m ∧ NoDup (knownsessions m).*1) →
  ∃ w' evs,
    reset_all C models w = (w', evs, None)
    ∧ (∀ a : addr, a ∉ models →
         snapshot_of <$> heap w' !! a = snapshot_of <$> heap w !! a)
    ∧ (∀ a : addr, a ∈ models →
         ∃ m m', heap w !! a = Some m ∧ heap w' !! a = Some m'
                 ∧ uid m' = uid m ∧ tags m' = tags m
                 ∧ (uid m ≠ -500 → knownsessions m' = [])).
Proof.
  revert w. induction models as [|a models IH]; intros w Hall.
  - exists w, []. split_and!; [done|done|]. by intros a ?%elem_of_nil.
  - destruct (Hall a) as (m & Hm & Hnd); [apply list_elem_of_here|].
    simpl. rewrite Hm. case_bool_decide as Hid.
    + destruct (reset_model_spec C a w m Hm Hid Hnd)
        as (w1 & calls & m1 & before & Hreset & _ & Hm1 & Hks1 & Hu1 & Ht1).
      pose proof (reset_model_changes_only a w) as Hframe.
      rewrite Hreset in *. cbn [fst] in Hframe.
      destruct Hframe as (_ & _ & _ & Hothers & _).
      destruct (IH w1) as (w2 & evs2 & Hrest & Hf2 & Hin2).
      { intros b Hb. destruct (decide (b = a)) as [->|Hne].
        - exists m1. split; [done|]. rewrite Hks1. constructor.
        - destruct (Hall b) as (mb & Hmb & Hndb); [by apply list_elem_of_further|].
          destruct (snapshot_lookup w w1 b mb (Hothers b Hne) Hmb) as (mb1 & Hmb1 & Hs).
          exists mb1. split; [done|].
          change (NoDup (s_knownsessions (snapshot_of mb1)).*1). by rewrite Hs. }
      rewrite Hrest. eexists _, _. split_and!; [done| |].
      * intros b Hb. apply not_elem_of_cons in Hb as [Hne Hb].
        by rewrite Hf2, Hothers.
      * assert (Ha : ∃ m', heap w2 !! a = Some m' ∧ uid m' = uid m
                       ∧ tags m' = tags m ∧ knownsessions m' = []).
        { destruct (decide (a ∈ models)) as [Hin|Hnin].
          - destruct (Hin2 a Hin) as (m1' & m' & Hm1' & Hm' & Hu' & Ht' & Hks').
            rewrite Hm1 in Hm1'. injection Hm1' as <-.
            exists m'. split_and!; [done|congruence|congruence|].
            apply Hks'. congruence.
          - destruct (snapshot_lookup w1 w2 a m1 (Hf2 a Hnin) Hm1) as (m' & Hm' & Hs).
            exists m'. split_and!; [done| | |].
            + change (s_uid (snapshot_of m') = uid m). by rewrite Hs.
            + change (s_tags (snapshot_of m') = tags m). by rewrite Hs.
            + change (s_knownsessions (snapshot_of m') = []). by rewrite Hs. }
        intros b Hb. destruct (decide (b = a)) as [->|Hne].
        { destruct Ha as (m' & Hm' & Hu' & Ht' & Hks'). by exists m, m'. }
        apply elem_of_cons in Hb as [->|Hb]; [done|].
        destruct (Hin2 b Hb) as (mb1 & m' & Hmb1 & Hm' & Hu' & Ht' & Hks').
        destruct (Hall b) as (mb & Hmb & _); [by apply list_elem_of_further|].
        destruct (snapshot_lookup w w1 b mb (Hothers b Hne) Hmb) as (mb1' & Hmb1' & Hs).
        rewrite Hmb1 in Hmb1'. injection Hmb1' as <-.
        assert (Hub : uid mb1 = uid mb).
        { change (s_uid (snapshot_of mb1) = s_uid (snapshot_of mb)). by rewrite Hs. }
        assert (Htb : tags mb1 = tags mb).
        { change (s_tags (snapshot_of mb1) = s_tags (snapshot_of mb)). by rewrite Hs. }
        exists mb, m'. split_and!; [done|done|congruence|congruence|].
        intros Hidb. apply Hks'. congruence.
    + destruct (IH w) as (w2 & evs2 & Hrest & Hf2 & Hin2).
      { intros b Hb. apply Hall. by apply list_elem_of_further. }
      rewrite Hrest. exists w2, evs2. split_and!; [done| |].
      * intros b Hb. apply not_elem_of_cons in Hb as [Hne Hb]. by apply Hf2.
      * intros b Hb. destruct (decide (b ∈ models)) as [Hin|Hnin]; [by apply Hin2|].
        apply elem_of_cons in Hb as [->|Hb]; [|done].
        destruct (snapshot_lookup w w2 a m (Hf2 a Hnin) Hm) as (m' & Hm' & Hs).
        exists m, m'. split_and!; [done|done| | |done].
        -- change (s_uid (snapshot_of m') = s_uid (snapshot_of m)). by rewrite Hs.
        -- change (s_tags (snapshot_of m') = s_tags (snapshot_of m)). by rewrite Hs.
Qed.
End ResetAll.

(** X10.  [reset] on a model other than [Model.All] whose sessions form a
    dictionary does not raise and leaves the model without any session.  It
    is always a visible merge: it emits the changes of ["sid"], ["uid"] and
    ["vs"] against one row, then ["ANY"] with the payload whose ["sid"] is
    the best session id the model had, and then calls watchers. *)
Theorem reset_clears_sessions (C : constants) (self : addr) (w : world) (m : Model) :
  heap w !! self = Some m → uid m ≠ -500 → NoDup (knownsessions m).*1 →
  ∃ (w' : world) (calls : list event) (m' : Model) (before : row),
    reset C self w
    = (w',
       emit_changes self (All w)
         ((λ kv, (kv.1, default VNone (before !! kv.1), kv.2))
            <$> blank C (bestsessionid C (knownsessions m)).1 (uid m))
       ++ emit_any self (All w)
            (blank C (bestsessionid C (knownsessions m)).1 (uid m))
       ++ calls,
       None)
    ∧ Forall (λ ev, is_call ev = true) calls
    ∧ heap w' !! self = Some m'
    ∧ knownsessions m' = [] ∧ uid m' = uid m ∧ tags m' = tags m.
Proof.
  intros Hm Hid Hnd. unfold reset. rewrite Hm, (bool_decide_eq_true_2 _ Hid).
  by apply reset_model_spec.
Qed.

Lemma reset_clears_sessions_witness :
  ∃ (w' : world) (calls : list event) (m' : Model) (before : row),
    reset mfc 1%nat sample_two
    = (w',
       emit_changes 1%nat (All sample_two)
         ((λ kv, (kv.1, default VNone (before !! kv.1), kv.2))
            <$> blank mfc (bestsessionid mfc (knownsessions sample_model)).1
                  (uid sample_model))
       ++ emit_any 1%nat (All sample_two)
            (blank mfc (bestsessionid mfc (knownsessions sample_model)).1
               (uid sample_model))
       ++ calls,
       None)
    ∧ Forall (λ ev, is_call ev = true) calls
    ∧ heap w' !! 1%nat = Some m'
    ∧ knownsessions m' = [] ∧ uid m' = uid sample_model
    ∧ tags m' = tags sample_model.
Proof.
  apply (reset_clears_sessions mfc 1%nat sample_two sample_model).
  - vm_compute. reflexivity.
  - vm_compute. discriminate.
  - vm_compute. repeat constructor. set_solver.
Defined.

(** X11.  [reset] on [Model.All] resets every registered model: when the
    registered models are allocated and their sessions form dictionaries, it
    does not raise, and it leaves every registered model but [Model.All]
    without any session, with its uid and its tags. *)
Theorem reset_all_clears_sessions (C : constants) (w : world) (mall : Model) :
  heap w !! All w = Some mall → uid mall = -500 →
  (∀ n (a : addr), (n, a) ∈ KNOWNMODELS w →
     ∃ m, heap w !! a = Some m ∧ NoDup (knownsessions m).*1) →
  ∃ (w' : world) (evs : list event),
    reset C (All w) w = (w', evs, None)
    ∧ ∀ n (a : addr), (n, a) ∈ KNOWNMODELS w →
        ∃ m m', heap w !! a = Some m ∧ heap w' !! a = Some m'
                ∧ uid m' = uid m ∧ tags m' = tags m
                ∧ (uid m ≠ -500 → knownsessions m' = []).
Proof.
  intros Hmall Hid Hreg. unfold reset. rewrite Hmall.
  rewrite bool_decide_eq_false_2 by (intros Hne; by apply Hne).
  destruct (reset_all_spec C (KNOWNMODELS w).*2 w) as (w' & evs & Hr & _ & Hin).
  - intros a ([n a'] & -> & Hna)%list_elem_of_fmap. by apply (Hreg n).
  - exists w', evs. split; [done|]. intros n a Hna. apply Hin.
    apply list_elem_of_fmap. by exists (n, a).
Qed.

Lemma reset_all_clears_sessions_witness :
  ∃ (w' : world) (evs : list event),
    reset mfc (All sample_two) sample_two = (w', evs, None)
    ∧ ∀ n (a : addr), (n, a) ∈ KNOWNMODELS sample_two →
        ∃ m m', heap sample_two !! a = Some m ∧ heap w' !! a = Some m'
                ∧ uid m' = uid m ∧ tags m' = tags m
                ∧ (uid m ≠ -500 → knownsessions m' = []).
Proof.
  apply (reset_all_clears_sessions mfc sample_two (Model_init (-500))).
  - vm_compute. reflexivity.
  - reflexivity.
  - intros n a Hna.
    assert (HK : KNOWNMODELS sample_two = [(-500, 0%nat); (7, 1%nat); (8, 2%nat)])
      by (vm_compute; reflexivity).
    rewrite HK in Hna.
    repeat (apply elem_of_cons in Hna as [[= -> ->]|Hna];
            [eexists; split; [vm_compute; reflexivity|
                              vm_compute; repeat constructor; set_solver]|]).
    by apply elem_of_nil in Hna.
Defined.

(** ** [find_models] *)

Section FindModels.
Implicit Types (w : world) (m : Model).

Lemma find_models_elem (func : snapshot → bool) w (a : addr) :
  a ∈ find_models func w
  ↔ (∃ n, (n, a) ∈ KNOWNMODELS w)
    ∧ ∃ m, heap w !! a = Some m ∧ func (snapshot_of m) = true.
Proof.
  unfold find_models. rewrite list_elem_of_filter, list_elem_of_fmap. split.
  - intros [Hf ([n a'] & Heq & Hin)]. cbn [snd] in Heq. subst a'.
    split; [by exists n|].
    destruct (heap w !! a) as [m|]; [|done]. exists m. split; [done|].
    simpl in Hf. by apply Is_true_true.
  - intros [[n Hin] (m & Hm & Hf)]. split.
    + rewrite Hm. simpl. by apply Is_true_true.
    + by exists (n, a).
Qed.

Lemma find_models_uid_list (K : list (Z * addr)) (h : list Model) n :
  NoDup K.*1 →
  (∀ k (a : addr), (k, a) ∈ K → uid <$> h !! a = Some k) →
  filter (λ a : addr, Is_true (from_option
            (λ m, bool_decide (s_uid (snapshot_of m) = n)) false (h !! a))) K.*2
  = match assoc n K with Some a => [a] | None => [] end.
Proof.
  induction K as [|[k a] K IH]; [done|].
  rewrite !fmap_cons. intros [Hk Hnd]%NoDup_cons Hreg. cbn [fst snd assoc].
  assert (Ha : uid <$> h !! a = Some k) by (apply Hreg, list_elem_of_here).
  assert (Hrest : ∀ k' (a' : addr), (k', a') ∈ K → uid <$> h !! a' = Some k').
  { intros k' a' Hin. by apply Hreg, list_elem_of_further. }
  specialize (IH Hnd Hrest).
  destruct (h !! a) as [m|] eqn:Hm; [|done]. injection Ha as Ha.
  destruct (decide (k = n)) as [->|Hne].
  - rewrite filter_cons_True.
    2: { rewrite Hm. simpl. apply Is_true_true. by apply bool_decide_eq_true. }
    f_equal. rewrite IH. rewrite assoc_None_key; [done|exact Hk].
  - rewrite filter_cons_False; [exact IH|].
    rewrite Hm. simpl. intros H%Is_true_true%bool_decide_eq_true. congruence.
Qed.

Lemma sample_two_registry_ok : registry_ok sample_two.
Proof.
  unfold sample_two. cbv zeta.
  apply (registry_ok_same_uids
           (merge mfc 1%nat sample_alice (get_model (UInt 8) true sample_world).1).1.1);
    try apply (merge_keeps_registry mfc).
  apply (registry_ok_same_uids (get_model (UInt 8) true sample_world).1);
    try apply (merge_keeps_registry mfc).
  apply get_model_keeps_registry. unfold sample_world.
  apply get_model_keeps_registry. apply initial_world_registry_ok.
Qed.
End FindModels.

(** X12.  A model is found by [find_models] exactly when it is registered
    and satisfies the predicate; and in a world whose registry is in order,
    looking a uid up with [find_models] gives the one model that
    [get_model(uid, create=False)] gives, or none. *)
Theorem find_models_by_uid (w : world) (n : Z) :
  registry_ok w →
  (∀ (func : snapshot → bool) (a : addr),
     a ∈ find_models func w
     ↔ (∃ k, (k, a) ∈ KNOWNMODELS w)
       ∧ ∃ m, heap w !! a = Some m ∧ func (snapshot_of m) = true)
  ∧ get_model (UInt n) false w = (w, Ok (assoc n (KNOWNMODELS w)))
  ∧ find_models (λ s, bool_decide (s_uid s = n)) w
    = match assoc n (KNOWNMODELS w) with Some a => [a] | None => [] end.
Proof.
  intros (Hnd & Hreg & _). split_and!.
  - intros func a. apply find_models_elem.
  - done.
  - unfold find_models. apply find_models_uid_list; [done|].
    intros k a Hin. apply Hreg. by apply NoDup_assoc.
Qed.

Lemma find_models_by_uid_witness :
  (∀ (func : snapshot → bool) (a : addr),
     a ∈ find_models func sample_two
     ↔ (∃ k, (k, a) ∈ KNOWNMODELS sample_two)
       ∧ ∃ m, heap sample_two !! a = Some m ∧ func (snapshot_of m) = true)
  ∧ get_model (UInt 7) false sample_two
    = (sample_two, Ok (assoc 7 (KNOWNMODELS sample_two)))
  ∧ find_models (λ s, bool_decide (s_uid s = 7)) sample_two
    = match assoc 7 (KNOWNMODELS sample_two) with Some a => [a] | None => [] end.
Proof.
  apply (find_models_by_uid sample_two 7). apply sample_two_registry_ok.
Defined.

(** ** A merge that raises *)

Section MergeRaises.
Variable C : constants.
Implicit Types (ks : sessions) (w : world) (m : Model).

Lemma purge_loop_raises keys ks ks' e :
  purge_loop C keys ks = (ks', Some e) → e = ValueError.
Proof.
  revert ks. induction keys as [|key keys IH]; intros ks; simpl; [done|].
  destruct (row_at key ks !! "vs") as [v|]; [|apply IH].
  unfold FCVIDEO. destruct (value_int v) as [n|].
  - destruct (FCVIDEO_member C n).
    + destruct (n =? FCVIDEO_OFFLINE C); apply IH.
    + by intros [= _ <-].
  - by intros [= _ <-].
Qed.

Lemma merge_group_raises pk ck key kvs s e :
  (merge_group C pk ck key kvs s).2 = Some e → e = TypeError.
Proof.
  revert s. induction kvs as [|[key2 a] kvs IH]; intros s; [done|]. simpl.
  destruct (bool_decide (key = "m"%string) && bool_decide (key2 = "flags"%string)).
  - destruct (as_int a); [apply IH|]. by intros [= <-].
  - apply IH.
Qed.

Lemma merge_fields_raises pk ck p s e :
  (merge_fields C pk ck p s).2 = Some e → e = TypeError.
Proof.
  revert s. induction p as [|[key v] p IH]; intros s; [done|]. simpl.
  destruct (is_group_key key); [|apply IH].
  destruct v as [a|kvs].
  - destruct a as [| | |str]; try (by intros [= <-]).
    destruct str; [apply IH|by intros [= <-]].
  - pose proof (merge_group_raises pk ck key kvs s) as Hg.
    destruct (merge_group C pk ck key kvs s) as [s1 [e1|]]; [|apply IH].
    simpl in *. intros [= <-]. by apply Hg.
Qed.

Lemma merge_update_raises uid p ks u e :
  merge_update C uid p ks = (u, Some e) → e ≠ ValueError.
Proof.
  unfold merge_update. destruct (bestsession C uid ks) as [pk ks1].
  destruct (payload_sid p) as [ck|e0] eqn:Hsid.
  2: { intros [= _ <-]. unfold payload_sid in Hsid.
       destruct (assoc "sid"%string p) as [[a|d]|]; [|by injection Hsid as <-|done].
       destruct (as_int a); [done|]. by injection Hsid as <-. }
  pose proof (merge_fields_raises pk ck p
                (dict_setdefault ck (_default_session C uid) ks1, [])) as Hf.
  destruct (merge_fields C pk ck p _) as [[ks3 stack] [e1|]].
  - intros [= _ <-]. by rewrite (Hf e1 eq_refl).
  - destruct (row_at ck ks3 !! "sid"), (row_at pk ks3 !! "sid");
      try (by intros [= _ <-]).
    by destruct (py_ne _ _).
Qed.

Lemma merge_visible_raises ck ks vis ks' e :
  merge_visible C ck ks = (vis, ks', Some e) → e = KeyError.
Proof.
  rewrite merge_visible_spec. destruct (row_at ck ks !! "sid"); [done|].
  by intros [= _ _ <-].
Qed.

Lemma merge_apply_raises self p w w1 evs e visible :
  merge_apply C self p w = (w1, evs, Some e, visible) →
  e ≠ ValueError ∧ evs = [] ∧ visible = false.
Proof.
  unfold merge_apply. destruct (heap w !! self) as [m|]; [|by intros [= _ <- <- <-]].
  case_bool_decide; [by intros [= _ <- <- <-]|].
  destruct (negb (level_ok C p)); [by intros [= _ <- <- <-]|].
  pose proof (merge_update_raises (uid m) p (knownsessions m)) as Hu.
  destruct (merge_update C (uid m) p (knownsessions m)) as [u [e0|]].
  { intros [= _ <- <- <-]. split; [by eapply Hu|done]. }
  pose proof (merge_visible_raises (u_cur u) (u_sessions u)) as Hv.
  destruct (merge_visible C (u_cur u) (u_sessions u)) as [[vis ks1] [e1|]].
  { intros [= _ <- <- <-]. by rewrite (Hv _ _ _ eq_refl). }
  destruct vis; [|done]. by destruct (update_nm _ _ _ _).
Qed.
End MergeRaises.

(** X13.  A merge that raises has either stopped before any notification (it
    has emitted nothing, run no watcher and purged nothing: what it has
    written so far into the sessions stays) or, when the exception is
    [ValueError], was stopped by the purge, after every notification and
    every watcher call was made.  [ValueError] comes from the purge only. *)
Theorem merge_raises (C : constants) (self : addr) (p : payload) (w w' : world)
    (evs : list event) (e : exn) :
  merge C self p w = (w', evs, Some e) →
  (e ≠ ValueError
   ∧ evs = []
   ∧ merge_apply C self p w = (w', [], Some e, false)
   ∧ same_watchers w w')
  ∨ (e = ValueError
     ∧ ∃ (w1 w2 : world) (emitted calls : list event) (visible : bool),
         merge_apply C self p w = (w1, emitted, None, visible)
         ∧ (if visible then _process_whens self (ArgPayload p) w1 else (w1, []))
           = (w2, calls)
         ∧ evs = emitted ++ calls
         ∧ purge_at C self w2 = (w', Some ValueError)).
Proof.
  unfold merge.
  destruct (merge_apply C self p w) as [[[w1 evs1] e1] visible] eqn:Ha.
  destruct e1 as [e1|].
  - intros [= <- <- <-]. left.
    destruct (merge_apply_raises C _ _ _ _ _ _ _ Ha) as (He & -> & ->).
    split_and!; [done|done|done|].
    by destruct (merge_apply_watchers C _ _ _ _ _ _ _ Ha) as (Hs & _).
  - destruct (if visible then _ else _) as [w2 calls] eqn:Hw.
    destruct (purge_at C self w2) as [w3 e3] eqn:Hpu.
    intros [= <- <- ->]. right.
    assert (He : e = ValueError).
    { revert Hpu. unfold purge_at. destruct (heap w2 !! self) as [m2|]; [|done].
      destruct (_purgeoldsessions C (knownsessions m2)) as [ks e'] eqn:Hp.
      intros [= _ ->]. by eapply purge_loop_raises. }
    subst e. split; [done|]. by exists w1, w2, evs1, calls, visible.
Qed.

Lemma merge_raises_witness :
  (TypeError ≠ ValueError
   ∧ (merge mfc 1%nat sample_bad_group sample_world).1.2 = []
   ∧ merge_apply mfc 1%nat sample_bad_group sample_world
     = ((merge mfc 1%nat sample_bad_group sample_world).1.1, [], Some TypeError,
        false)
   ∧ same_watchers sample_world (merge mfc 1%nat sample_bad_group sample_world).1.1)
  ∨ (TypeError = ValueError
     ∧ ∃ (w1 w2 : world) (emitted calls : list event) (visible : bool),
         merge_apply mfc 1%nat sample_bad_group sample_world
         = (w1, emitted, None, visible)
         ∧ (if visible
            then _process_whens 1%nat (ArgPayload sample_bad_group) w1
            else (w1, []))
           = (w2, calls)
         ∧ (merge mfc 1%nat sample_bad_group sample_world).1.2 = emitted ++ calls
         ∧ purge_at mfc 1%nat w2
           = ((merge mfc 1%nat sample_bad_group sample_world).1.1,
              Some ValueError)).
Proof.
  apply (merge_raises mfc 1%nat sample_bad_group sample_world).
  vm_compute. reflexivity.
Defined.

(** ** The cached name *)

Section CachedName.
Variable C : constants.
Implicit Types (ks : sessions) (w : world) (m : Model).

(** Lines 126-127 in one formula: the name becomes that of the best session
    when that session has one that differs from it. *)
Lemma update_nm_eq uid nm ks :
  update_nm C uid nm ks
  = (match best_row C uid ks !! "nm" with
     | Some v => if py_ne v nm then v else nm
     | None => nm
     end, (bestsession C uid ks).2).
Proof.
  unfold update_nm, best_row.
  pose proof (bestsession_again C uid ks) as Hagain.
  destruct (bestsession C uid ks) as [b1 ks1]. cbn [fst snd] in *.
  destruct (row_at b1 ks1 !! "nm") as [v|] eqn:Hv; [|done].
  rewrite Hagain, Hv. change (default VNone (Some v)) with v.
  destruct (py_ne v nm); [|done]. by rewrite Hagain, Hv.
Qed.

Lemma best_row_again uid ks :
  best_row C uid (bestsession C uid ks).2 = best_row C uid ks.
Proof. unfold best_row. by rewrite bestsession_again. Qed.

Lemma merge_apply_name self p w m w1 evs visible m1 :
  heap w !! self = Some m →
  merge_apply C self p w = (w1, evs, None, visible) →
  heap w1 !! self = Some m1 →
  nm m1 = (if visible
           then match best_row C (uid m) (knownsessions m1) !! "nm" with
                | Some v => if py_ne v (nm m) then v else nm m
                | None => nm m
                end
           else nm m).
Proof.
  intros Hm. unfold merge_apply. rewrite Hm.
  case_bool_decide; [done|]. destruct (negb (level_ok C p)); [done|].
  destruct (merge_update C (uid m) p (knownsessions m)) as [u [e0|]]; [done|].
  destruct (merge_visible C (u_cur u) (u_sessions u)) as [[vis ks1] [e1|]]; [done|].
  destruct vis.
  - rewrite update_nm_eq. intros [= <- _ <-].
    rewrite store_lookup_eq by (by rewrite Hm). intros [= <-]. simpl.
    by rewrite best_row_again.
  - intros [= <- _ <-]. rewrite store_lookup_eq by (by rewrite Hm).
    by intros [= <-].
Qed.
End CachedName.

(** X14.  The cached name [nm] after a merge that returns: a merge that is
    not visible leaves it as it was; a visible one sets it to the ["nm"] of
    the best session when that session has one that differs ([!=]) from it,
    and leaves it otherwise.  The best session is the one of the sessions as
    they are before the purge, so that the name outlives the session. *)
Theorem merge_name (C : constants) (self : addr) (p : payload) (w w' : world)
    (m : Model) (evs : list event) :
  heap w !! self = Some m →
  merge C self p w = (w', evs, None) →
  ∃ (w1 : world) (m1 m' : Model) (emitted : list event) (visible : bool),
    merge_apply C self p w = (w1, emitted, None, visible)
    ∧ heap w1 !! self = Some m1
    ∧ heap w' !! self = Some m'
    ∧ nm m' = nm m1
    ∧ nm m1 = (if visible
               then match best_row C (uid m) (knownsessions m1) !! "nm" with
                    | Some v => if py_ne v (nm m) then v else nm m
                    | None => nm m
                    end
               else nm m).
Proof.
  intros Hm. unfold merge.
  destruct (merge_apply C self p w) as [[[w1 emitted] [e1|]] visible] eqn:Ha; [done|].
  destruct (merge_apply_allocated C _ _ _ _ _ _ Ha) as [m1 Hm1].
  pose proof (merge_apply_name C _ _ _ _ _ _ _ _ Hm Ha Hm1) as Hnm.
  assert (H2 : ∃ m2, heap (if visible then _process_whens self (ArgPayload p) w1
                           else (w1, [])).1 !! self = Some m2
                     ∧ snapshot_of m2 = snapshot_of m1).
  { destruct visible; [|by exists m1].
    destruct (_process_whens self (ArgPayload p) w1) as [w2 calls] eqn:Hw.
    by apply (process_whens_lookup _ _ _ _ _ _ _ Hw Hm1). }
  destruct (if visible then _process_whens self (ArgPayload p) w1 else (w1, []))
    as [w2 calls]. cbn [fst] in H2.
  destruct H2 as (m2 & Hm2 & Hsnap).
  unfold purge_at. rewrite Hm2.
  destruct (_purgeoldsessions C (knownsessions m2)) as [ks e3].
  intros [= <- _ _].
  exists w1, m1, (set_knownsessions ks m2), emitted, visible.
  split_and!; [done|done| | |done].
  - apply store_lookup_eq. by rewrite Hm2.
  - change (s_nm (snapshot_of m2) = nm m1). by rewrite Hsnap.
Qed.

Lemma merge_name_witness :
  ∃ (w1 : world) (m1 m' : Model) (emitted : list event) (visible : bool),
    merge_apply mfc 1%nat sample_alice sample_world = (w1, emitted, None, visible)
    ∧ heap w1 !! 1%nat = Some m1
    ∧ heap (merge mfc 1%nat sample_alice sample_world).1.1 !! 1%nat = Some m'
    ∧ nm m' = nm m1
    ∧ nm m1 = (if visible
               then match best_row mfc (uid (Model_init 7)) (knownsessions m1) !! "nm"
                    with
                    | Some v => if py_ne v (nm (Model_init 7)) then v
                                else nm (Model_init 7)
                    | None => nm (Model_init 7)
                    end
               else nm (Model_init 7)).
Proof.
  apply (merge_name mfc 1%nat sample_alice sample_world
           (merge mfc 1%nat sample_alice sample_world).1.1 (Model_init 7)
           (merge mfc 1%nat sample_alice sample_world).1.2).
  - reflexivity.
  - vm_compute. reflexivity.
Defined.
